(** * Planning scene: message-driven world updates, attach/detach,
      collision dispatch, diffs and the text geometry loader

    A shallow embedding of [moveit_core/planning_scene/src/planning_scene.cpp].
    The scene is a record that is passed and returned explicitly; every
    member function of [PlanningScene] that the properties below talk about
    is a function on that record.  Collaborators whose code lives elsewhere
    (Eigen, the shape library, the kinematic part of the robot state, the
    collision back end, the allowed collision matrix) are taken abstractly
    through the two classes [External] and [Collaborators]. *)

From Stdlib Require Import Ascii.
From stdpp Require Import base option list strings gmap fin_maps.

Set Warnings "-register-all".
Set Default Proof Using "Type".

(** ** External types and functions *)

(** Types and pure functions of libraries outside the planning scene
    sources.  Nothing is assumed about them beyond their signatures. *)
Class External := {
  (** [double] *)
  D : Type;
  (** [Eigen::Isometry3d] with product, inverse and identity *)
  Isometry3d : Type;
  Identity : Isometry3d;
  iso_mul : Isometry3d -> Isometry3d -> Isometry3d;
  iso_inverse : Isometry3d -> Isometry3d;
  (** [geometry_msgs::msg::Pose], its default value, the conversion
      [utilities::poseMsgToEigen] and [moveit::core::isEmpty] *)
  Pose : Type;
  Pose_default : Pose;
  poseMsgToEigen : Pose -> Isometry3d;
  isEmpty : Pose -> bool;
  (** [shapes::Shape] and the three shape messages; the constructors give
      [None] where [shapes::constructShapeFromMsg] gives a null pointer *)
  Shape : Type;
  SolidPrimitive : Type;
  Mesh : Type;
  Plane : Type;
  constructShapeFromMsg_primitive : SolidPrimitive -> option Shape;
  constructShapeFromMsg_mesh : Mesh -> option Shape;
  constructShapeFromMsg_plane : Plane -> option Shape;
  (** the occupancy tree, [createOctomap]'s readers and [shapes::OcTree] *)
  OccMapTree : Type;
  readTree : D -> bool -> list Z -> OccMapTree;
  OcTree : OccMapTree -> Shape;
  (** the kinematic part of [moveit::core::RobotState]: joint values and
      cached transforms, [update], the dirty flags and the global link
      transforms *)
  KinState : Type;
  kin_update : KinState -> KinState;
  kin_dirtyCollisionBodyTransforms : KinState -> bool;
  kin_updateCollisionBodyTransforms : KinState -> KinState;
  kin_dirtyLinkTransforms : KinState -> bool;
  kin_getGlobalLinkTransform : KinState -> string -> Isometry3d;
  (** [collision_detection::AllowedCollisionMatrix] *)
  AllowedCollisionMatrix : Type;
  acm_removeEntry : string -> AllowedCollisionMatrix -> AllowedCollisionMatrix;
  (** [collision_detection::Contact] *)
  Contact : Type;
  (** callbacks stored in the scene ([StateFeasibilityFn] and the like) *)
  StateFeasibilityFn : Type;
  MotionFeasibilityFn : Type;
  (** reading text: the number parsers behind [in >> double] and
      [in >> unsigned int] give the value (or [None] on a parse error) and
      the number of characters they consumed from the text in front of
      them; [shapes::constructShapeFromText] gives, besides, the fail and
      end-of-file bits it leaves on the stream *)
  num_get_double : string -> option D * nat;
  num_get_uint : string -> option nat * nat;
  constructShapeFromText : string -> option Shape * nat * bool * bool;
  (** [Eigen::Translation3d(x, y, z) * Eigen::Quaterniond(rw, rx, ry, rz)] *)
  pose_of_text : D -> D -> D -> D -> D -> D -> D -> Isometry3d;
  (** the test [v > 0.0f] on a double *)
  D_positive : D -> bool;
}.

(** ** Input streams *)

(** A [std::istream] on a text: the characters not read yet and the state
    bits ([badbit] is never set on a text in memory). *)
Record istream := mkIstream {
  buf : string;
  failbit : bool;
  eofbit : bool
}.

Definition good (i : istream) : bool := negb (failbit i) && negb (eofbit i).
Definition eof (i : istream) : bool := eofbit i.

Fixpoint skipws (s : string) : string :=
  match s with
  | String c rest => if Ascii.is_space c then skipws rest else s
  | EmptyString => EmptyString
  end.

Fixpoint string_drop (n : nat) (s : string) : string :=
  match n, s with
  | S n', String _ rest => string_drop n' rest
  | _, _ => s
  end.

Definition string_is_empty (s : string) : bool :=
  match s with EmptyString => true | String _ _ => false end.

(** The sentry every input function builds first: a stream that is not good
    gets [failbit]; formatted input skips white space and fails at the end
    of the text. *)
Definition sentry (noskipws : bool) (i : istream) : bool * istream :=
  if negb (good i) then (false, mkIstream (buf i) true (eofbit i))
  else if noskipws then (true, i)
  else
    match skipws (buf i) with
    | EmptyString => (false, mkIstream EmptyString true true)
    | String c rest => (true, mkIstream (String c rest) false false)
    end.

(** The characters before the next newline, and the text after it ([None]
    when the text ends first). *)
Fixpoint take_line (s : string) : string * option string :=
  match s with
  | EmptyString => (EmptyString, None)
  | String c rest =>
      if bool_decide (c = "010"%char) then (EmptyString, Some rest)
      else let '(l, after) := take_line rest in (String c l, after)
  end.

(** [std::getline(in, str)] *)
Definition getline (i : istream) (str : string) : string * istream :=
  let '(ok, i1) := sentry true i in
  if negb ok then (str, i1)
  else
    match take_line (buf i1) with
    | (line, Some rest) => (line, mkIstream rest false false)
    | (line, None) => (line, mkIstream EmptyString (string_is_empty line) true)
    end.

(** The characters before the next white space, and the text from there. *)
Fixpoint take_token (s : string) : string * string :=
  match s with
  | EmptyString => (EmptyString, EmptyString)
  | String c rest =>
      if Ascii.is_space c then (EmptyString, s)
      else let '(t, after) := take_token rest in (String c t, after)
  end.

(** [in >> str] for a [std::string] *)
Definition extract_string (i : istream) (str : string) : string * istream :=
  let '(ok, i1) := sentry false i in
  if negb ok then (str, i1)
  else
    let '(tok, rest) := take_token (buf i1) in
    (tok, mkIstream rest false (string_is_empty rest)).

(** [in >> v] for a number, through its parser. *)
Definition extract_num {A : Type} (num_get : string -> option A * nat) (i : istream)
  : option A * istream :=
  let '(ok, i1) := sentry false i in
  if negb ok then (None, i1)
  else
    let '(v, n) := num_get (buf i1) in
    let rest := string_drop n (buf i1) in
    (v, mkIstream rest (match v with None => true | Some _ => false end)
          (string_is_empty rest)).

(** [in.tellg()]: the position is the text still to be read. *)
Definition tellg (i : istream) : option string * istream :=
  let '(ok, i1) := sentry true i in
  if negb ok then (None, i1) else (Some (buf i1), i1).

(** [in.seekg(pos)]: clears [eofbit]; a stream that has failed stays where
    it is. *)
Definition seekg (pos : option string) (i : istream) : istream :=
  if failbit i then mkIstream (buf i) true false
  else
    match pos with
    | Some b => mkIstream b false false
    | None => mkIstream (buf i) true false
    end.

(** [boost::algorithm::trim] and the test [line.find(' ') != npos] *)
Definition trim (s : string) : string :=
  String.rev (skipws (String.rev (skipws s))).

Fixpoint contains_space (s : string) : bool :=
  match s with
  | EmptyString => false
  | String c rest => if bool_decide (c = " "%char) then true else contains_space rest
  end.

Section Model.
Context {ext : External}.

(** ** Messages *)

Record ColorRGBA := mkColorRGBA { r : D; g : D; b : D; a : D }.

Record ObjectType := mkObjectType { db : string; key : string }.

Record JointTrajectory := mkJointTrajectory {
  joint_names : list string;
  points : list (list D)
}.

(** [moveit_msgs::msg::CollisionObject]; [operation] is a byte. *)
Record CollisionObject := mkCollisionObject {
  header_frame_id : string;
  pose : Pose;
  id : string;
  type : ObjectType;
  primitives : list SolidPrimitive;
  primitive_poses : list Pose;
  meshes : list Mesh;
  mesh_poses : list Pose;
  planes : list Plane;
  plane_poses : list Pose;
  subframe_names : list string;
  subframe_poses : list Pose;
  operation : Z
}.

Definition ADD : Z := 0.
Definition REMOVE : Z := 1.
Definition APPEND : Z := 2.
Definition MOVE : Z := 3.

(** [moveit_msgs::msg::AttachedCollisionObject] *)
Record AttachedCollisionObject := mkAttachedCollisionObject {
  link_name : string;
  object : CollisionObject;
  touch_links : list string;
  detach_posture : JointTrajectory
}.

(** [octomap_msgs::msg::Octomap] and [OctomapWithPose] *)
Record Octomap := mkOctomap {
  octomap_frame_id : string;
  binary : bool;
  octomap_id : string;
  resolution : D;
  data : list Z
}.

Record OctomapWithPose := mkOctomapWithPose {
  map_frame_id : string;
  origin : Pose;
  octomap : Octomap
}.

(** ** The world *)

(** Modelled from the spec: [collision_detection::World::Object] is declared
    outside these sources; an object is a pose, a list of shapes with their
    poses and a table of named subframes. *)
Record Object := mkObject {
  pose_ : Isometry3d;
  shapes_ : list Shape;
  shape_poses_ : list Isometry3d;
  subframe_poses_ : gmap string Isometry3d
}.

(** [World::Action] bits. *)
Definition UNINITIALIZED : N := 0.
Definition CREATE : N := 1.
Definition DESTROY : N := 2.
Definition MOVE_SHAPE : N := 4.
Definition ADD_SHAPE : N := 8.
Definition REMOVE_SHAPE : N := 16.

(** A change of the world together with the notifications it sends to the
    observers of the world: the object id and the action bits. *)
Definition Notifications : Type := list (string * N).

(** Modelled from the spec: [World::hasObject] and [World::getObject], a
    look-up in the table of objects. *)
Definition World_hasObject (object_id : string) (w : gmap string Object) : bool :=
  bool_decide (is_Some (w !! object_id)).

Definition World_getObject (object_id : string) (w : gmap string Object) : option Object :=
  w !! object_id.

(** Modelled from the spec: [World::removeObject] erases the object, reports
    whether it was there and notifies [DESTROY]. *)
Definition World_removeObject (object_id : string) (w : gmap string Object)
  : bool * gmap string Object * Notifications :=
  match w !! object_id with
  | Some _ => (true, delete object_id w, [(object_id, DESTROY)])
  | None => (false, w, [])
  end.

(** Modelled from the spec: [World::addToObject] with a list of shapes.  It
    does nothing when the two lists differ in length or are empty; it
    creates the object at [pose] when the id is new, and appends the shapes
    to the object otherwise (the pose of an existing object is kept). *)
Definition World_addToObject (object_id : string) (pose : Isometry3d)
    (shapes : list Shape) (shape_poses : list Isometry3d) (w : gmap string Object)
  : gmap string Object * Notifications :=
  if negb (length shapes =? length shape_poses)%nat then (w, [])
  else if bool_decide (length shapes = 0%nat) then (w, [])
  else match w !! object_id with
       | None =>
           (<[object_id := mkObject pose shapes shape_poses ∅]> w,
            [(object_id, N.lor ADD_SHAPE CREATE)])
       | Some o =>
           (<[object_id := mkObject (pose_ o) (shapes_ o ++ shapes)
                             (shape_poses_ o ++ shape_poses) (subframe_poses_ o)]> w,
            [(object_id, ADD_SHAPE)])
       end.

(** Modelled from the spec: [World::addToObject] with one shape; a new
    object starts at the identity pose. *)
Definition World_addToObject1 (object_id : string) (shape : Shape)
    (shape_pose : Isometry3d) (w : gmap string Object)
  : gmap string Object * Notifications :=
  match w !! object_id with
  | None =>
      (<[object_id := mkObject Identity [shape] [shape_pose] ∅]> w,
       [(object_id, N.lor ADD_SHAPE CREATE)])
  | Some o =>
      (<[object_id := mkObject (pose_ o) (shapes_ o ++ [shape])
                        (shape_poses_ o ++ [shape_pose]) (subframe_poses_ o)]> w,
       [(object_id, ADD_SHAPE)])
  end.

(** Modelled from the spec: [World::setObjectPose] creates an object with no
    shapes when the id is new, and moves the object otherwise. *)
Definition World_setObjectPose (object_id : string) (pose : Isometry3d)
    (w : gmap string Object) : gmap string Object * Notifications :=
  match w !! object_id with
  | None => (<[object_id := mkObject pose [] [] ∅]> w, [(object_id, CREATE)])
  | Some o =>
      (<[object_id := mkObject pose (shapes_ o) (shape_poses_ o) (subframe_poses_ o)]> w,
       [(object_id, if bool_decide (length (shapes_ o) = 0%nat) then UNINITIALIZED else MOVE_SHAPE)])
  end.

(** Modelled from the spec: [World::moveShapesInObject] replaces all shape
    poses of an object; it fails when the object is missing or the number of
    poses differs from the number of shapes. *)
Definition World_moveShapesInObject (object_id : string) (shape_poses : list Isometry3d)
    (w : gmap string Object) : bool * gmap string Object * Notifications :=
  match w !! object_id with
  | None => (false, w, [])
  | Some o =>
      if negb (length shape_poses =? length (shapes_ o))%nat then (false, w, [])
      else (true,
            <[object_id := mkObject (pose_ o) (shapes_ o) shape_poses (subframe_poses_ o)]> w,
            [(object_id, MOVE_SHAPE)])
  end.

(** Modelled from the spec: [World::setSubframesOfObject] replaces the
    subframes of an existing object and sends no notification. *)
Definition World_setSubframesOfObject (object_id : string)
    (subframe_poses : gmap string Isometry3d) (w : gmap string Object)
  : bool * gmap string Object :=
  match w !! object_id with
  | None => (false, w)
  | Some o =>
      (true, <[object_id := mkObject (pose_ o) (shapes_ o) (shape_poses_ o) subframe_poses]> w)
  end.

(** Modelled from the spec: [World::getObjectIds]. *)
Definition World_getObjectIds (w : gmap string Object) : list string :=
  (map_to_list w).*1.

(** Modelled from the spec: the world diff log accumulates the action bits
    per object id; [DESTROY] replaces what was recorded. *)
Definition WorldDiff_notify (d : gmap string N) (n : string * N) : gmap string N :=
  if (n.2 =? DESTROY)%N then <[n.1 := DESTROY]> d
  else <[n.1 := N.lor (default UNINITIALIZED (d !! n.1)) n.2]> d.

(** ** The robot state *)

(** Modelled from the spec: [moveit::core::AttachedBody], declared outside
    these sources; the name of a body is its key in the attachment table. *)
Record AttachedBody := mkAttachedBody {
  ab_pose : Isometry3d;
  ab_shapes : list Shape;
  ab_shape_poses : list Isometry3d;
  ab_touch_links : gset string;
  ab_link_name : string;
  ab_detach_posture : JointTrajectory;
  ab_subframes : gmap string Isometry3d
}.

(** Modelled from the spec: [moveit::core::RobotState] offers link
    transforms and the storage of attached bodies, keyed by id. *)
Record RobotState := mkRobotState {
  kin : KinState;
  attached_body_map_ : gmap string AttachedBody
}.

(** Modelled from the spec: the members of [RobotState] the scene calls.
    [update] and the dirty flags concern the kinematic part only; attaching
    and clearing act on the attachment table. *)
Definition RobotState_update (rs : RobotState) : RobotState :=
  mkRobotState (kin_update (kin rs)) (attached_body_map_ rs).

Definition dirtyCollisionBodyTransforms (rs : RobotState) : bool :=
  kin_dirtyCollisionBodyTransforms (kin rs).

Definition updateCollisionBodyTransforms (rs : RobotState) : RobotState :=
  mkRobotState (kin_updateCollisionBodyTransforms (kin rs)) (attached_body_map_ rs).

Definition getGlobalLinkTransform (rs : RobotState) (link : string) : Isometry3d :=
  kin_getGlobalLinkTransform (kin rs) link.

Definition hasAttachedBody (rs : RobotState) (id : string) : bool :=
  bool_decide (is_Some (attached_body_map_ rs !! id)).

Definition getAttachedBody (rs : RobotState) (id : string) : option AttachedBody :=
  attached_body_map_ rs !! id.

(** Modelled from the spec: [clearAttachedBody] drops the body of that name
    and reports whether one was attached. *)
Definition clearAttachedBody (id : string) (rs : RobotState) : bool * RobotState :=
  match attached_body_map_ rs !! id with
  | Some _ => (true, mkRobotState (kin rs) (delete id (attached_body_map_ rs)))
  | None => (false, rs)
  end.

(** Modelled from the spec: [attachBody] stores the body under its name. *)
Definition attachBody (id : string) (body : AttachedBody) (rs : RobotState) : RobotState :=
  mkRobotState (kin rs) (<[id := body]> (attached_body_map_ rs)).

(** Modelled from the spec: [getAttachedBodies], all attached bodies or the
    ones on a link, with their names. *)
Definition getAttachedBodies (rs : RobotState) : list (string * AttachedBody) :=
  map_to_list (attached_body_map_ rs).

Definition getAttachedBodiesOfLink (rs : RobotState) (link : string)
  : list (string * AttachedBody) :=
  filter (fun nb => ab_link_name nb.2 = link) (map_to_list (attached_body_map_ rs)).

(** Modelled from the spec: [AttachedBody::getGlobalPose], the transform of
    the link of the body times the pose of the body in the link. *)
Definition getGlobalPose (rs : RobotState) (body : AttachedBody) : Isometry3d :=
  iso_mul (getGlobalLinkTransform rs (ab_link_name body)) (ab_pose body).

(** Modelled from the spec: [moveit::core::RobotModel], as far as the scene
    asks it: its name, its model frame, its links, and the default state
    and collision matrix it gives a new scene. *)
Record RobotModel := mkRobotModel {
  model_name : string;
  model_frame : string;
  link_models : gset string;
  default_kin : KinState;
  srdf_acm : AllowedCollisionMatrix
}.

Definition hasLinkModel (m : RobotModel) (name : string) : bool :=
  bool_decide (name ∈ link_models m).

(** ** Collision requests, results and environments *)

(** Modelled from the spec: the members of [CollisionRequest] and
    [CollisionResult] that the scene reads; both are declared outside these
    sources. *)
Record CollisionRequest := mkCollisionRequest {
  group_name : string;
  pad_environment_collisions : bool;
  pad_self_collisions : bool;
  contacts : bool;
  max_contacts : nat;
  max_contacts_per_pair : nat;
  verbose : bool
}.

Record CollisionResult := mkCollisionResult {
  collision : bool;
  res_contacts : gmap (string * string) (list Contact)
}.

(** The number of contacts a result records: the contact map holds a list
    of contacts for every pair of bodies in contact, and the contacts of all
    pairs are counted. *)
Definition contact_count (res : CollisionResult) : nat :=
  sum_list (length <$> (map_to_list (res_contacts res)).*2).

(** Modelled from the spec: a collision environment holds the link padding
    and scale; the world it looks at is the world of the scene that owns
    it. *)
Record CollisionEnv := mkCollisionEnv {
  link_padding : gmap string D;
  link_scale : gmap string D
}.

Definition setLinkPadding (p : gmap string D) (e : CollisionEnv) : CollisionEnv :=
  mkCollisionEnv p (link_scale e).

Definition setLinkScale (sc : gmap string D) (e : CollisionEnv) : CollisionEnv :=
  mkCollisionEnv (link_padding e) sc.

(** [PlanningScene::CollisionDetector]: the padded and the unpadded
    environment built by one allocator. *)
Record CollisionDetector := mkCollisionDetector {
  alloc_ : string;
  cenv_ : CollisionEnv;
  cenv_unpadded_ : CollisionEnv
}.

Definition copyPadding (src : CollisionDetector) (d : CollisionDetector) : CollisionDetector :=
  mkCollisionDetector (alloc_ d)
    (setLinkScale (link_scale (cenv_ src)) (setLinkPadding (link_padding (cenv_ src)) (cenv_ d)))
    (cenv_unpadded_ d).

(** Functions of collaborators that take the records above: the frame
    look-ups of the robot state and of the world, and the two queries of the
    collision back end. *)
Class Collaborators := {
  state_getFrameTransform : RobotState -> string -> option Isometry3d;
  world_getTransform : gmap string Object -> string -> option Isometry3d;
  env_checkRobotCollision :
    CollisionEnv -> gmap string Object -> CollisionRequest -> CollisionResult ->
    RobotState -> AllowedCollisionMatrix -> CollisionResult;
  env_checkSelfCollision :
    CollisionEnv -> gmap string Object -> CollisionRequest -> CollisionResult ->
    RobotState -> AllowedCollisionMatrix -> CollisionResult;
  (** the environment an allocator copy-constructs from the environment of
      a parent scene *)
  env_copy : string -> CollisionEnv -> CollisionEnv
}.

Context {col : Collaborators}.

(** ** The planning scene *)

(** The data members of [PlanningScene].  [parent_] is the scene this one
    was forked from, as it was at the fork; [scene_transforms_] is the table
    of fixed frames.  The observer callbacks of the world and of the robot
    state are left out: they do not change the scene. *)
Inductive PlanningScene := mkScene {
  name_ : string;
  parent_ : option PlanningScene;
  robot_model_ : RobotModel;
  world_ : gmap string Object;
  world_diff_ : option (gmap string N);
  scene_transforms_ : option (gmap string Isometry3d);
  robot_state_ : option RobotState;
  acm_ : option AllowedCollisionMatrix;
  object_colors_ : option (gmap string ColorRGBA);
  original_object_colors_ : option (gmap string ColorRGBA);
  object_types_ : option (gmap string ObjectType);
  collision_detector_ : CollisionDetector;
  state_feasibility_ : option StateFeasibilityFn;
  motion_feasibility_ : option MotionFeasibilityFn
}.

(** Assignments to one data member. *)
Definition set_name_ (v : string) (s : PlanningScene) : PlanningScene :=
  mkScene v (parent_ s) (robot_model_ s) (world_ s) (world_diff_ s)
    (scene_transforms_ s) (robot_state_ s) (acm_ s) (object_colors_ s)
    (original_object_colors_ s) (object_types_ s) (collision_detector_ s)
    (state_feasibility_ s) (motion_feasibility_ s).

Definition set_parent_ (v : option PlanningScene) (s : PlanningScene) : PlanningScene :=
  mkScene (name_ s) v (robot_model_ s) (world_ s) (world_diff_ s) (scene_transforms_ s)
    (robot_state_ s) (acm_ s) (object_colors_ s) (original_object_colors_ s)
    (object_types_ s) (collision_detector_ s) (state_feasibility_ s)
    (motion_feasibility_ s).

Definition set_robot_model_ (v : RobotModel) (s : PlanningScene) : PlanningScene :=
  mkScene (name_ s) (parent_ s) v (world_ s) (world_diff_ s) (scene_transforms_ s)
    (robot_state_ s) (acm_ s) (object_colors_ s) (original_object_colors_ s)
    (object_types_ s) (collision_detector_ s) (state_feasibility_ s)
    (motion_feasibility_ s).

Definition set_world_ (v : gmap string Object) (s : PlanningScene) : PlanningScene :=
  mkScene (name_ s) (parent_ s) (robot_model_ s) v (world_diff_ s)
    (scene_transforms_ s) (robot_state_ s) (acm_ s) (object_colors_ s)
    (original_object_colors_ s) (object_types_ s) (collision_detector_ s)
    (state_feasibility_ s) (motion_feasibility_ s).

Definition set_world_diff_ (v : option (gmap string N)) (s : PlanningScene) : PlanningScene :=
  mkScene (name_ s) (parent_ s) (robot_model_ s) (world_ s) v (scene_transforms_ s)
    (robot_state_ s) (acm_ s) (object_colors_ s) (original_object_colors_ s)
    (object_types_ s) (collision_detector_ s) (state_feasibility_ s)
    (motion_feasibility_ s).

Definition set_scene_transforms_ (v : option (gmap string Isometry3d)) (s : PlanningScene) : PlanningScene :=
  mkScene (name_ s) (parent_ s) (robot_model_ s) (world_ s) (world_diff_ s) v
    (robot_state_ s) (acm_ s) (object_colors_ s) (original_object_colors_ s)
    (object_types_ s) (collision_detector_ s) (state_feasibility_ s)
    (motion_feasibility_ s).

Definition set_robot_state_ (v : option RobotState) (s : PlanningScene) : PlanningScene :=
  mkScene (name_ s) (parent_ s) (robot_model_ s) (world_ s) (world_diff_ s)
    (scene_transforms_ s) v (acm_ s) (object_colors_ s) (original_object_colors_ s)
    (object_types_ s) (collision_detector_ s) (state_feasibility_ s)
    (motion_feasibility_ s).

Definition set_acm_ (v : option AllowedCollisionMatrix) (s : PlanningScene) : PlanningScene :=
  mkScene (name_ s) (parent_ s) (robot_model_ s) (world_ s) (world_diff_ s)
    (scene_transforms_ s) (robot_state_ s) v (object_colors_ s)
    (original_object_colors_ s) (object_types_ s) (collision_detector_ s)
    (state_feasibility_ s) (motion_feasibility_ s).

Definition set_object_colors_ (v : option (gmap string ColorRGBA)) (s : PlanningScene) : PlanningScene :=
  mkScene (name_ s) (parent_ s) (robot_model_ s) (world_ s) (world_diff_ s)
    (scene_transforms_ s) (robot_state_ s) (acm_ s) v (original_object_colors_ s)
    (object_types_ s) (collision_detector_ s) (state_feasibility_ s)
    (motion_feasibility_ s).

Definition set_original_object_colors_ (v : option (gmap string ColorRGBA)) (s : PlanningScene) : PlanningScene :=
  mkScene (name_ s) (parent_ s) (robot_model_ s) (world_ s) (world_diff_ s)
    (scene_transforms_ s) (robot_state_ s) (acm_ s) (object_colors_ s) v
    (object_types_ s) (collision_detector_ s) (state_feasibility_ s)
    (motion_feasibility_ s).

Definition set_object_types_ (v : option (gmap string ObjectType)) (s : PlanningScene) : PlanningScene :=
  mkScene (name_ s) (parent_ s) (robot_model_ s) (world_ s) (world_diff_ s)
    (scene_transforms_ s) (robot_state_ s) (acm_ s) (object_colors_ s)
    (original_object_colors_ s) v (collision_detector_ s) (state_feasibility_ s)
    (motion_feasibility_ s).

Definition set_collision_detector_ (v : CollisionDetector) (s : PlanningScene) : PlanningScene :=
  mkScene (name_ s) (parent_ s) (robot_model_ s) (world_ s) (world_diff_ s)
    (scene_transforms_ s) (robot_state_ s) (acm_ s) (object_colors_ s)
    (original_object_colors_ s) (object_types_ s) v (state_feasibility_ s)
    (motion_feasibility_ s).

Definition set_state_feasibility_ (v : option StateFeasibilityFn) (s : PlanningScene) : PlanningScene :=
  mkScene (name_ s) (parent_ s) (robot_model_ s) (world_ s) (world_diff_ s)
    (scene_transforms_ s) (robot_state_ s) (acm_ s) (object_colors_ s)
    (original_object_colors_ s) (object_types_ s) (collision_detector_ s) v
    (motion_feasibility_ s).

Definition set_motion_feasibility_ (v : option MotionFeasibilityFn) (s : PlanningScene) : PlanningScene :=
  mkScene (name_ s) (parent_ s) (robot_model_ s) (world_ s) (world_diff_ s)
    (scene_transforms_ s) (robot_state_ s) (acm_ s) (object_colors_ s)
    (original_object_colors_ s) (object_types_ s) (collision_detector_ s)
    (state_feasibility_ s) v.

(** ** Reading through the parent *)

Definition OCTOMAP_NS : string := "<octomap>".
Definition DEFAULT_SCENE_NAME : string := "(noname)".

Definition getName (s : PlanningScene) : string := name_ s.
Definition getRobotModel (s : PlanningScene) : RobotModel := robot_model_ s.
Definition getWorld (s : PlanningScene) : gmap string Object := world_ s.

(** Modelled from the spec: [getCurrentState], [getAllowedCollisionMatrix]
    and [getTransforms] are inline members of the class declaration; a scene
    without a local value forwards the read to its parent.  A scene without
    parent always holds its own values ([initialize], [decoupleParent]); the
    last case below is never reached on such scenes. *)
Fixpoint getCurrentState (s : PlanningScene) : RobotState :=
  match robot_state_ s with
  | Some rs => rs
  | None =>
      match parent_ s with
      | Some p => getCurrentState p
      | None => mkRobotState (default_kin (robot_model_ s)) ∅
      end
  end.

Fixpoint getAllowedCollisionMatrix (s : PlanningScene) : AllowedCollisionMatrix :=
  match acm_ s with
  | Some m => m
  | None =>
      match parent_ s with
      | Some p => getAllowedCollisionMatrix p
      | None => srdf_acm (robot_model_ s)
      end
  end.

Fixpoint getTransforms (s : PlanningScene) : gmap string Isometry3d :=
  match scene_transforms_ s with
  | Some t => t
  | None =>
      match parent_ s with
      | Some p => getTransforms p
      | None => ∅
      end
  end.

(** [getCurrentStateNonConst]: the robot state is copied from the parent on
    the first write, then updated. *)
Definition getCurrentStateNonConst (s : PlanningScene) : RobotState * PlanningScene :=
  let rs :=
    match robot_state_ s with
    | Some rs => rs
    | None =>
        match parent_ s with
        | Some p => getCurrentState p
        | None => mkRobotState (default_kin (robot_model_ s)) ∅
        end
    end in
  let rs' := RobotState_update rs in
  (rs', set_robot_state_ (Some rs') s).

(** [getAllowedCollisionMatrixNonConst] *)
Definition getAllowedCollisionMatrixNonConst (s : PlanningScene)
  : AllowedCollisionMatrix * PlanningScene :=
  match acm_ s with
  | Some m => (m, s)
  | None =>
      let m := match parent_ s with
               | Some p => getAllowedCollisionMatrix p
               | None => srdf_acm (robot_model_ s)
               end in
      (m, set_acm_ (Some m) s)
  end.

Definition setAllowedCollisionMatrix (m : AllowedCollisionMatrix) (s : PlanningScene)
  : PlanningScene :=
  set_acm_ (Some m) (getAllowedCollisionMatrixNonConst s).2.

(** [getTransformsNonConst]: [getCurrentStateNonConst().update()] updates
    the robot state that [getCurrentStateNonConst] has just updated once
    more; the table of the parent is copied on the first write. *)
Definition getTransformsNonConst (s : PlanningScene)
  : gmap string Isometry3d * PlanningScene :=
  let '(rs, s0) := getCurrentStateNonConst s in
  let s1 := set_robot_state_ (Some (RobotState_update rs)) s0 in
  match scene_transforms_ s1 with
  | Some t => (t, s1)
  | None =>
      let t := match parent_ s1 with
               | Some p => getTransforms p
               | None => ∅
               end in
      (t, set_scene_transforms_ (Some t) s1)
  end.

Definition getCollisionEnv (s : PlanningScene) : CollisionEnv :=
  cenv_ (collision_detector_ s).

Definition getCollisionEnvUnpadded (s : PlanningScene) : CollisionEnv :=
  cenv_unpadded_ (collision_detector_ s).

(** ** Collision dispatch *)

(** The queries a check sends to the collision back end, in order: which
    query, on which of the two environments ([true] for the padded one),
    with which request. *)
Inductive EnvCall :=
  | CheckRobotCollision (padded : bool) (req : CollisionRequest)
  | CheckSelfCollision (padded : bool) (req : CollisionRequest).

Definition call_checkRobotCollision (padded : bool) (s : PlanningScene)
    (req : CollisionRequest) (res : CollisionResult) (robot_state : RobotState)
    (acm : AllowedCollisionMatrix) : CollisionResult * list EnvCall :=
  (env_checkRobotCollision (if padded then getCollisionEnv s else getCollisionEnvUnpadded s)
     (world_ s) req res robot_state acm,
   [CheckRobotCollision padded req]).

Definition call_checkSelfCollision (padded : bool) (s : PlanningScene)
    (req : CollisionRequest) (res : CollisionResult) (robot_state : RobotState)
    (acm : AllowedCollisionMatrix) : CollisionResult * list EnvCall :=
  (env_checkSelfCollision (if padded then getCollisionEnv s else getCollisionEnvUnpadded s)
     (world_ s) req res robot_state acm,
   [CheckSelfCollision padded req]).

(** [checkCollision(req, res, const RobotState&, acm) const] *)
Definition checkCollision (s : PlanningScene) (req : CollisionRequest)
    (res : CollisionResult) (robot_state : RobotState) (acm : AllowedCollisionMatrix)
  : CollisionResult * list EnvCall :=
  let '(res1, t1) :=
    if pad_environment_collisions req
    then call_checkRobotCollision true s req res robot_state acm
    else call_checkRobotCollision false s req res robot_state acm in
  if collision res1 && (negb (contacts req) || (max_contacts req <=? size (res_contacts res1))%nat)
  then (res1, t1)
  else
    let '(res2, t2) :=
      if pad_self_collisions req
      then call_checkSelfCollision true s req res1 robot_state acm
      else call_checkSelfCollision false s req res1 robot_state acm in
    (res2, t1 ++ t2).

(** [checkCollision(req, res, RobotState&, acm) const]; the robot state is
    returned as the call leaves it. *)
Definition checkCollision_state_acm_mut (s : PlanningScene) (req : CollisionRequest)
    (res : CollisionResult) (robot_state : RobotState) (acm : AllowedCollisionMatrix)
  : CollisionResult * list EnvCall * RobotState :=
  let robot_state' :=
    if dirtyCollisionBodyTransforms robot_state
    then updateCollisionBodyTransforms robot_state
    else robot_state in
  (checkCollision s req res robot_state' acm, robot_state').

(** [checkCollision(req, res, const RobotState&) const] *)
Definition checkCollision_state (s : PlanningScene) (req : CollisionRequest)
    (res : CollisionResult) (robot_state : RobotState) : CollisionResult * list EnvCall :=
  checkCollision s req res robot_state (getAllowedCollisionMatrix s).

(** [checkCollision(req, res, RobotState&) const] *)
Definition checkCollision_state_mut (s : PlanningScene) (req : CollisionRequest)
    (res : CollisionResult) (robot_state : RobotState)
  : CollisionResult * list EnvCall * RobotState :=
  checkCollision_state_acm_mut s req res robot_state (getAllowedCollisionMatrix s).

(** [checkCollision(req, res) const] *)
Definition checkCollision_const (s : PlanningScene) (req : CollisionRequest)
    (res : CollisionResult) : CollisionResult * list EnvCall :=
  checkCollision s req res (getCurrentState s) (getAllowedCollisionMatrix s).

(** [checkCollision(req, res)]; the current state is materialized, and the
    check may refresh its collision body transforms in place. *)
Definition checkCollision_mut (s : PlanningScene) (req : CollisionRequest)
    (res : CollisionResult) : CollisionResult * list EnvCall * PlanningScene :=
  let '(rs, s1) := getCurrentStateNonConst s in
  let '(out, rs') := checkCollision_state_mut s1 req res rs in
  (out, set_robot_state_ (Some rs') s1).

(** The request [new_req] of the unpadded checks: a copy of [req] with
    [pad_environment_collisions] set to [false]. *)
Definition unpadded_request (req : CollisionRequest) : CollisionRequest :=
  mkCollisionRequest (group_name req) false (pad_self_collisions req) (contacts req)
    (max_contacts req) (max_contacts_per_pair req) (verbose req).

(** [checkCollisionUnpadded(req, res)]: builds [new_req] and passes [req]. *)
Definition checkCollisionUnpadded_mut (s : PlanningScene) (req : CollisionRequest)
    (res : CollisionResult) : CollisionResult * list EnvCall * PlanningScene :=
  let new_req := unpadded_request req in
  let '(rs, s1) := getCurrentStateNonConst s in
  let '(out, rs') :=
    checkCollision_state_acm_mut s1 req res rs (getAllowedCollisionMatrix s1) in
  (out, set_robot_state_ (Some rs') s1).

(** [checkCollisionUnpadded(req, res) const] *)
Definition checkCollisionUnpadded_const (s : PlanningScene) (req : CollisionRequest)
    (res : CollisionResult) : CollisionResult * list EnvCall :=
  let new_req := unpadded_request req in
  checkCollision s new_req res (getCurrentState s) (getAllowedCollisionMatrix s).

(** [checkCollisionUnpadded(req, res, const RobotState&) const] *)
Definition checkCollisionUnpadded_state (s : PlanningScene) (req : CollisionRequest)
    (res : CollisionResult) (robot_state : RobotState) : CollisionResult * list EnvCall :=
  let new_req := unpadded_request req in
  checkCollision s new_req res robot_state (getAllowedCollisionMatrix s).

(** [checkCollisionUnpadded(req, res, RobotState&) const] *)
Definition checkCollisionUnpadded_state_mut (s : PlanningScene) (req : CollisionRequest)
    (res : CollisionResult) (robot_state : RobotState) : CollisionResult * list EnvCall :=
  let new_req := unpadded_request req in
  checkCollision s new_req res robot_state (getAllowedCollisionMatrix s).

(** [checkCollisionUnpadded(req, res, RobotState&, acm) const] *)
Definition checkCollisionUnpadded_state_acm_mut (s : PlanningScene) (req : CollisionRequest)
    (res : CollisionResult) (robot_state : RobotState) (acm : AllowedCollisionMatrix)
  : CollisionResult * list EnvCall * RobotState :=
  let robot_state' := updateCollisionBodyTransforms robot_state in
  let new_req := unpadded_request req in
  (checkCollision s new_req res robot_state' acm, robot_state').

(** [checkCollisionUnpadded(req, res, const RobotState&, acm) const]: builds
    [new_req] and passes [req]. *)
Definition checkCollisionUnpadded_state_acm (s : PlanningScene) (req : CollisionRequest)
    (res : CollisionResult) (robot_state : RobotState) (acm : AllowedCollisionMatrix)
  : CollisionResult * list EnvCall :=
  let new_req := unpadded_request req in
  checkCollision s req res robot_state acm.

(** [checkSelfCollision(req, res, const RobotState&, acm) const] *)
Definition checkSelfCollision (s : PlanningScene) (req : CollisionRequest)
    (res : CollisionResult) (robot_state : RobotState) (acm : AllowedCollisionMatrix)
  : CollisionResult * list EnvCall :=
  if pad_self_collisions req
  then call_checkSelfCollision true s req res robot_state acm
  else call_checkSelfCollision false s req res robot_state acm.

(** ** Changes of the world, seen by the diff log *)

(** The diff log observes the world of its scene: every notification of a
    change of [world_] is recorded in [world_diff_] when there is one. *)
Definition notify (ns : Notifications) (s : PlanningScene) : PlanningScene :=
  set_world_diff_ ((fun d => foldl WorldDiff_notify d ns) <$> world_diff_ s) s.

Definition removeObject (object_id : string) (s : PlanningScene) : bool * PlanningScene :=
  let '(found, w, ns) := World_removeObject object_id (world_ s) in
  (found, notify ns (set_world_ w s)).

Definition addToObject (object_id : string) (pose : Isometry3d) (shapes : list Shape)
    (shape_poses : list Isometry3d) (s : PlanningScene) : PlanningScene :=
  let '(w, ns) := World_addToObject object_id pose shapes shape_poses (world_ s) in
  notify ns (set_world_ w s).

Definition addToObject1 (object_id : string) (shape : Shape) (shape_pose : Isometry3d)
    (s : PlanningScene) : PlanningScene :=
  let '(w, ns) := World_addToObject1 object_id shape shape_pose (world_ s) in
  notify ns (set_world_ w s).

Definition setObjectPose (object_id : string) (pose : Isometry3d) (s : PlanningScene)
  : PlanningScene :=
  let '(w, ns) := World_setObjectPose object_id pose (world_ s) in
  notify ns (set_world_ w s).

Definition moveShapesInObject (object_id : string) (shape_poses : list Isometry3d)
    (s : PlanningScene) : bool * PlanningScene :=
  let '(ok, w, ns) := World_moveShapesInObject object_id shape_poses (world_ s) in
  (ok, notify ns (set_world_ w s)).

Definition setSubframesOfObject (object_id : string) (subframes : gmap string Isometry3d)
    (s : PlanningScene) : bool * PlanningScene :=
  let '(ok, w) := World_setSubframesOfObject object_id subframes (world_ s) in
  (ok, set_world_ w s).

(** ** Frames *)

(** Modelled from the spec: [Transforms::canTransform] and
    [Transforms::getTransform] on the table of fixed frames; an unknown
    frame gives the identity. *)
Definition Transforms_canTransform (t : gmap string Isometry3d) (from_frame : string) : bool :=
  if bool_decide (from_frame = ""%string) then false
  else bool_decide (is_Some (t !! from_frame)).

Definition Transforms_getTransform (t : gmap string Isometry3d) (from_frame : string)
  : Isometry3d :=
  default Identity (t !! from_frame).

(** [getFrameTransform(state, frame_id) const]; a leading slash is dropped
    and the look-up starts again on the current state of the scene. *)
Fixpoint getFrameTransform_state (s : PlanningScene) (state : RobotState)
    (frame_id : string) : Isometry3d :=
  let resolve :=
    match state_getFrameTransform state frame_id with
    | Some t1 => t1
    | None =>
        match world_getTransform (getWorld s) frame_id with
        | Some t2 => t2
        | None => Transforms_getTransform (getTransforms s) frame_id
        end
    end in
  match frame_id with
  | String c rest =>
      if bool_decide (c = "/"%char)
      then getFrameTransform_state s (getCurrentState s) rest
      else resolve
  | EmptyString => resolve
  end.

(** [getFrameTransform(frame_id) const] *)
Definition getFrameTransform_const (s : PlanningScene) (frame_id : string) : Isometry3d :=
  getFrameTransform_state s (getCurrentState s) frame_id.

(** [getFrameTransform(frame_id)]: the robot state is materialized and
    updated first when its link transforms are dirty. *)
Definition getFrameTransform (frame_id : string) (s : PlanningScene)
  : Isometry3d * PlanningScene :=
  if kin_dirtyLinkTransforms (kin (getCurrentState s))
  then
    let '(rs, s1) := getCurrentStateNonConst s in
    (getFrameTransform_state s1 rs frame_id, s1)
  else (getFrameTransform_state s (getCurrentState s) frame_id, s).

(** [knowsFrameTransform(state, frame_id) const] *)
Fixpoint knowsFrameTransform_state (s : PlanningScene) (state : RobotState)
    (frame_id : string) : bool :=
  let resolve :=
    if bool_decide (is_Some (state_getFrameTransform state frame_id)) then true
    else if bool_decide (is_Some (world_getTransform (getWorld s) frame_id)) then true
    else Transforms_canTransform (getTransforms s) frame_id in
  match frame_id with
  | String c rest =>
      if bool_decide (c = "/"%char)
      then knowsFrameTransform_state s (getCurrentState s) rest
      else resolve
  | EmptyString => resolve
  end.

Definition knowsFrameTransform (s : PlanningScene) (frame_id : string) : bool :=
  knowsFrameTransform_state s (getCurrentState s) frame_id.

(** ** Colors and types of objects *)

Fixpoint hasObjectType (s : PlanningScene) (object_id : string) : bool :=
  match object_types_ s with
  | Some m =>
      if bool_decide (is_Some (m !! object_id)) then true
      else match parent_ s with Some p => hasObjectType p object_id | None => false end
  | None => match parent_ s with Some p => hasObjectType p object_id | None => false end
  end.

Definition ObjectType_EMPTY : ObjectType := mkObjectType "" "".

Fixpoint getObjectType (s : PlanningScene) (object_id : string) : ObjectType :=
  let through_parent :=
    match parent_ s with Some p => getObjectType p object_id | None => ObjectType_EMPTY end in
  match object_types_ s with
  | Some m => match m !! object_id with Some t => t | None => through_parent end
  | None => through_parent
  end.

Definition setObjectType (object_id : string) (t : ObjectType) (s : PlanningScene)
  : PlanningScene :=
  set_object_types_ (Some (<[object_id := t]> (default ∅ (object_types_ s)))) s.

Definition removeObjectType (object_id : string) (s : PlanningScene) : PlanningScene :=
  match object_types_ s with
  | Some m => set_object_types_ (Some (delete object_id m)) s
  | None => s
  end.

Fixpoint hasObjectColor (s : PlanningScene) (object_id : string) : bool :=
  match object_colors_ s with
  | Some m =>
      if bool_decide (is_Some (m !! object_id)) then true
      else match parent_ s with Some p => hasObjectColor p object_id | None => false end
  | None => match parent_ s with Some p => hasObjectColor p object_id | None => false end
  end.

(** [getObjectColor] gives [None] where the source returns the static
    [EMPTY] color. *)
Fixpoint getObjectColor (s : PlanningScene) (object_id : string) : option ColorRGBA :=
  let through_parent :=
    match parent_ s with Some p => getObjectColor p object_id | None => None end in
  match object_colors_ s with
  | Some m => match m !! object_id with Some c => Some c | None => through_parent end
  | None => through_parent
  end.

Definition getOriginalObjectColor (s : PlanningScene) (object_id : string)
  : option ColorRGBA :=
  match original_object_colors_ s with
  | Some m => m !! object_id
  | None => None
  end.

Definition setObjectColor (object_id : string) (color : ColorRGBA) (s : PlanningScene)
  : PlanningScene :=
  if bool_decide (object_id = ""%string) then s
  else
    let s1 := set_object_colors_ (Some (<[object_id := color]> (default ∅ (object_colors_ s)))) s in
    let s2 := match original_object_colors_ s1 with
              | Some _ => s1
              | None => set_original_object_colors_ (Some ∅) s1
              end in
    match getOriginalObjectColor s2 object_id with
    | Some _ => s2
    | None =>
        set_original_object_colors_
          (Some (<[object_id := color]> (default ∅ (original_object_colors_ s2)))) s2
    end.

Definition removeObjectColor (object_id : string) (s : PlanningScene) : PlanningScene :=
  match object_colors_ s with
  | Some m => set_object_colors_ (Some (delete object_id m)) s
  | None => s
  end.

(** [removeEntry] on the matrix returned by
    [getAllowedCollisionMatrixNonConst]. *)
Definition acm_removeEntry_NonConst (name : string) (s : PlanningScene) : PlanningScene :=
  let '(m, s1) := getAllowedCollisionMatrixNonConst s in
  set_acm_ (Some (acm_removeEntry name m)) s1.

(** ** Collision object messages *)

Definition is_nil {A : Type} (l : list A) : bool :=
  match l with [] => true | _ :: _ => false end.

(** The closure [append] of [shapesAndPosesFromCollisionObjectMessage]; the
    state is the object pose and the shapes and shape poses gathered so far. *)
Definition append (switch_object_pose_and_shape_pose : bool)
    (st : Isometry3d * list Shape * list Isometry3d) (s : option Shape) (pose_msg : Pose)
  : Isometry3d * list Shape * list Isometry3d :=
  match s with
  | None => st
  | Some sh =>
      let '(object_pose, shapes, shape_poses) := st in
      let pose := poseMsgToEigen pose_msg in
      if negb switch_object_pose_and_shape_pose
      then (object_pose, shapes ++ [sh], shape_poses ++ [pose])
      else (pose, shapes ++ [sh], shape_poses ++ [object_pose])
  end.

(** The closure [treat_shape_vectors]: a shape without pose gets the default
    pose message. *)
Definition treat_shape_vectors {A : Type} (constructShapeFromMsg : A -> option Shape)
    (switch : bool) (shape_vector : list A) (shape_poses_vector : list Pose)
    (st : Isometry3d * list Shape * list Isometry3d)
  : Isometry3d * list Shape * list Isometry3d :=
  if (length shape_poses_vector <? length shape_vector)%nat
  then
    foldl (fun st ish =>
             if (length shape_poses_vector <=? ish.1)%nat
             then append switch st (constructShapeFromMsg ish.2) Pose_default
             else append switch st (constructShapeFromMsg ish.2)
                    (default Pose_default (shape_poses_vector !! ish.1)))
          st (imap pair shape_vector)
  else
    foldl (fun st ish =>
             append switch st (constructShapeFromMsg ish.2)
               (default Pose_default (shape_poses_vector !! ish.1)))
          st (imap pair shape_vector).

(** [shapesAndPosesFromCollisionObjectMessage]: [None] is the [false]
    return, otherwise the object pose, the shapes and the shape poses. *)
Definition shapesAndPosesFromCollisionObjectMessage (object : CollisionObject)
  : option (Isometry3d * list Shape * list Isometry3d) :=
  if (length (primitives object) <? length (primitive_poses object))%nat then None
  else if (length (meshes object) <? length (mesh_poses object))%nat then None
  else if (length (planes object) <? length (plane_poses object))%nat then None
  else
    let num_shapes :=
      (length (primitives object) + length (meshes object) + length (planes object))%nat in
    let switch_object_pose_and_shape_pose :=
      (num_shapes =? 1)%nat && isEmpty (pose object) in
    let object_pose :=
      if switch_object_pose_and_shape_pose then Identity else poseMsgToEigen (pose object) in
    let st0 : Isometry3d * list Shape * list Isometry3d := (object_pose, [], []) in
    let st1 := treat_shape_vectors constructShapeFromMsg_primitive
                 switch_object_pose_and_shape_pose (primitives object) (primitive_poses object) st0 in
    let st2 := treat_shape_vectors constructShapeFromMsg_mesh
                 switch_object_pose_and_shape_pose (meshes object) (mesh_poses object) st1 in
    let st3 := treat_shape_vectors constructShapeFromMsg_plane
                 switch_object_pose_and_shape_pose (planes object) (plane_poses object) st2 in
    Some st3.

(** The subframes of a message: [subframes[subframe_names[i]] =
    subframe_poses[i]] for every pose, later entries overwriting earlier
    ones.  The source reads [subframe_names[i]] unchecked, so a message
    with more subframe poses than names has no defined result there; the
    empty string stands for the missing name here, and what is stated of
    the subframes of a message is stated for messages with a name for every
    pose. *)
Definition subframes_of_message (object : CollisionObject) : gmap string Isometry3d :=
  foldl (fun m ip => <[default ""%string (subframe_names object !! ip.1) :=
                         poseMsgToEigen ip.2]> m)
        ∅ (imap pair (subframe_poses object)).

(** [processCollisionObjectAdd] *)
Definition processCollisionObjectAdd (object : CollisionObject) (s : PlanningScene)
  : bool * PlanningScene :=
  if negb (knowsFrameTransform s (header_frame_id object)) then (false, s)
  else if is_nil (primitives object) && is_nil (meshes object) && is_nil (planes object)
  then (false, s)
  else
    let s1 :=
      if (operation object =? ADD)%Z && World_hasObject (id object) (world_ s)
      then (removeObject (id object) s).2
      else s in
    let '(world_to_object_header_transform, s2) :=
      getFrameTransform (header_frame_id object) s1 in
    match shapesAndPosesFromCollisionObjectMessage object with
    | None => (false, s2)
    | Some (header_to_pose_transform, shapes, shape_poses) =>
        let object_frame_transform :=
          iso_mul world_to_object_header_transform header_to_pose_transform in
        let s3 := addToObject (id object) object_frame_transform shapes shape_poses s2 in
        let s4 :=
          if negb (bool_decide (key (type object) = ""%string))
             || negb (bool_decide (db (type object) = ""%string))
          then setObjectType (id object) (type object) s3
          else s3 in
        let subframes := subframes_of_message object in
        (true, (setSubframesOfObject (id object) subframes s4).2)
    end.

(** [removeAllCollisionObjects] *)
Definition removeAllCollisionObjects (s : PlanningScene) : PlanningScene :=
  foldl (fun s object_id =>
           if negb (bool_decide (object_id = OCTOMAP_NS))
           then
             acm_removeEntry_NonConst object_id
               (removeObjectType object_id
                  (removeObjectColor object_id (removeObject object_id s).2))
           else s)
        s (World_getObjectIds (world_ s)).

(** [processCollisionObjectRemove] *)
Definition processCollisionObjectRemove (object : CollisionObject) (s : PlanningScene)
  : bool * PlanningScene :=
  if bool_decide (id object = ""%string) then (true, removeAllCollisionObjects s)
  else
    let '(found, s1) := removeObject (id object) s in
    if negb found then (false, s1)
    else
      (true,
       acm_removeEntry_NonConst (id object)
         (removeObjectType (id object) (removeObjectColor (id object) s1))).

(** [processCollisionObjectMove] *)
Definition processCollisionObjectMove (object : CollisionObject) (s : PlanningScene)
  : bool * PlanningScene :=
  if World_hasObject (id object) (world_ s) then
    let '(world_to_object_header_transform, s1) :=
      getFrameTransform (header_frame_id object) s in
    let header_to_pose_transform := poseMsgToEigen (pose object) in
    let object_frame_transform :=
      iso_mul world_to_object_header_transform header_to_pose_transform in
    let s2 := setObjectPose (id object) object_frame_transform s1 in
    if negb (is_nil (primitive_poses object)) || negb (is_nil (mesh_poses object))
       || negb (is_nil (plane_poses object))
    then
      let world_object := World_getObject (id object) (world_ s2) in
      let shape_size :=
        (length (primitive_poses object) + length (mesh_poses object)
         + length (plane_poses object))%nat in
      if negb (shape_size =? length (from_option shape_poses_ [] world_object))%nat
      then (false, s2)
      else
        let shape_poses :=
          (poseMsgToEigen <$> primitive_poses object)
          ++ (poseMsgToEigen <$> mesh_poses object)
          ++ (poseMsgToEigen <$> plane_poses object) in
        let '(moved, s3) := moveShapesInObject (id object) shape_poses s2 in
        if negb moved then (false, s3) else (true, s3)
    else (true, s2)
  else (false, s).

(** [processCollisionObjectMsg] *)
Definition processCollisionObjectMsg (object : CollisionObject) (s : PlanningScene)
  : bool * PlanningScene :=
  if bool_decide (id object = OCTOMAP_NS) then (false, s)
  else if (operation object =? ADD)%Z || (operation object =? APPEND)%Z
  then processCollisionObjectAdd object s
  else if (operation object =? REMOVE)%Z then processCollisionObjectRemove object s
  else if (operation object =? MOVE)%Z then processCollisionObjectMove object s
  else (false, s).

(** ** Attached collision object messages *)

(** [robot_state_.value()], once the robot state is held locally. *)
Definition robot_state_value (s : PlanningScene) : RobotState := getCurrentState s.

(** A change of [robot_state_.value()] in place. *)
Definition with_robot_state (f : RobotState -> RobotState) (s : PlanningScene)
  : PlanningScene :=
  set_robot_state_ (Some (f (robot_state_value s))) s.

(** The branch for [ADD] and [APPEND] once the link model is found. *)
Definition attach (msg : AttachedCollisionObject) (s : PlanningScene)
  : bool * PlanningScene :=
  let obj_in_world := World_getObject (id (object msg)) (world_ s) in
  (* STEP 1: the pose in the link, the shapes, their poses and the subframes *)
  let step1 : option (Isometry3d * list Shape * list Isometry3d * gmap string Isometry3d)
              * PlanningScene :=
    if (operation (object msg) =? ADD)%Z && is_nil (primitives (object msg))
       && is_nil (meshes (object msg)) && is_nil (planes (object msg))
    then
      match obj_in_world with
      | Some o =>
          (Some (iso_mul
                   (iso_inverse (getGlobalLinkTransform (robot_state_value s) (link_name msg)))
                   (pose_ o),
                 shapes_ o, shape_poses_ o, subframe_poses_ o), s)
      | None => (None, s)
      end
    else
      match shapesAndPosesFromCollisionObjectMessage (object msg) with
      | None => (None, s)
      | Some (header_frame_to_object_pose, shapes, shape_poses) =>
          let '(world_to_header_frame, s1) :=
            getFrameTransform (header_frame_id (object msg)) s in
          let link_to_header_frame :=
            iso_mul
              (iso_inverse (getGlobalLinkTransform (robot_state_value s1) (link_name msg)))
              world_to_header_frame in
          (Some (iso_mul link_to_header_frame header_frame_to_object_pose,
                 shapes, shape_poses, subframes_of_message (object msg)), s1)
      end in
  match step1 with
  | (None, s1) => (false, s1)
  | (Some (object_pose_in_link, shapes, shape_poses, subframe_poses), s1) =>
      if is_nil shapes then (false, s1)
      else
        let s2 :=
          if negb (bool_decide (db (type (object msg)) = ""%string))
             || negb (bool_decide (key (type (object msg)) = ""%string))
          then setObjectType (id (object msg)) (type (object msg)) s1
          else s1 in
        (* STEP 2: remove the object from the world (if it existed) *)
        let s3 :=
          match obj_in_world with
          | Some _ => (removeObject (id (object msg)) s2).2
          | None => s2
          end in
        (* STEP 3: attach the object to the robot *)
        if (operation (object msg) =? ADD)%Z
           || negb (hasAttachedBody (robot_state_value s3) (id (object msg)))
        then
          (true,
           with_robot_state
             (fun rs =>
                attachBody (id (object msg))
                  (mkAttachedBody object_pose_in_link shapes shape_poses
                     (list_to_set (touch_links msg)) (link_name msg)
                     (detach_posture msg) subframe_poses)
                  (clearAttachedBody (id (object msg)) rs).2)
             s3)
        else
          match getAttachedBody (robot_state_value s3) (id (object msg)) with
          | None => (false, s3)
          | Some ab =>
              let object_pose_in_link :=
                if isEmpty (pose (object msg)) then ab_pose ab else object_pose_in_link in
              let shapes := shapes ++ ab_shapes ab in
              let shape_poses := shape_poses ++ ab_shape_poses ab in
              let subframe_poses := subframe_poses ∪ ab_subframes ab in
              let detach_posture :=
                if is_nil (joint_names (detach_posture msg))
                then ab_detach_posture ab else detach_posture msg in
              let touch_links := ab_touch_links ab ∪ list_to_set (touch_links msg) in
              (true,
               with_robot_state
                 (fun rs =>
                    attachBody (id (object msg))
                      (mkAttachedBody object_pose_in_link shapes shape_poses touch_links
                         (link_name msg) detach_posture subframe_poses)
                      (clearAttachedBody (id (object msg)) rs).2)
                 s3)
          end
  end.

(** STEP 1 of the branch for [REMOVE]: the attached bodies the message
    selects; [None] is the early [return false] on a link mismatch. *)
Definition detach_select (msg : AttachedCollisionObject) (s : PlanningScene)
  : option (list (string * AttachedBody)) :=
  if bool_decide (id (object msg) = ""%string) then
    if negb (bool_decide (link_name msg = ""%string))
       && hasLinkModel (getRobotModel s) (link_name msg)
    then Some (getAttachedBodiesOfLink (robot_state_value s) (link_name msg))
    else Some (getAttachedBodies (robot_state_value s))
  else
    match getAttachedBody (robot_state_value s) (id (object msg)) with
    | Some body =>
        if negb (bool_decide (link_name msg = ""%string))
           && negb (bool_decide (ab_link_name body = link_name msg))
        then None
        else Some [(id (object msg), body)]
    | None => Some []
    end.

(** One round of the loop of STEP 2+3 of the branch for [REMOVE]. *)
Definition detach_body (s : PlanningScene) (nb : string * AttachedBody) : PlanningScene :=
  let name := nb.1 in
  let attached_body := nb.2 in
  let s1 :=
    if World_hasObject name (world_ s) then s
    else
      let pose := getGlobalPose (robot_state_value s) attached_body in
      let s' := addToObject name pose (ab_shapes attached_body)
                  (ab_shape_poses attached_body) s in
      let s'' := (setSubframesOfObject name (ab_subframes attached_body) s').2 in
      match getOriginalObjectColor s'' name with
      | Some original_object_color => setObjectColor name original_object_color s''
      | None => s''
      end in
  with_robot_state (fun rs => (clearAttachedBody name rs).2) s1.

(** The branch for [REMOVE]. *)
Definition detach (msg : AttachedCollisionObject) (s : PlanningScene)
  : bool * PlanningScene :=
  match detach_select msg s with
  | None => (false, s)
  | Some attached_bodies =>
      let s1 := foldl detach_body s attached_bodies in
      if negb (is_nil attached_bodies) || bool_decide (id (object msg) = ""%string)
      then (true, s1)
      else (false, s1)
  end.

(** [processAttachedCollisionObjectMsg] *)
Definition processAttachedCollisionObjectMsg (msg : AttachedCollisionObject)
    (s : PlanningScene) : bool * PlanningScene :=
  if (operation (object msg) =? ADD)%Z
     && negb (hasLinkModel (getRobotModel s) (link_name msg))
  then (false, s)
  else if bool_decide (id (object msg) = OCTOMAP_NS) then (false, s)
  else
    let rs0 :=
      match robot_state_ s with
      | Some rs => rs
      | None =>
          match parent_ s with
          | Some p => getCurrentState p
          | None => mkRobotState (default_kin (robot_model_ s)) ∅
          end
      end in
    let s0 := set_robot_state_ (Some (RobotState_update rs0)) s in
    if (operation (object msg) =? ADD)%Z || (operation (object msg) =? APPEND)%Z
    then
      if hasLinkModel (getRobotModel s0) (link_name msg)
      then attach msg s0
      else (false, s0)
    else if (operation (object msg) =? REMOVE)%Z then detach msg s0
    else (false, s0).

(** ** Occupancy map messages *)

(** [createOctomap]; the readers of the tree are external. *)
Definition createOctomap (map : Octomap) : OccMapTree :=
  readTree (resolution map) (binary map) (data map).

(** [processOctomapMsg(const Octomap&)] *)
Definition processOctomapMsg (map : Octomap) (s : PlanningScene) : PlanningScene :=
  let s1 := (removeObject OCTOMAP_NS s).2 in
  if is_nil (data map) then s1
  else if negb (bool_decide (octomap_id map = "OcTree"%string)) then s1
  else
    let om := createOctomap map in
    if negb (bool_decide (octomap_frame_id map = ""%string))
    then
      let '(t, s2) := getFrameTransform (octomap_frame_id map) s1 in
      addToObject1 OCTOMAP_NS (OcTree om) t s2
    else addToObject1 OCTOMAP_NS (OcTree om) Identity s1.

(** [processOctomapMsg(const OctomapWithPose&)] *)
Definition processOctomapMsg_WithPose (map : OctomapWithPose) (s : PlanningScene)
  : PlanningScene :=
  let s1 := (removeObject OCTOMAP_NS s).2 in
  if is_nil (data (octomap map)) then s1
  else if negb (bool_decide (octomap_id (octomap map) = "OcTree"%string)) then s1
  else
    let om := createOctomap (octomap map) in
    let '(t, s2) := getFrameTransform (map_frame_id map) s1 in
    let p := iso_mul t (poseMsgToEigen (origin map)) in
    addToObject1 OCTOMAP_NS (OcTree om) p s2.

(** ** Forks and diffs *)

(** [allocateCollisionDetector(allocator, parent_detector)] with a parent
    detector: both environments are copy-constructed from the parent's. *)
Definition allocateCollisionDetector_from (allocator : string)
    (parent_detector : CollisionDetector) : CollisionDetector :=
  mkCollisionDetector allocator
    (env_copy allocator (cenv_ parent_detector))
    (env_copy allocator (cenv_unpadded_ parent_detector)).

(** [PlanningScene(parent)], called by [diff()]: the fork keeps its own copy
    of the world with an empty diff log; every other optional member starts
    empty. *)
Definition diff (parent : PlanningScene) : PlanningScene :=
  mkScene
    (if negb (bool_decide (getName parent = ""%string))
     then (getName parent +:+ "+")%string else ""%string)
    (Some parent)
    (robot_model_ parent)
    (world_ parent)
    (Some ∅)
    None None None None None None
    (copyPadding (collision_detector_ parent)
       (allocateCollisionDetector_from (alloc_ (collision_detector_ parent))
          (collision_detector_ parent)))
    (state_feasibility_ parent)
    (motion_feasibility_ parent).

(** The scene as its own member functions read it during [pushDiffs]: when
    the target of the push is the very scene [parent_] points to, reads
    through the parent see the target as changed so far. *)
Definition self_view (target_is_parent : bool) (self scene : PlanningScene)
  : PlanningScene :=
  if target_is_parent then set_parent_ (Some scene) self else self.

(** The colors and types pushed along with the robot state. *)
Definition push_attached_type_and_color (target_is_parent : bool) (self : PlanningScene)
    (scene : PlanningScene) (nb : string * AttachedBody) : PlanningScene :=
  let name := nb.1 in
  let scene1 :=
    if hasObjectType (self_view target_is_parent self scene) name
    then setObjectType name (getObjectType (self_view target_is_parent self scene) name) scene
    else scene in
  if hasObjectColor (self_view target_is_parent self scene1) name
  then
    match getObjectColor (self_view target_is_parent self scene1) name with
    | Some c => setObjectColor name c scene1
    | None => scene1
    end
  else scene1.

(** One entry of the diff log replayed on the target. *)
Definition push_world_diff_entry (target_is_parent : bool) (self : PlanningScene)
    (scene : PlanningScene) (it : string * N) : PlanningScene :=
  if (it.2 =? DESTROY)%N then
    let scene1 := (removeObject it.1 scene).2 in
    let scene2 := removeObjectColor it.1 scene1 in
    let scene3 := removeObjectType it.1 scene2 in
    if negb (hasAttachedBody (getCurrentState scene3) it.1)
    then acm_removeEntry_NonConst it.1 scene3
    else scene3
  else
    match World_getObject it.1 (world_ self) with
    | None => scene
    | Some obj =>
        let scene1 := (removeObject it.1 scene).2 in
        let scene2 := addToObject it.1 (pose_ obj) (shapes_ obj) (shape_poses_ obj) scene1 in
        let scene3 :=
          if hasObjectColor (self_view target_is_parent self scene2) it.1
          then
            match getObjectColor (self_view target_is_parent self scene2) it.1 with
            | Some c => setObjectColor it.1 c scene2
            | None => scene2
            end
          else scene2 in
        let scene4 :=
          if hasObjectType (self_view target_is_parent self scene3) it.1
          then setObjectType it.1
                 (getObjectType (self_view target_is_parent self scene3) it.1) scene3
          else scene3 in
        (setSubframesOfObject it.1 (subframe_poses_ obj) scene4).2
    end.

(** [pushDiffs(scene)]: the result is the target scene after the push.  The
    entries of the diff log concern pairwise different ids; they are
    replayed in the order of the table. *)
Definition pushDiffs (target_is_parent : bool) (self : PlanningScene)
    (scene : PlanningScene) : PlanningScene :=
  match parent_ self with
  | None => scene
  | Some _ =>
      let scene1 :=
        match scene_transforms_ self with
        | Some t => set_scene_transforms_ (Some t) (getTransformsNonConst scene).2
        | None => scene
        end in
      let scene2 :=
        match robot_state_ self with
        | Some rs =>
            foldl (push_attached_type_and_color target_is_parent self)
              (set_robot_state_ (Some rs) (getCurrentStateNonConst scene1).2)
              (getAttachedBodies rs)
        | None => scene1
        end in
      let scene3 :=
        match acm_ self with
        | Some m => set_acm_ (Some m) (getAllowedCollisionMatrixNonConst scene2).2
        | None => scene2
        end in
      let active_cenv :=
        setLinkScale (link_scale (cenv_ (collision_detector_ self)))
          (setLinkPadding (link_padding (cenv_ (collision_detector_ self)))
             (cenv_ (collision_detector_ scene3))) in
      let scene4 :=
        set_collision_detector_
          (mkCollisionDetector (alloc_ (collision_detector_ scene3)) active_cenv
             (cenv_unpadded_ (collision_detector_ scene3)))
          scene3 in
      match world_diff_ self with
      | Some d => foldl (push_world_diff_entry target_is_parent self) scene4 (map_to_list d)
      | None => scene4
      end
  end.

(** ** Loading geometry from text *)

(** [utilities::readPoseFromText]: the stream has failed exactly when one
    of the numbers is missing. *)
Definition readPoseFromText (i : istream) : option Isometry3d * istream :=
  let '(x, i1) := extract_num num_get_double i in
  let '(y, i2) := extract_num num_get_double i1 in
  let '(z, i3) := extract_num num_get_double i2 in
  match x, y, z with
  | Some x, Some y, Some z =>
      let '(rx, i4) := extract_num num_get_double i3 in
      let '(ry, i5) := extract_num num_get_double i4 in
      let '(rz, i6) := extract_num num_get_double i5 in
      let '(rw, i7) := extract_num num_get_double i6 in
      match rx, ry, rz, rw with
      | Some rx, Some ry, Some rz, Some rw => (Some (pose_of_text x y z rw rx ry rz), i7)
      | _, _, _, _ => (None, i7)
      end
  | _, _, _ => (None, i3)
  end.

(** [in >> r >> g >> b >> a] *)
Definition readColorFromText (i : istream) : option (D * D * D * D) * istream :=
  let '(r, i1) := extract_num num_get_double i in
  let '(g, i2) := extract_num num_get_double i1 in
  let '(b, i3) := extract_num num_get_double i2 in
  let '(a, i4) := extract_num num_get_double i3 in
  match r, g, b, a with
  | Some r, Some g, Some b, Some a => (Some (r, g, b, a), i4)
  | _, _, _, _ => (None, i4)
  end.

(** The call of [shapes::constructShapeFromText] on the stream. *)
Definition call_constructShapeFromText (i : istream) : option Shape * istream :=
  let '(shape, n, f, e) := constructShapeFromText (buf i) in
  (shape, mkIstream (string_drop n (buf i)) f e).

(** The loop over the shapes of one object; the boolean is [false] where
    the source returns [false] from inside the loop. *)
Fixpoint load_shapes (shape_count : nat) (object_id : string) (i : istream)
    (s : PlanningScene) : bool * istream * PlanningScene :=
  match shape_count with
  | O => (true, i, s)
  | S remaining =>
      if good i && negb (eof i) then
        let '(shape, i1) := call_constructShapeFromText i in
        match shape with
        | None => (false, i1, s)
        | Some shape =>
            let '(pose, i2) := readPoseFromText i1 in
            match pose with
            | None => (false, i2, s)
            | Some pose =>
                let '(color, i3) := readColorFromText i2 in
                match color with
                | None => (false, i3, s)
                | Some (r, g, b, a) =>
                    let s1 := addToObject1 object_id shape pose s in
                    let s2 :=
                      if D_positive r || D_positive g || D_positive b || D_positive a
                      then setObjectColor object_id (mkColorRGBA r g b a) s1
                      else s1 in
                    load_shapes remaining object_id i3 s2
                end
            end
        end
      else (true, i, s)
  end.

(** The loop over the subframes of one object. *)
Fixpoint load_subframes (subframe_count : nat) (i : istream)
    (subframes : gmap string Isometry3d) : option (gmap string Isometry3d) * istream :=
  match subframe_count with
  | O => (Some subframes, i)
  | S remaining =>
      if good i && negb (eof i) then
        let '(subframe_name, i1) := extract_string i EmptyString in
        let '(pose, i2) := readPoseFromText i1 in
        match pose with
        | None => (None, i2)
        | Some pose => load_subframes remaining i2 (<[subframe_name := pose]> subframes)
        end
      else (Some subframes, i)
  end.

(** One round of the main loop: it returns, or it has read the record of
    one object and goes on. *)
Inductive LoopStep :=
  | Return (result : bool) (s : PlanningScene)
  | Continue (object_id : string) (i : istream) (s : PlanningScene).

Definition load_step (uses_new_scene_format : bool) (offset : Isometry3d)
    (i : istream) (s : PlanningScene) : LoopStep :=
  let '(marker, i1) := extract_string i EmptyString in
  if negb (good i1) || eof i1 then Return false s
  else if bool_decide (marker = "*"%string) then
    let '(object_id, i2) := getline i1 EmptyString in
    if negb (good i2) || eof i2 then Return false s
    else
      let object_id := trim object_id in
      let '(pose, i3) :=
        if uses_new_scene_format then readPoseFromText i2 else (Some Identity, i2) in
      match pose with
      | None => Return false s
      | Some pose =>
          let pose := iso_mul offset pose in
          let s1 := setObjectPose object_id pose s in
          let '(shape_count, i4) := extract_num num_get_uint i3 in
          let '(ok, i5, s2) := load_shapes (default 0%nat shape_count) object_id i4 s1 in
          if negb ok then Return false s2
          else if uses_new_scene_format then
            let '(subframe_count, i6) := extract_num num_get_uint i5 in
            let '(subframes, i7) := load_subframes (default 0%nat subframe_count) i6 ∅ in
            match subframes with
            | None => Return false s2
            | Some subframes =>
                Continue object_id i7 (setSubframesOfObject object_id subframes s2).2
            end
          else Continue object_id i5 s2
      end
  else if bool_decide (marker = "."%string) then Return true s
  else Return false s.

(** The main loop, [do { ... } while (true)].  Every round that goes on has
    read at least the marker, so [fuel] rounds are enough for a text of
    fewer than [fuel] characters; [None] is the loop cut short. *)
Fixpoint load_loop (fuel : nat) (uses_new_scene_format : bool) (offset : Isometry3d)
    (i : istream) (s : PlanningScene) : option (bool * PlanningScene) :=
  match fuel with
  | O => None
  | S fuel' =>
      match load_step uses_new_scene_format offset i s with
      | Return result s' => Some (result, s')
      | Continue _ i' s' => load_loop fuel' uses_new_scene_format offset i' s'
      end
  end.

(** The loop that looks for the first [*] marker to tell the format. *)
Fixpoint find_marker_line (fuel : nat) (i : istream) (line : string) : string * istream :=
  let '(line1, i1) := getline i line in
  if good i1 && negb (eof i1)
     && (string_is_empty line1
         || negb (bool_decide (String.get 0 line1 = Some "*"%char)))
  then
    match fuel with
    | O => (line1, i1)
    | S fuel' => find_marker_line fuel' i1 line1
    end
  else (line1, i1).

(** The part of [loadGeometryFromStream] before the main loop: the scene
    name, the format and the stream put back after the name. *)
Definition load_header (i : istream) (s : PlanningScene)
  : bool * istream * PlanningScene :=
  let '(name, i1) := getline i (name_ s) in
  let s1 := set_name_ name s in
  let '(pos, i2) := tellg i1 in
  let '(line, i3) := find_marker_line (String.length (buf i2)) i2 EmptyString in
  let '(line, i4) := getline i3 line in
  let line := trim line in
  let uses_new_scene_format := contains_space line in
  (uses_new_scene_format, seekg pos i4, s1).

(** [loadGeometryFromStream(in, offset)] *)
Definition loadGeometryFromStream (i : istream) (offset : Isometry3d) (s : PlanningScene)
  : bool * PlanningScene :=
  if negb (good i) || eof i then (false, s)
  else
    let '(uses_new_scene_format, i1, s1) := load_header i s in
    match load_loop (S (String.length (buf i1))) uses_new_scene_format offset i1 s1 with
    | Some result => result
    | None => (false, s1)
    end.

(** What [loadGeometryFromStream] reads of one object: its id, the pose
    read for it ([Identity] in the old format), the shapes with their poses
    in the order of the text, and the subframes when the record was read to
    its end in the new format. *)
Record ObjectRecord := mkObjectRecord {
  record_id : string;
  record_pose : Isometry3d;
  record_shapes : list (Shape * Isometry3d);
  record_subframes : option (gmap string Isometry3d)
}.

(** The reading of the loop over the shapes of one object, without the
    scene: whether the loop ran to its end, the stream after it and the
    shapes read, the ones before a failure included. *)
Fixpoint read_shapes (shape_count : nat) (i : istream)
  : bool * istream * list (Shape * Isometry3d) :=
  match shape_count with
  | O => (true, i, [])
  | S remaining =>
      if good i && negb (eof i) then
        let '(shape, i1) := call_constructShapeFromText i in
        match shape with
        | None => (false, i1, [])
        | Some shape =>
            let '(pose, i2) := readPoseFromText i1 in
            match pose with
            | None => (false, i2, [])
            | Some pose =>
                let '(color, i3) := readColorFromText i2 in
                match color with
                | None => (false, i3, [])
                | Some _ =>
                    let '(ok, i4, shapes) := read_shapes remaining i3 in
                    (ok, i4, (shape, pose) :: shapes)
                end
            end
        end
      else (true, i, [])
  end.

(** The reading of one round of the main loop, without the scene: the
    round returns, with what it has read of an object by then, or it has
    read the record of one object and goes on. *)
Inductive ReadStep :=
  | ReadReturn (result : bool) (read : option ObjectRecord)
  | ReadContinue (read : ObjectRecord) (i : istream).

Definition read_step (uses_new_scene_format : bool) (i : istream) : ReadStep :=
  let '(marker, i1) := extract_string i EmptyString in
  if negb (good i1) || eof i1 then ReadReturn false None
  else if bool_decide (marker = "*"%string) then
    let '(object_id, i2) := getline i1 EmptyString in
    if negb (good i2) || eof i2 then ReadReturn false None
    else
      let object_id := trim object_id in
      let '(pose, i3) :=
        if uses_new_scene_format then readPoseFromText i2 else (Some Identity, i2) in
      match pose with
      | None => ReadReturn false None
      | Some pose =>
          let '(shape_count, i4) := extract_num num_get_uint i3 in
          let '(ok, i5, shapes) := read_shapes (default 0%nat shape_count) i4 in
          if negb ok then ReadReturn false (Some (mkObjectRecord object_id pose shapes None))
          else if uses_new_scene_format then
            let '(subframe_count, i6) := extract_num num_get_uint i5 in
            let '(subframes, i7) := load_subframes (default 0%nat subframe_count) i6 ∅ in
            match subframes with
            | None => ReadReturn false (Some (mkObjectRecord object_id pose shapes None))
            | Some subframes =>
                ReadContinue (mkObjectRecord object_id pose shapes (Some subframes)) i7
            end
          else ReadContinue (mkObjectRecord object_id pose shapes None) i5
      end
  else if bool_decide (marker = "."%string) then ReadReturn true None
  else ReadReturn false None.

(** What the main loop reads, round by round, up to its return. *)
Fixpoint read_records (fuel : nat) (uses_new_scene_format : bool) (i : istream)
  : list ObjectRecord :=
  match fuel with
  | O => []
  | S fuel' =>
      match read_step uses_new_scene_format i with
      | ReadReturn _ read => option_list read
      | ReadContinue read i' => read :: read_records fuel' uses_new_scene_format i'
      end
  end.

(** The object records [loadGeometryFromStream] reads before it returns,
    the one it was reading when it failed included. *)
Definition loadGeometryFromStream_records (i : istream) (s : PlanningScene)
  : list ObjectRecord :=
  let '(uses_new_scene_format, i1, _) := load_header i s in
  read_records (S (String.length (buf i1))) uses_new_scene_format i1.

(** The calls on the world that the loader makes for one record:
    [setObjectPose], [addToObject] for every shape and, for a record read to
    its end in the new format, [setSubframesOfObject]. *)
Definition World_load_record (offset : Isometry3d) (w : gmap string Object)
    (r : ObjectRecord) : gmap string Object :=
  let w1 := (World_setObjectPose (record_id r) (iso_mul offset (record_pose r)) w).1 in
  let w2 :=
    foldl (fun w sp => (World_addToObject1 (record_id r) sp.1 sp.2 w).1) w1
      (record_shapes r) in
  match record_subframes r with
  | Some subframes => (World_setSubframesOfObject (record_id r) subframes w2).2
  | None => w2
  end.

(** A world holds a record: the id of the record names an object, and the
    shapes of the record with their poses are a run of the shapes and shape
    poses of that object, at the same distance from the end. *)
Definition World_holds (w : gmap string Object) (r : ObjectRecord) : Prop :=
  ∃ o l1 l2 p1 p2,
    w !! record_id r = Some o
    ∧ shapes_ o = l1 ++ (record_shapes r).*1 ++ l2
    ∧ shape_poses_ o = p1 ++ (record_shapes r).*2 ++ p2
    ∧ length l2 = length p2.

(** ** World objects and attached bodies *)

(** No id names a world object and an attached body at once. *)
Definition disjoint (s : PlanningScene) : Prop :=
  ∀ object_id : string,
    ¬ (World_hasObject object_id (world_ s) = true
       ∧ hasAttachedBody (getCurrentState s) object_id = true).

(** The scenes reached from [s0] through the two message entry points. *)
Inductive reachable (s0 : PlanningScene) : PlanningScene -> Prop :=
  | reachable_start : reachable s0 s0
  | reachable_collision_object (s : PlanningScene) (object : CollisionObject) :
      reachable s0 s -> reachable s0 (processCollisionObjectMsg object s).2
  | reachable_attached_object (s : PlanningScene) (msg : AttachedCollisionObject) :
      reachable s0 s -> reachable s0 (processAttachedCollisionObjectMsg msg s).2.

(** ** Known colors and types *)

(** [getKnownObjectColors]: the table of the parent, then every local entry
    written over it. *)
Fixpoint getKnownObjectColors (s : PlanningScene) : gmap string ColorRGBA :=
  let kc := match parent_ s with Some p => getKnownObjectColors p | None => ∅ end in
  match object_colors_ s with
  | Some m => m ∪ kc
  | None => kc
  end.

(** [getKnownObjectTypes] *)
Fixpoint getKnownObjectTypes (s : PlanningScene) : gmap string ObjectType :=
  let kc := match parent_ s with Some p => getKnownObjectTypes p | None => ∅ end in
  match object_types_ s with
  | Some m => m ∪ kc
  | None => kc
  end.

(** [moveit_msgs::msg::ObjectColor] *)
Record ObjectColor := mkObjectColor { oc_id : string; oc_color : ColorRGBA }.

(** [getObjectColorMsgs]: one message for every entry of the known colors. *)
Definition getObjectColorMsgs (s : PlanningScene) : list ObjectColor :=
  (fun ic => mkObjectColor ic.1 ic.2) <$> map_to_list (getKnownObjectColors s).

(** ** Leaving the parent *)

(** [decoupleParent]: every member read through the parent is copied; a
    local color or type wins over the one of the parent. *)
Definition decoupleParent (s : PlanningScene) : PlanningScene :=
  match parent_ s with
  | None => s
  | Some p =>
      mkScene (name_ s) None (robot_model_ s) (world_ s) None
        (Some (match scene_transforms_ s with
               | Some t => t
               | None => getTransforms p
               end))
        (Some (match robot_state_ s with
               | Some rs => rs
               | None => getCurrentState p
               end))
        (Some (match acm_ s with
               | Some m => m
               | None => getAllowedCollisionMatrix p
               end))
        (Some (match object_colors_ s with
               | None => getKnownObjectColors p
               | Some m => m ∪ getKnownObjectColors p
               end))
        (original_object_colors_ s)
        (Some (match object_types_ s with
               | None => getKnownObjectTypes p
               | Some m => m ∪ getKnownObjectTypes p
               end))
        (collision_detector_ s) (state_feasibility_ s) (motion_feasibility_ s)
  end.

(** [clone(scene)] *)
Definition clone (scene : PlanningScene) : PlanningScene :=
  set_name_ (getName scene) (decoupleParent (diff scene)).

(** [clearDiffs]: the world and the detector are taken from the parent
    again and the local members are dropped; the original colors stay. *)
Definition clearDiffs (s : PlanningScene) : PlanningScene :=
  match parent_ s with
  | None => s
  | Some p =>
      mkScene (name_ s) (Some p) (robot_model_ s) (world_ p) (Some ∅)
        None None None None (original_object_colors_ s) None
        (allocateCollisionDetector_from (alloc_ (collision_detector_ p))
           (collision_detector_ p))
        (state_feasibility_ s) (motion_feasibility_ s)
  end.

(** ** World messages *)

(** [moveit_msgs::msg::PlanningSceneWorld] *)
Record PlanningSceneWorld := mkPlanningSceneWorld {
  collision_objects : list CollisionObject;
  world_octomap : OctomapWithPose
}.

(** [processPlanningSceneWorldMsg]: [result &= ...] over the collision
    objects, then the occupancy map. *)
Definition processPlanningSceneWorldMsg (world : PlanningSceneWorld) (s : PlanningScene)
  : bool * PlanningScene :=
  let '(result, s1) :=
    foldl (fun rs collision_object =>
             let '(ok, s') := processCollisionObjectMsg collision_object rs.2 in
             (rs.1 && ok, s'))
          (true, s) (collision_objects world) in
  (result, processOctomapMsg_WithPose (world_octomap world) s1).

(** ** Validity of states and paths *)

(** The collaborators of the validity checks: the type of the constraint
    messages, the call of a stored feasibility predicate, and the two
    questions the scene asks a set of kinematic constraints. *)
Class Checks := {
  (** [moveit_msgs::msg::Constraints] *)
  Constraints : Type;
  (** [state_feasibility_(state, verbose)] *)
  call_state_feasibility : StateFeasibilityFn -> RobotState -> bool -> bool;
  (** [KinematicConstraintSet::empty] and [decide(state, verbose).satisfied],
      for the set built for a model from the messages added so far *)
  kcs_empty : RobotModel -> list (Constraints * gmap string Isometry3d) -> bool;
  kcs_decide :
    RobotModel -> list (Constraints * gmap string Isometry3d) -> RobotState -> bool -> bool
}.

Context {chk : Checks}.

(** Modelled from the spec: [kinematic_constraints::KinematicConstraintSet]
    is declared outside these sources; a set is built for a robot model and
    collects the constraint messages added to it, each with the table of
    fixed frames it was resolved against. *)
Record KinematicConstraintSet := mkKinematicConstraintSet {
  kcs_model : RobotModel;
  kcs_added : list (Constraints * gmap string Isometry3d)
}.

(** Modelled from the spec: [add(constr, transforms)], [empty()] and
    [decide(state, verbose).satisfied] of the set. *)
Definition KinematicConstraintSet_add (constr : Constraints) (tf : gmap string Isometry3d)
    (ks : KinematicConstraintSet) : KinematicConstraintSet :=
  mkKinematicConstraintSet (kcs_model ks) (kcs_added ks ++ [(constr, tf)]).

Definition KinematicConstraintSet_empty (ks : KinematicConstraintSet) : bool :=
  kcs_empty (kcs_model ks) (kcs_added ks).

Definition KinematicConstraintSet_decide (ks : KinematicConstraintSet) (state : RobotState)
    (verbose : bool) : bool :=
  kcs_decide (kcs_model ks) (kcs_added ks) state verbose.

(** Modelled from the spec: a default-constructed [CollisionRequest] asks
    for a padded environment check and an unpadded self check, without
    contacts; a default-constructed [CollisionResult] reports no collision. *)
Definition CollisionRequest_default : CollisionRequest :=
  mkCollisionRequest "" true false false 1 1 false.

Definition CollisionResult_default : CollisionResult := mkCollisionResult false ∅.

(** [isStateColliding(const RobotState&, group, verbose) const] *)
Definition isStateColliding (s : PlanningScene) (state : RobotState) (group : string)
    (verbose : bool) : bool :=
  let req :=
    mkCollisionRequest group (pad_environment_collisions CollisionRequest_default)
      (pad_self_collisions CollisionRequest_default) (contacts CollisionRequest_default)
      (max_contacts CollisionRequest_default)
      (max_contacts_per_pair CollisionRequest_default) verbose in
  collision (checkCollision_state s req CollisionResult_default state).1.

(** [isStateFeasible(const RobotState&, verbose) const] *)
Definition isStateFeasible (s : PlanningScene) (state : RobotState) (verbose : bool) : bool :=
  match state_feasibility_ s with
  | Some f => call_state_feasibility f state verbose
  | None => true
  end.

(** [isStateConstrained(const RobotState&, const KinematicConstraintSet&,
    verbose) const] *)
Definition isStateConstrained_set (s : PlanningScene) (state : RobotState)
    (constr : KinematicConstraintSet) (verbose : bool) : bool :=
  KinematicConstraintSet_decide constr state verbose.

(** [isStateConstrained(const RobotState&, const Constraints&, verbose)
    const] *)
Definition isStateConstrained (s : PlanningScene) (state : RobotState)
    (constr : Constraints) (verbose : bool) : bool :=
  let ks :=
    KinematicConstraintSet_add constr (getTransforms s)
      (mkKinematicConstraintSet (getRobotModel s) []) in
  if KinematicConstraintSet_empty ks then true
  else isStateConstrained_set s state ks verbose.

(** [isStateValid(const RobotState&, const Constraints&, group, verbose)
    const] *)
Definition isStateValid (s : PlanningScene) (state : RobotState) (constr : Constraints)
    (group : string) (verbose : bool) : bool :=
  if isStateColliding s state group verbose then false
  else if negb (isStateFeasible s state verbose) then false
  else isStateConstrained s state constr verbose.

(** One round of the loop of [isPathValid] at way point [i] of [n_wp]; the
    state of the loop is [result] and the buffer behind [invalid_index]
    ([None] for a null pointer).  [None] is the [return false] from inside
    the loop. *)
Definition isPathValid_step (s : PlanningScene) (ks_p : KinematicConstraintSet)
    (goal_constraints : list Constraints) (group : string) (verbose : bool)
    (n_wp i : nat) (st : RobotState) (acc : bool * option (list nat))
  : option (bool * option (list nat)) :=
  let '(result, invalid_index) := acc in
  let this_state_valid := true in
  let this_state_valid :=
    if isStateColliding s st group verbose then false else this_state_valid in
  let this_state_valid :=
    if negb (isStateFeasible s st verbose) then false else this_state_valid in
  let this_state_valid :=
    if negb (KinematicConstraintSet_empty ks_p)
       && negb (KinematicConstraintSet_decide ks_p st verbose)
    then false else this_state_valid in
  let after_state : option (bool * option (list nat)) :=
    if negb this_state_valid then
      match invalid_index with
      | Some index => Some (false, Some (index ++ [i]))
      | None => None
      end
    else Some (result, invalid_index) in
  match after_state with
  | None => None
  | Some (result, invalid_index) =>
      (* check goal for last state *)
      if (i + 1 =? n_wp)%nat && negb (is_nil goal_constraints) then
        let found :=
          existsb (fun goal_constraint => isStateConstrained s st goal_constraint false)
            goal_constraints in
        if negb found
        then Some (false, (fun index => index ++ [i]) <$> invalid_index)
        else Some (result, invalid_index)
      else Some (result, invalid_index)
  end.

(** The loop over the way points from index [i] on. *)
Fixpoint isPathValid_loop (s : PlanningScene) (ks_p : KinematicConstraintSet)
    (goal_constraints : list Constraints) (group : string) (verbose : bool)
    (n_wp i : nat) (way_points : list RobotState) (acc : bool * option (list nat))
  : bool * option (list nat) :=
  match way_points with
  | [] => acc
  | st :: rest =>
      match isPathValid_step s ks_p goal_constraints group verbose n_wp i st acc with
      | None => (false, None)
      | Some acc' =>
          isPathValid_loop s ks_p goal_constraints group verbose n_wp (S i) rest acc'
      end
  end.

(** Modelled from the spec: a [RobotTrajectory] is read as the list of its
    way points.

    [isPathValid(const RobotTrajectory&, path_constraints, goal_constraints,
    group, verbose, invalid_index) const]: the result and the buffer behind
    [invalid_index] as the call leaves it. *)
Definition isPathValid (s : PlanningScene) (trajectory : list RobotState)
    (path_constraints : Constraints) (goal_constraints : list Constraints)
    (group : string) (verbose : bool) (invalid_index : option (list nat))
  : bool * option (list nat) :=
  let invalid_index := (fun _ => []) <$> invalid_index in
  let ks_p :=
    KinematicConstraintSet_add path_constraints (getTransforms s)
      (mkKinematicConstraintSet (getRobotModel s) []) in
  isPathValid_loop s ks_p goal_constraints group verbose (length trajectory) 0 trajectory
    (true, invalid_index).


(** ** Collision object messages of the world *)

(** [shapes::ShapeMsg], the variant of the three shape messages. *)
Inductive ShapeMsg :=
  | ShapeMsg_primitive (shape_msg : SolidPrimitive)
  | ShapeMsg_mesh (shape_msg : Mesh)
  | ShapeMsg_plane (shape_msg : Plane).

(** The writers of messages: [tf2::toMsg] on a pose and
    [shapes::constructMsgFromShape]. *)
Class Encoders := {
  toMsg : Isometry3d -> Pose;
  constructMsgFromShape : Shape -> option ShapeMsg
}.

Context {enc : Encoders}.

(** A default-constructed [CollisionObject] message. *)
Definition CollisionObject_default : CollisionObject :=
  mkCollisionObject "" Pose_default "" ObjectType_EMPTY [] [] [] [] [] [] [] [] 0.

(** Modelled from the spec: [getPlanningFrame] is an inline member of the
    class declaration, the target frame of the table of fixed frames, which
    [SceneTransforms] sets to the model frame. *)
Definition getPlanningFrame (s : PlanningScene) : string :=
  model_frame (getRobotModel s).

(** [ShapeVisitorAddToCollisionObject]: the shape message and the pose set
    before are pushed onto the two vectors of their kind. *)
Definition ShapeVisitorAddToCollisionObject (obj : CollisionObject) (pose_msg : Pose)
    (sm : ShapeMsg) : CollisionObject :=
  match sm with
  | ShapeMsg_plane shape_msg =>
      mkCollisionObject (header_frame_id obj) (pose obj) (id obj) (type obj)
        (primitives obj) (primitive_poses obj) (meshes obj) (mesh_poses obj)
        (planes obj ++ [shape_msg]) (plane_poses obj ++ [pose_msg])
        (subframe_names obj) (subframe_poses obj) (operation obj)
  | ShapeMsg_mesh shape_msg =>
      mkCollisionObject (header_frame_id obj) (pose obj) (id obj) (type obj)
        (primitives obj) (primitive_poses obj)
        (meshes obj ++ [shape_msg]) (mesh_poses obj ++ [pose_msg])
        (planes obj) (plane_poses obj)
        (subframe_names obj) (subframe_poses obj) (operation obj)
  | ShapeMsg_primitive shape_msg =>
      mkCollisionObject (header_frame_id obj) (pose obj) (id obj) (type obj)
        (primitives obj ++ [shape_msg]) (primitive_poses obj ++ [pose_msg])
        (meshes obj) (mesh_poses obj) (planes obj) (plane_poses obj)
        (subframe_names obj) (subframe_poses obj) (operation obj)
  end.

(** [getCollisionObjectMsg(collision_obj, ns) const]: the message passed in
    is written to in place.  (The source reads [shape_poses_[j]] unchecked;
    a missing pose is read as the identity here.) *)
Definition getCollisionObjectMsg (s : PlanningScene) (collision_obj : CollisionObject)
    (ns : string) : bool * CollisionObject :=
  match World_getObject ns (world_ s) with
  | None => (false, collision_obj)
  | Some obj =>
      let co1 :=
        mkCollisionObject (getPlanningFrame s) (toMsg (pose_ obj)) ns (type collision_obj)
          (primitives collision_obj) (primitive_poses collision_obj)
          (meshes collision_obj) (mesh_poses collision_obj)
          (planes collision_obj) (plane_poses collision_obj)
          (subframe_names collision_obj) (subframe_poses collision_obj) ADD in
      let co2 :=
        foldl (fun co jshape =>
                 match constructMsgFromShape jshape.2 with
                 | Some sm =>
                     let p := toMsg (default Identity (shape_poses_ obj !! jshape.1)) in
                     ShapeVisitorAddToCollisionObject co p sm
                 | None => co
                 end)
              co1 (imap pair (shapes_ obj)) in
      let co3 :=
        if negb (is_nil (primitives co2)) || negb (is_nil (meshes co2))
           || negb (is_nil (planes co2))
        then
          if hasObjectType s (id co2)
          then
            mkCollisionObject (header_frame_id co2) (pose co2) (id co2)
              (getObjectType s (id co2))
              (primitives co2) (primitive_poses co2) (meshes co2) (mesh_poses co2)
              (planes co2) (plane_poses co2) (subframe_names co2) (subframe_poses co2)
              (operation co2)
          else co2
        else co2 in
      let co4 :=
        foldl (fun co frame_pair =>
                 mkCollisionObject (header_frame_id co) (pose co) (id co) (type co)
                   (primitives co) (primitive_poses co) (meshes co) (mesh_poses co)
                   (planes co) (plane_poses co)
                   (subframe_names co ++ [frame_pair.1])
                   (subframe_poses co ++ [toMsg frame_pair.2])
                   (operation co))
              co3 (map_to_list (subframe_poses_ obj)) in
      (true, co4)
  end.

(** [getCollisionObjectMsgs]: one message for every object but the
    occupancy map. *)
Definition getCollisionObjectMsgs (s : PlanningScene) : list CollisionObject :=
  foldl (fun collision_objs object_id =>
           if negb (bool_decide (object_id = OCTOMAP_NS))
           then collision_objs
                  ++ [(getCollisionObjectMsg s CollisionObject_default object_id).2]
           else collision_objs)
        [] (World_getObjectIds (world_ s)).

End Model.

(** ** A concrete instance: poses on a line

    The collaborators are instantiated with small computable stand-ins: a
    pose is an integer offset along one axis (product is addition), a shape
    is its name, the kinematic state is the offset of all links, and the
    collision back end reports a collision exactly when the environment it
    is asked has some link padding.  The scenes and messages below are the
    inputs at which the properties are evaluated. *)
Module Concrete.

Fixpoint digits_go (s : string) (acc : nat) (n : nat) : nat * nat :=
  match s with
  | String c rest =>
      match Ascii.is_nat c with
      | Some d => digits_go rest (10 * acc + d) (S n)
      | None => (acc, n)
      end
  | EmptyString => (acc, n)
  end.

Definition parse_uint (s : string) : option nat * nat :=
  let '(v, n) := digits_go s 0 0 in
  if (n =? 0)%nat then (None, 0%nat) else (Some v, n).

Definition parse_int (s : string) : option Z * nat :=
  match s with
  | String c rest =>
      if bool_decide (c = "-"%char) then
        let '(v, n) := digits_go rest 0 0 in
        if (n =? 0)%nat then (None, 0%nat) else (Some (- Z.of_nat v)%Z, S n)
      else
        let '(v, n) := digits_go s 0 0 in
        if (n =? 0)%nat then (None, 0%nat) else (Some (Z.of_nat v), n)
  | EmptyString => (None, 0%nat)
  end.

(** A shape in text is one word, [box] or [sphere]. *)
Definition parse_shape (s : string) : option string * nat * bool * bool :=
  let '(tok, rest) := take_token (skipws s) in
  let n := (String.length s - String.length rest)%nat in
  if bool_decide (tok = "box"%string) || bool_decide (tok = "sphere"%string)
  then (Some tok, n, false, string_is_empty rest)
  else (None, n, true, string_is_empty rest).

Definition ZExternal : External := {|
  D := Z;
  Isometry3d := Z;
  Identity := 0%Z;
  iso_mul := Z.add;
  iso_inverse := Z.opp;
  Pose := Z;
  Pose_default := 0%Z;
  poseMsgToEigen := fun p => p;
  isEmpty := fun p => (p =? 0)%Z;
  Shape := string;
  SolidPrimitive := string;
  Mesh := string;
  Plane := string;
  constructShapeFromMsg_primitive := fun m => Some m;
  constructShapeFromMsg_mesh := fun m => Some m;
  constructShapeFromMsg_plane := fun m => Some m;
  OccMapTree := list Z;
  readTree := fun _ _ d => d;
  OcTree := fun _ => "octree"%string;
  KinState := Z;
  kin_update := fun k => k;
  kin_dirtyCollisionBodyTransforms := fun _ => false;
  kin_updateCollisionBodyTransforms := fun k => k;
  kin_dirtyLinkTransforms := fun _ => false;
  kin_getGlobalLinkTransform := fun k _ => k;
  AllowedCollisionMatrix := gset string;
  acm_removeEntry := fun name m => m ∖ {[name]};
  Contact := unit;
  StateFeasibilityFn := unit;
  MotionFeasibilityFn := unit;
  num_get_double := parse_int;
  num_get_uint := parse_uint;
  constructShapeFromText := parse_shape;
  pose_of_text := fun x _ _ _ _ _ _ => x;
  D_positive := fun v => (0 <? v)%Z
|}.

#[local] Existing Instance ZExternal.

(** The frames of the robot state are the model frame [world] and the link
    [gripper]; the frames of the world are its objects. *)
Definition ZCollaborators : Collaborators := {|
  state_getFrameTransform := fun rs f =>
    if bool_decide (f = "world"%string) then Some 0%Z
    else if bool_decide (f = "gripper"%string) then Some (kin rs)
    else None;
  world_getTransform := fun w f => pose_ <$> w !! f;
  env_checkRobotCollision := fun env _ _ res _ _ =>
    mkCollisionResult (collision res || negb (bool_decide (link_padding env = ∅)))
      (res_contacts res);
  env_checkSelfCollision := fun _ _ _ res _ _ => res;
  env_copy := fun _ env => env
|}.

#[local] Existing Instance ZCollaborators.

Definition model : RobotModel :=
  mkRobotModel "arm" "world" {[ "gripper"%string ]} 0%Z ∅.

(** A scene without parent, with an empty world, a padded environment with
    some padding on the gripper and an unpadded one without. *)
Definition empty_scene : PlanningScene :=
  mkScene DEFAULT_SCENE_NAME None model ∅ None
    (Some {[ "world"%string := 0%Z ]}) (Some (mkRobotState 0%Z ∅)) (Some ∅)
    None None None
    (mkCollisionDetector "FCL"
       (mkCollisionEnv {[ "gripper"%string := 1%Z ]} ∅)
       (mkCollisionEnv ∅ ∅))
    None None.

Definition collision_object (object_id : string) (operation : Z) (pose : Z)
    (primitives : list string) (primitive_poses : list Z) : CollisionObject :=
  mkCollisionObject "world" pose object_id (mkObjectType "" "")
    primitives primitive_poses [] [] [] [] [] [] operation.

(** An [ADD] of the object [box] of one shape at offset 1, and the scene
    with that object. *)
Definition add_box : CollisionObject :=
  collision_object "box" ADD 1 ["box"%string] [0%Z].

Definition box_scene : PlanningScene :=
  (processCollisionObjectMsg add_box empty_scene).2.

(** The object [box] as it stands at offset [p]. *)
Definition box_at (p : Z) : Object := mkObject p ["box"%string] [0%Z] ∅.

(** A [MOVE] of [box] to offset 5 with two shape poses for its one shape. *)
Definition move_two_poses : CollisionObject :=
  collision_object "box" MOVE 5 [] [0%Z; 0%Z].

(** An [APPEND] onto [box] without shapes. *)
Definition append_no_shapes : CollisionObject :=
  collision_object "box" APPEND 5 [] [].

(** Attaching a body [box] described in the message to the gripper. *)
Definition attach_box : AttachedCollisionObject :=
  mkAttachedCollisionObject "gripper"
    (collision_object "box" ADD 2 ["box"%string] [0%Z]) [] (mkJointTrajectory [] []).

(** Detaching [box]. *)
Definition detach_box : AttachedCollisionObject :=
  mkAttachedCollisionObject ""
    (collision_object "box" REMOVE 0 [] []) [] (mkJointTrajectory [] []).

(** A message that uses the reserved id. *)
Definition reserved_add : CollisionObject :=
  collision_object OCTOMAP_NS ADD 1 ["box"%string] [0%Z].

Definition reserved_attach : AttachedCollisionObject :=
  mkAttachedCollisionObject "gripper" reserved_add [] (mkJointTrajectory [] []).

(** The scene with the body [box] attached and no world object, the body
    as it is attached, and the scene after an [ADD] of [box] on top. *)
Definition attached_scene : PlanningScene :=
  (processAttachedCollisionObjectMsg attach_box empty_scene).2.

Definition attached_box : AttachedBody :=
  mkAttachedBody 2%Z ["box"%string] [0%Z] ∅ "gripper" (mkJointTrajectory [] []) ∅.

Definition attached_and_added_scene : PlanningScene :=
  (processCollisionObjectMsg add_box attached_scene).2.

(** A request that asks for padded environment checks. *)
Definition padded_request : CollisionRequest :=
  mkCollisionRequest "" true false false 1 1 false.

Definition no_collision : CollisionResult := mkCollisionResult false ∅.

(** An octomap message of the wrong type with some data, and a scene that
    holds an octomap. *)
Definition bad_octomap : Octomap := mkOctomap "" false "ColorOcTree" 1%Z [1%Z].

Definition good_octomap : Octomap := mkOctomap "" false "OcTree" 1%Z [1%Z].

Definition octomap_scene : PlanningScene := processOctomapMsg good_octomap empty_scene.

(** No offset for the poses read from a geometry text. *)
Definition no_offset : Isometry3d := 0%Z.

(** A geometry text in the old format whose second record starts with an
    unknown marker. *)
Definition bad_geometry : istream :=
  mkIstream "kitchen
* table
1
box
3 0 0 0 0 0 1
0 0 0 0
? chair
." false false.

(** Two colors. *)
Definition red : ColorRGBA := mkColorRGBA 1%Z 0%Z 0%Z 1%Z.
Definition blue : ColorRGBA := mkColorRGBA 0%Z 0%Z 1%Z 1%Z.

(** An [APPEND] of a sphere onto [box], an [ADD] of [box] with two poses
    for its one shape, a [REMOVE] of [box], a [REMOVE] of everything and a
    [MOVE] of [box] to offset 5 with its shape at offset 7. *)
Definition append_sphere : CollisionObject :=
  collision_object "box" APPEND 5 ["sphere"%string] [3%Z].

Definition add_two_poses : CollisionObject :=
  collision_object "box" ADD 1 ["box"%string] [0%Z; 0%Z].

Definition remove_box : CollisionObject := collision_object "box" REMOVE 0 [] [].

Definition remove_all : CollisionObject := collision_object "" REMOVE 0 [] [].

Definition move_box : CollisionObject := collision_object "box" MOVE 5 [] [7%Z].

(** The object [box] with the sphere appended. *)
Definition box_and_sphere : Object :=
  mkObject 1%Z ["box"%string; "sphere"%string] [0%Z; 3%Z] ∅.

(** Attaching the world object [box] to the gripper: the message carries
    no geometry. *)
Definition attach_world_box : AttachedCollisionObject :=
  mkAttachedCollisionObject "gripper"
    (collision_object "box" ADD 0 [] []) [] (mkJointTrajectory [] []).

(** A fork of the empty scene with the object [box] added, and its diff
    log. *)
Definition forked_box_scene : PlanningScene :=
  (processCollisionObjectMsg add_box (diff empty_scene)).2.

Definition forked_box_log : gmap string N := {[ "box"%string := N.lor ADD_SHAPE CREATE ]}.

(** A world message whose first object uses the reserved id. *)
Definition world_with_reserved : PlanningSceneWorld :=
  mkPlanningSceneWorld [reserved_add; add_box] (mkOctomapWithPose "" 0%Z bad_octomap).

(** The geometry text of a scene without objects. *)
Definition empty_geometry : istream :=
  mkIstream "kitchen
.
" false false.

(** A back end whose environment query finds the robot touching one object:
    it records as many contacts for the pair as the request allows. *)
Definition TouchingCollaborators : Collaborators := {|
  state_getFrameTransform := state_getFrameTransform (Collaborators := ZCollaborators);
  world_getTransform := world_getTransform (Collaborators := ZCollaborators);
  env_checkRobotCollision := fun _ _ req res _ _ =>
    mkCollisionResult true
      (if contacts req
       then <[("gripper"%string, "table"%string) :=
                replicate (max_contacts req `min` max_contacts_per_pair req) tt]>
              (res_contacts res)
       else res_contacts res);
  env_checkSelfCollision := fun _ _ _ res _ _ => res;
  env_copy := fun _ env => env
|}.

(** A request for up to three contacts, on one pair or on several. *)
Definition three_contacts_request : CollisionRequest :=
  mkCollisionRequest "" false false true 3 3 false.

End Concrete.

(** * Properties *)

Section CollisionDispatch.
Context {ext : External} {col : Collaborators}.

Implicit Types (s : PlanningScene) (req : CollisionRequest) (res : CollisionResult).
Implicit Types (rs : RobotState) (acm : AllowedCollisionMatrix).

(** The first query of a check is the environment query, on the environment
    the request selects. *)
Lemma checkCollision_first_query s req res rs acm :
  head (checkCollision s req res rs acm).2
  = Some (CheckRobotCollision (pad_environment_collisions req) req).
Proof.
  unfold checkCollision, call_checkRobotCollision, call_checkSelfCollision.
  destruct (pad_environment_collisions req), (pad_self_collisions req); simpl;
    match goal with |- context [if ?c then _ else _] => destruct c end; reflexivity.
Qed.

(** The four overloads of [checkCollisionUnpadded] that pass [new_req] send
    the environment query to the unpadded environment. *)
Lemma checkCollisionUnpadded_const_first_query s req res :
  head (checkCollisionUnpadded_const s req res).2
  = Some (CheckRobotCollision false (unpadded_request req)).
Proof. unfold checkCollisionUnpadded_const. by rewrite checkCollision_first_query. Qed.

Lemma checkCollisionUnpadded_state_first_query s req res rs :
  head (checkCollisionUnpadded_state s req res rs).2
  = Some (CheckRobotCollision false (unpadded_request req)).
Proof. unfold checkCollisionUnpadded_state. by rewrite checkCollision_first_query. Qed.

Lemma checkCollisionUnpadded_state_mut_first_query s req res rs :
  head (checkCollisionUnpadded_state_mut s req res rs).2
  = Some (CheckRobotCollision false (unpadded_request req)).
Proof. unfold checkCollisionUnpadded_state_mut. by rewrite checkCollision_first_query. Qed.

Lemma checkCollisionUnpadded_state_acm_mut_first_query s req res rs acm :
  head (checkCollisionUnpadded_state_acm_mut s req res rs acm).1.2
  = Some (CheckRobotCollision false (unpadded_request req)).
Proof.
  unfold checkCollisionUnpadded_state_acm_mut. simpl.
  by rewrite checkCollision_first_query.
Qed.

(** The two overloads that pass [req] behave as the padded check does. *)
Lemma checkCollisionUnpadded_state_acm_is_checkCollision s req res rs acm :
  checkCollisionUnpadded_state_acm s req res rs acm = checkCollision s req res rs acm.
Proof. reflexivity. Qed.

Lemma checkCollisionUnpadded_mut_is_checkCollision_mut s req res :
  checkCollisionUnpadded_mut s req res = checkCollision_mut s req res.
Proof.
  unfold checkCollisionUnpadded_mut, checkCollision_mut, checkCollision_state_mut.
  destruct (getCurrentStateNonConst s) as [rs s1] eqn:E.
  assert (getAllowedCollisionMatrix s1 = getAllowedCollisionMatrix s1) by reflexivity.
  reflexivity.
Qed.

(** The early return of [checkCollision].  Let [env_res] be the result of
    the environment query, made on the padded or the unpadded environment as
    [pad_environment_collisions] says.  If [env_res] reports a collision and
    contacts are disabled or the contact map of [env_res] holds at least
    [max_contacts] pairs of bodies, the function returns [env_res] and the
    environment query is the only query made.  Otherwise the self-collision
    query follows, on the environment that [pad_self_collisions] selects,
    starting from [env_res]. *)
Theorem checkCollision_early_return s req res rs acm :
  let env_res :=
    env_checkRobotCollision
      (if pad_environment_collisions req then getCollisionEnv s
       else getCollisionEnvUnpadded s)
      (world_ s) req res rs acm in
  let stop :=
    collision env_res = true
    ∧ (contacts req = false ∨ max_contacts req ≤ size (res_contacts env_res)) in
  (stop →
   checkCollision s req res rs acm
   = (env_res, [CheckRobotCollision (pad_environment_collisions req) req]))
  ∧ (¬ stop →
     checkCollision s req res rs acm
     = (env_checkSelfCollision
          (if pad_self_collisions req then getCollisionEnv s
           else getCollisionEnvUnpadded s)
          (world_ s) req env_res rs acm,
        [CheckRobotCollision (pad_environment_collisions req) req;
         CheckSelfCollision (pad_self_collisions req) req])).
Proof.
  intros env_res stop. subst stop.
  unfold checkCollision, call_checkRobotCollision, call_checkSelfCollision.
  assert (Hcond :
    collision env_res
    && (negb (contacts req) || (max_contacts req <=? size (res_contacts env_res))%nat)
    = true
    ↔ collision env_res = true
      ∧ (contacts req = false ∨ max_contacts req ≤ size (res_contacts env_res))).
  { rewrite andb_true_iff, orb_true_iff, negb_true_iff, Nat.leb_le. tauto. }
  split.
  - intros Hstop. apply Hcond in Hstop. subst env_res.
    destruct (pad_environment_collisions req); simpl in *; rewrite Hstop; reflexivity.
  - intros Hgo.
    assert (Hf :
      collision env_res
      && (negb (contacts req) || (max_contacts req <=? size (res_contacts env_res))%nat)
      = false).
    { apply not_true_is_false. intros Ht. apply Hgo, Hcond, Ht. }
    subst env_res.
    destruct (pad_environment_collisions req); simpl in *; rewrite Hf;
      destruct (pad_self_collisions req); reflexivity.
Qed.

(** C8, evaluated on the code.  The early return of [checkCollision]
    compares [max_contacts] with the number of body pairs in the contact map
    of the environment result, not with the number of contacts recorded:
    when the environment query reports a collision, contacts are enabled and
    the recorded contacts have reached [max_contacts] on fewer than
    [max_contacts] pairs of bodies, the self-collision query is still
    made. *)
Theorem checkCollision_budget_counts_pairs s req res rs acm :
  let env_res :=
    env_checkRobotCollision
      (if pad_environment_collisions req then getCollisionEnv s
       else getCollisionEnvUnpadded s)
      (world_ s) req res rs acm in
  collision env_res = true →
  contacts req = true →
  max_contacts req ≤ contact_count env_res →
  size (res_contacts env_res) < max_contacts req →
  checkCollision s req res rs acm
  = (env_checkSelfCollision
       (if pad_self_collisions req then getCollisionEnv s
        else getCollisionEnvUnpadded s)
       (world_ s) req env_res rs acm,
     [CheckRobotCollision (pad_environment_collisions req) req;
      CheckSelfCollision (pad_self_collisions req) req]).
Proof.
  intros env_res Hc Hcontacts _ Hpairs.
  unfold checkCollision, call_checkRobotCollision, call_checkSelfCollision.
  assert (Hf :
    collision env_res
    && (negb (contacts req) || (max_contacts req <=? size (res_contacts env_res))%nat)
    = false).
  { rewrite Hc, Hcontacts. cbn [andb negb orb]. apply Nat.leb_gt. exact Hpairs. }
  subst env_res.
  destruct (pad_environment_collisions req); simpl in *; rewrite Hf;
    destruct (pad_self_collisions req); reflexivity.
Qed.

End CollisionDispatch.

Section CollisionDispatchAtConcrete.
#[local] Existing Instance Concrete.ZExternal.
#[local] Existing Instance Concrete.ZCollaborators.

(** The early return and the full check at concrete requests: a padded
    request on the scene whose padded environment collides stops after the
    environment query, and the same request with padding switched off goes
    on to the self-collision query. *)
Lemma checkCollision_early_return_witness :
  checkCollision Concrete.empty_scene Concrete.padded_request Concrete.no_collision
    (getCurrentState Concrete.empty_scene) (∅ : gset string)
  = (mkCollisionResult true ∅, [CheckRobotCollision true Concrete.padded_request])
  ∧ (checkCollision Concrete.empty_scene (unpadded_request Concrete.padded_request)
       Concrete.no_collision (getCurrentState Concrete.empty_scene) (∅ : gset string)).2
    = [CheckRobotCollision false (unpadded_request Concrete.padded_request);
       CheckSelfCollision false (unpadded_request Concrete.padded_request)].
Proof.
  split.
  - apply (proj1 (checkCollision_early_return (col := Concrete.ZCollaborators)
                    Concrete.empty_scene Concrete.padded_request Concrete.no_collision
                    (getCurrentState Concrete.empty_scene) (∅ : gset string))).
    split; [reflexivity | left; reflexivity].
  - rewrite (proj2 (checkCollision_early_return (col := Concrete.ZCollaborators)
                      Concrete.empty_scene (unpadded_request Concrete.padded_request)
                      Concrete.no_collision
                      (getCurrentState Concrete.empty_scene) (∅ : gset string))).
    + reflexivity.
    + intros [Hc _]. vm_compute in Hc. discriminate.
Defined.

(** The robot touches the table at three points and the request allows
    three contacts: the environment query records the three contacts, on
    one pair of bodies, and the self-collision query follows. *)
Lemma checkCollision_budget_counts_pairs_witness :
  contact_count
    (env_checkRobotCollision (Collaborators := Concrete.TouchingCollaborators)
       (getCollisionEnvUnpadded Concrete.empty_scene) (world_ Concrete.empty_scene)
       Concrete.three_contacts_request Concrete.no_collision
       (getCurrentState Concrete.empty_scene) (∅ : gset string))
  = 3%nat
  ∧ (checkCollision (col := Concrete.TouchingCollaborators) Concrete.empty_scene
       Concrete.three_contacts_request Concrete.no_collision
       (getCurrentState Concrete.empty_scene) (∅ : gset string)).2
    = [CheckRobotCollision false Concrete.three_contacts_request;
       CheckSelfCollision false Concrete.three_contacts_request].
Proof.
  split; [vm_compute; reflexivity |].
  rewrite (checkCollision_budget_counts_pairs (col := Concrete.TouchingCollaborators)
             Concrete.empty_scene Concrete.three_contacts_request Concrete.no_collision
             (getCurrentState Concrete.empty_scene) (∅ : gset string)).
  - reflexivity.
  - reflexivity.
  - reflexivity.
  - vm_compute. lia.
  - vm_compute. lia.
Defined.

(** C2, evaluated on the code. A request that asks for padded environment
    checks is given to [checkCollisionUnpadded(req, res, state, acm)] and to
    [checkCollisionUnpadded(req, res)]: both send the environment query to
    the padded environment with the caller's request unchanged, and report
    the collision that only the padding causes.  The overload that takes a
    state only queries the unpadded environment and reports no collision. *)
Theorem checkCollisionUnpadded_queries_padded_environment :
  checkCollisionUnpadded_state_acm Concrete.empty_scene Concrete.padded_request
    Concrete.no_collision (getCurrentState Concrete.empty_scene) (∅ : gset string)
  = (mkCollisionResult true ∅, [CheckRobotCollision true Concrete.padded_request])
  ∧ (checkCollisionUnpadded_mut Concrete.empty_scene Concrete.padded_request
       Concrete.no_collision).1
    = (mkCollisionResult true ∅, [CheckRobotCollision true Concrete.padded_request])
  ∧ checkCollisionUnpadded_state Concrete.empty_scene Concrete.padded_request
      Concrete.no_collision (getCurrentState Concrete.empty_scene)
    = (mkCollisionResult false ∅,
       [CheckRobotCollision false (unpadded_request Concrete.padded_request);
        CheckSelfCollision false (unpadded_request Concrete.padded_request)]).
Proof. repeat split; vm_compute; reflexivity. Qed.

End CollisionDispatchAtConcrete.

Section WorldMessages.
Context {ext : External} {col : Collaborators}.

Implicit Types (s : PlanningScene) (object : CollisionObject).
Implicit Types (msg : AttachedCollisionObject) (o : Object).

(** *** What the helpers leave alone *)

Lemma world_notify ns s : world_ (notify ns s) = world_ s.
Proof. reflexivity. Qed.

Lemma world_getCurrentStateNonConst s : world_ (getCurrentStateNonConst s).2 = world_ s.
Proof. reflexivity. Qed.

Lemma world_getFrameTransform frame_id s :
  world_ (getFrameTransform frame_id s).2 = world_ s.
Proof. unfold getFrameTransform. by destruct (kin_dirtyLinkTransforms _). Qed.

Lemma world_removeObject object_id s :
  world_ (removeObject object_id s).2 = delete object_id (world_ s).
Proof.
  unfold removeObject, World_removeObject.
  destruct (world_ s !! object_id) eqn:E; simpl; [done |].
  by rewrite delete_id.
Qed.

Lemma world_setObjectPose_existing object_id pose s o :
  world_ s !! object_id = Some o →
  world_ (setObjectPose object_id pose s)
  = <[object_id := mkObject pose (shapes_ o) (shape_poses_ o) (subframe_poses_ o)]> (world_ s).
Proof. intros E. unfold setObjectPose, World_setObjectPose. by rewrite E. Qed.

Lemma hasObject_true object_id (w : gmap string Object) o :
  w !! object_id = Some o → World_hasObject object_id w = true.
Proof. intros E. unfold World_hasObject. apply bool_decide_eq_true. by rewrite E. Qed.

Lemma hasObject_false object_id (w : gmap string Object) :
  w !! object_id = None → World_hasObject object_id w = false.
Proof.
  intros E. unfold World_hasObject. apply bool_decide_eq_false.
  rewrite E. by intros [? ?].
Qed.

Lemma is_nil_length {A} (l : list A) : is_nil l = true ↔ length l = 0%nat.
Proof. destruct l; simpl; split; intros; done. Qed.

(** C7. A collision object message and an attached collision object
    message whose object id is the reserved id of the occupancy map are
    rejected whatever their operation is: the result is [false] and the
    scene is the scene before the call. *)
Theorem reserved_id_rejected s :
  (∀ object, id object = OCTOMAP_NS → processCollisionObjectMsg object s = (false, s))
  ∧ (∀ msg, id (object msg) = OCTOMAP_NS →
            processAttachedCollisionObjectMsg msg s = (false, s)).
Proof.
  split.
  - intros object Hid. unfold processCollisionObjectMsg.
    by rewrite bool_decide_eq_true_2.
  - intros msg Hid. unfold processAttachedCollisionObjectMsg.
    destruct (_ && _); [done |].
    by rewrite bool_decide_eq_true_2.
Qed.

(** C3 as amended. An [ADD] and an [APPEND] message without shapes both
    fail, and the scene is left as it was. *)
Theorem processCollisionObjectMsg_no_shapes object s :
  operation object = ADD ∨ operation object = APPEND →
  primitives object = [] → meshes object = [] → planes object = [] →
  processCollisionObjectMsg object s = (false, s).
Proof.
  intros Hop Hp Hm Hpl. unfold processCollisionObjectMsg.
  destruct (bool_decide (id object = OCTOMAP_NS)); [done |].
  assert ((operation object =? ADD)%Z || (operation object =? APPEND)%Z = true) as ->.
  { destruct Hop as [-> | ->]; reflexivity. }
  unfold processCollisionObjectAdd.
  destruct (negb (knowsFrameTransform s (header_frame_id object))); [done |].
  by rewrite Hp, Hm, Hpl.
Qed.

(** C1 as amended. A [MOVE] message that names an existing object and
    brings shape poses whose number differs from the number of shape poses
    of the object fails and leaves the shapes, the shape poses and the
    subframes of the object and all other objects as they were; the pose of
    the object has been set from the message before the numbers are
    compared. *)
Theorem processCollisionObjectMove_count_mismatch object s o :
  world_ s !! id object = Some o →
  (length (primitive_poses object) + length (mesh_poses object)
   + length (plane_poses object))%nat ≠ 0%nat →
  (length (primitive_poses object) + length (mesh_poses object)
   + length (plane_poses object))%nat ≠ length (shape_poses_ o) →
  (processCollisionObjectMove object s).1 = false
  ∧ world_ (processCollisionObjectMove object s).2
    = <[id object :=
          mkObject
            (iso_mul (getFrameTransform (header_frame_id object) s).1
               (poseMsgToEigen (pose object)))
            (shapes_ o) (shape_poses_ o) (subframe_poses_ o)]> (world_ s).
Proof.
  intros Ho Hsome Hne. unfold processCollisionObjectMove.
  rewrite (hasObject_true _ _ _ Ho).
  pose proof (world_getFrameTransform (header_frame_id object) s) as Hw.
  destruct (getFrameTransform (header_frame_id object) s) as [t s1]. simpl in Hw |- *.
  assert (Ho1 : world_ s1 !! id object = Some o) by by rewrite Hw.
  assert (negb (is_nil (primitive_poses object)) || negb (is_nil (mesh_poses object))
          || negb (is_nil (plane_poses object)) = true) as ->.
  { destruct (primitive_poses object), (mesh_poses object), (plane_poses object);
      simpl in *; done. }
  rewrite (world_setObjectPose_existing _ _ _ _ Ho1).
  unfold World_getObject. rewrite lookup_insert_eq. simpl.
  assert ((length (primitive_poses object) + length (mesh_poses object)
           + length (plane_poses object) =? length (shape_poses_ o))%nat = false) as ->.
  { by apply Nat.eqb_neq. }
  simpl. split; [done |].
  rewrite (world_setObjectPose_existing _ _ _ _ Ho1). by rewrite Hw.
Qed.

(** C9. An octomap message with data whose type id is not [OcTree] removes
    the occupancy map object from the world and installs nothing: the scene
    after the call is the scene after the removal, and its world is the old
    world without the reserved id.  Both overloads behave so. *)
Theorem processOctomapMsg_wrong_type s :
  (∀ map : Octomap,
     data map ≠ [] → octomap_id map ≠ "OcTree"%string →
     processOctomapMsg map s = (removeObject OCTOMAP_NS s).2
     ∧ world_ (processOctomapMsg map s) = delete OCTOMAP_NS (world_ s)
     ∧ World_hasObject OCTOMAP_NS (world_ (processOctomapMsg map s)) = false)
  ∧ (∀ map : OctomapWithPose,
       data (octomap map) ≠ [] → octomap_id (octomap map) ≠ "OcTree"%string →
       processOctomapMsg_WithPose map s = (removeObject OCTOMAP_NS s).2
       ∧ world_ (processOctomapMsg_WithPose map s) = delete OCTOMAP_NS (world_ s)
       ∧ World_hasObject OCTOMAP_NS (world_ (processOctomapMsg_WithPose map s)) = false).
Proof.
  split.
  - intros map Hd Hid.
    assert (processOctomapMsg map s = (removeObject OCTOMAP_NS s).2) as ->.
    { unfold processOctomapMsg. destruct (data map); [done |]. simpl.
      by rewrite bool_decide_eq_false_2. }
    rewrite world_removeObject. repeat split.
    apply hasObject_false, lookup_delete_eq.
  - intros map Hd Hid.
    assert (processOctomapMsg_WithPose map s = (removeObject OCTOMAP_NS s).2) as ->.
    { unfold processOctomapMsg_WithPose. destruct (data (octomap map)); [done |]. simpl.
      by rewrite bool_decide_eq_false_2. }
    rewrite world_removeObject. repeat split.
    apply hasObject_false, lookup_delete_eq.
Qed.

End WorldMessages.

Section WorldMessagesAtConcrete.
#[local] Existing Instance Concrete.ZExternal.
#[local] Existing Instance Concrete.ZCollaborators.

(** The reserved id at a concrete scene: an [ADD] and an attach. *)
Lemma reserved_id_rejected_witness :
  processCollisionObjectMsg Concrete.reserved_add Concrete.box_scene
  = (false, Concrete.box_scene)
  ∧ processAttachedCollisionObjectMsg Concrete.reserved_attach Concrete.box_scene
    = (false, Concrete.box_scene).
Proof.
  split.
  - apply (proj1 (reserved_id_rejected Concrete.box_scene)). reflexivity.
  - apply (proj2 (reserved_id_rejected Concrete.box_scene)). reflexivity.
Defined.

(** C3 as stated fails: an [APPEND] onto the object [box], in the known
    frame [world], with a free id and no shapes, is rejected. *)
Lemma append_without_shapes_is_rejected :
  operation Concrete.append_no_shapes = APPEND
  ∧ knowsFrameTransform Concrete.box_scene (header_frame_id Concrete.append_no_shapes) = true
  ∧ id Concrete.append_no_shapes ≠ OCTOMAP_NS
  ∧ primitives Concrete.append_no_shapes = []
  ∧ meshes Concrete.append_no_shapes = []
  ∧ planes Concrete.append_no_shapes = []
  ∧ (processCollisionObjectMsg Concrete.append_no_shapes Concrete.box_scene).1 = false.
Proof. repeat split; try reflexivity. intros H. vm_compute in H. discriminate. Qed.

Lemma processCollisionObjectMsg_no_shapes_witness :
  processCollisionObjectMsg Concrete.append_no_shapes Concrete.box_scene
  = (false, Concrete.box_scene).
Proof.
  apply processCollisionObjectMsg_no_shapes; [right | | |]; reflexivity.
Defined.

(** C1 as stated fails: [box] has one shape and stands at offset 1; a
    [MOVE] to offset 5 with two shape poses is rejected, and [box] stands at
    offset 5 afterwards. *)
Lemma move_count_mismatch_moves_object :
  world_ Concrete.box_scene !! "box"%string = Some (Concrete.box_at 1)
  ∧ id Concrete.move_two_poses = "box"%string
  ∧ length (primitive_poses Concrete.move_two_poses) = 2%nat
  ∧ (processCollisionObjectMove Concrete.move_two_poses Concrete.box_scene).1 = false
  ∧ world_ (processCollisionObjectMove Concrete.move_two_poses Concrete.box_scene).2
      !! "box"%string
    = Some (Concrete.box_at 5)
  ∧ (processCollisionObjectMove Concrete.move_two_poses Concrete.box_scene).2
    ≠ Concrete.box_scene.
Proof.
  repeat split; try (vm_compute; reflexivity).
  intros H. apply (f_equal (fun s => pose_ <$> world_ s !! "box"%string)) in H.
  vm_compute in H. discriminate.
Qed.

Lemma processCollisionObjectMove_count_mismatch_witness :
  (processCollisionObjectMove Concrete.move_two_poses Concrete.box_scene).1 = false
  ∧ world_ (processCollisionObjectMove Concrete.move_two_poses Concrete.box_scene).2
    = <["box"%string := Concrete.box_at 5]> (world_ Concrete.box_scene).
Proof.
  assert (H1 : world_ Concrete.box_scene !! id Concrete.move_two_poses
               = Some (Concrete.box_at 1)) by (vm_compute; reflexivity).
  assert (H2 : (length (primitive_poses Concrete.move_two_poses)
                + length (mesh_poses Concrete.move_two_poses)
                + length (plane_poses Concrete.move_two_poses))%nat ≠ 0%nat)
    by (simpl; lia).
  assert (H3 : (length (primitive_poses Concrete.move_two_poses)
                + length (mesh_poses Concrete.move_two_poses)
                + length (plane_poses Concrete.move_two_poses))%nat
               ≠ length (shape_poses_ (Concrete.box_at 1)))
    by (simpl; lia).
  exact (processCollisionObjectMove_count_mismatch Concrete.move_two_poses
           Concrete.box_scene (Concrete.box_at 1) H1 H2 H3).
Defined.

(** The octomap of the wrong type at a scene that holds an octomap. *)
Lemma processOctomapMsg_wrong_type_witness :
  World_hasObject OCTOMAP_NS (world_ Concrete.octomap_scene) = true
  ∧ processOctomapMsg Concrete.bad_octomap Concrete.octomap_scene
    = (removeObject OCTOMAP_NS Concrete.octomap_scene).2
  ∧ World_hasObject OCTOMAP_NS
      (world_ (processOctomapMsg Concrete.bad_octomap Concrete.octomap_scene)) = false.
Proof.
  split; [vm_compute; reflexivity |].
  destruct (proj1 (processOctomapMsg_wrong_type Concrete.octomap_scene) Concrete.bad_octomap)
    as (H1 & _ & H3).
  - simpl. discriminate.
  - simpl. discriminate.
  - split; [exact H1 | exact H3].
Defined.

End WorldMessagesAtConcrete.

Section Forks.
Context {ext : External} {col : Collaborators}.

Implicit Types (s : PlanningScene).

(** C5. Forking a scene and pushing the diffs of the untouched fork onto
    the scene leaves the scene as it was, whether or not the fork reads its
    parent through the target: the scene after the push is the scene
    before, and so are its world, its current robot state and its allowed
    collision matrix. *)
Theorem pushDiffs_fresh_fork s target_is_parent :
  pushDiffs target_is_parent (diff s) s = s
  ∧ world_ (pushDiffs target_is_parent (diff s) s) = world_ s
  ∧ getCurrentState (pushDiffs target_is_parent (diff s) s) = getCurrentState s
  ∧ getAllowedCollisionMatrix (pushDiffs target_is_parent (diff s) s)
    = getAllowedCollisionMatrix s.
Proof.
  assert (H : pushDiffs target_is_parent (diff s) s = s).
  { unfold pushDiffs, diff. simpl. rewrite map_to_list_empty. simpl.
    destruct s as [? ? ? ? ? ? ? ? ? ? ? [al [pad sc] un] ? ?]. reflexivity. }
  rewrite H. done.
Qed.

End Forks.

Section AttachedBodies.
Context {ext : External} {col : Collaborators}.

Implicit Types (s : PlanningScene) (object : CollisionObject).
Implicit Types (msg : AttachedCollisionObject) (o : Object) (w : gmap string Object).

(** The attachment table a scene reads. *)
Local Abbreviation attached s := (attached_body_map_ (getCurrentState s)).

(** Only the entry of [i] may differ between two tables. *)
Local Abbreviation only_at i m m' := (∀ j : string, j ≠ i → m' !! j = m !! j).

Lemma getCurrentState_congr s s' :
  robot_state_ s' = robot_state_ s → parent_ s' = parent_ s →
  robot_model_ s' = robot_model_ s → getCurrentState s' = getCurrentState s.
Proof. destruct s, s'; simpl; intros -> -> ->; reflexivity. Qed.

Lemma getCurrentState_local s rs : robot_state_ s = Some rs → getCurrentState s = rs.
Proof. destruct s; simpl; intros ->; reflexivity. Qed.

Lemma getCurrentState_set_robot_state rs s :
  getCurrentState (set_robot_state_ (Some rs) s) = rs.
Proof. reflexivity. Qed.

Ltac same_state :=
  apply getCurrentState_congr;
  repeat (match goal with
          | |- context [match ?x with _ => _ end] => destruct x
          | |- context [if ?x then _ else _] => destruct x
          end; simpl);
  reflexivity.

Lemma getCurrentState_notify ns s : getCurrentState (notify ns s) = getCurrentState s.
Proof. unfold notify. same_state. Qed.

Lemma getCurrentState_removeObject i s :
  getCurrentState (removeObject i s).2 = getCurrentState s.
Proof. unfold removeObject, World_removeObject, notify. same_state. Qed.

Lemma getCurrentState_addToObject i p sh sp s :
  getCurrentState (addToObject i p sh sp s) = getCurrentState s.
Proof. unfold addToObject, World_addToObject, notify. same_state. Qed.

Lemma getCurrentState_setObjectPose i p s :
  getCurrentState (setObjectPose i p s) = getCurrentState s.
Proof. unfold setObjectPose, World_setObjectPose, notify. same_state. Qed.

Lemma getCurrentState_moveShapesInObject i sp s :
  getCurrentState (moveShapesInObject i sp s).2 = getCurrentState s.
Proof. unfold moveShapesInObject, World_moveShapesInObject, notify. same_state. Qed.

Lemma getCurrentState_setSubframesOfObject i sf s :
  getCurrentState (setSubframesOfObject i sf s).2 = getCurrentState s.
Proof. unfold setSubframesOfObject, World_setSubframesOfObject. same_state. Qed.

Lemma getCurrentState_setObjectType i t s :
  getCurrentState (setObjectType i t s) = getCurrentState s.
Proof. unfold setObjectType. same_state. Qed.

Lemma getCurrentState_removeObjectType i s :
  getCurrentState (removeObjectType i s) = getCurrentState s.
Proof. unfold removeObjectType. same_state. Qed.

Lemma getCurrentState_setObjectColor i c s :
  getCurrentState (setObjectColor i c s) = getCurrentState s.
Proof. unfold setObjectColor, getOriginalObjectColor. same_state. Qed.

Lemma getCurrentState_removeObjectColor i s :
  getCurrentState (removeObjectColor i s) = getCurrentState s.
Proof. unfold removeObjectColor. same_state. Qed.

Lemma getCurrentState_acm_removeEntry_NonConst i s :
  getCurrentState (acm_removeEntry_NonConst i s) = getCurrentState s.
Proof.
  unfold acm_removeEntry_NonConst, getAllowedCollisionMatrixNonConst.
  destruct (acm_ s); by apply getCurrentState_congr.
Qed.

Lemma getCurrentState_NonConst s :
  getCurrentState (getCurrentStateNonConst s).2 = RobotState_update (getCurrentState s).
Proof. destruct s as [? [p|] ? ? ? ? [rs|] ? ? ? ? ? ? ?]; reflexivity. Qed.

Lemma attached_getFrameTransform f s :
  attached (getFrameTransform f s).2 = attached s.
Proof.
  unfold getFrameTransform, getCurrentStateNonConst.
  destruct (kin_dirtyLinkTransforms _); [| done].
  destruct s as [? [p|] ? ? ? ? [rs|] ? ? ? ? ? ? ?]; reflexivity.
Qed.

(** *** The world after the steps of a message *)

Lemma world_addToObject_only_at i p sh sp s :
  only_at i (world_ s) (world_ (addToObject i p sh sp s)).
Proof.
  intros j Hj. unfold addToObject, World_addToObject.
  repeat case_match; simplify_eq/=; try done; by rewrite lookup_insert_ne.
Qed.

Lemma world_setObjectPose_only_at i p s :
  only_at i (world_ s) (world_ (setObjectPose i p s)).
Proof.
  intros j Hj. unfold setObjectPose, World_setObjectPose.
  repeat case_match; simplify_eq/=; by rewrite lookup_insert_ne.
Qed.

Lemma world_moveShapesInObject_only_at i sp s :
  only_at i (world_ s) (world_ (moveShapesInObject i sp s).2).
Proof.
  intros j Hj. unfold moveShapesInObject, World_moveShapesInObject.
  repeat case_match; simplify_eq/=; try done; by rewrite lookup_insert_ne.
Qed.

Lemma world_setSubframesOfObject_only_at i sf s :
  only_at i (world_ s) (world_ (setSubframesOfObject i sf s).2).
Proof.
  intros j Hj. unfold setSubframesOfObject, World_setSubframesOfObject.
  repeat case_match; simplify_eq/=; try done; by rewrite lookup_insert_ne.
Qed.

Lemma world_setObjectType i t s : world_ (setObjectType i t s) = world_ s.
Proof. reflexivity. Qed.

Lemma world_removeObjectType i s : world_ (removeObjectType i s) = world_ s.
Proof. unfold removeObjectType. by destruct (object_types_ s). Qed.

Lemma world_removeObjectColor i s : world_ (removeObjectColor i s) = world_ s.
Proof. unfold removeObjectColor. by destruct (object_colors_ s). Qed.

Lemma world_setObjectColor i c s : world_ (setObjectColor i c s) = world_ s.
Proof. unfold setObjectColor, getOriginalObjectColor. by repeat case_match. Qed.

Lemma world_acm_removeEntry_NonConst i s :
  world_ (acm_removeEntry_NonConst i s) = world_ s.
Proof.
  unfold acm_removeEntry_NonConst, getAllowedCollisionMatrixNonConst.
  by destruct (acm_ s).
Qed.

Lemma processCollisionObjectAdd_frame object s :
  only_at (id object) (world_ s) (world_ (processCollisionObjectAdd object s).2)
  ∧ attached (processCollisionObjectAdd object s).2 = attached s.
Proof.
  unfold processCollisionObjectAdd.
  destruct (negb (knowsFrameTransform s (header_frame_id object))); [done |].
  destruct (is_nil (primitives object) && is_nil (meshes object) && is_nil (planes object));
    [done |].
  set (s1 := if (operation object =? ADD)%Z && World_hasObject (id object) (world_ s)
             then (removeObject (id object) s).2 else s).
  assert (Hw1 : only_at (id object) (world_ s) (world_ s1)).
  { intros j Hj. subst s1. destruct (_ && _); [| done].
    by rewrite world_removeObject, lookup_delete_ne. }
  assert (Ha1 : attached s1 = attached s).
  { subst s1. destruct (_ && _); [| done]. by rewrite getCurrentState_removeObject. }
  pose proof (world_getFrameTransform (header_frame_id object) s1) as Hw2.
  pose proof (attached_getFrameTransform (header_frame_id object) s1) as Ha2.
  destruct (getFrameTransform (header_frame_id object) s1) as [t s2]. simpl in Hw2, Ha2.
  destruct (shapesAndPosesFromCollisionObjectMessage object) as [[[h sh] sp] |]; simpl.
  - split.
    + intros j Hj.
      rewrite world_setSubframesOfObject_only_at by done.
      destruct (_ || _); [rewrite world_setObjectType |];
        rewrite world_addToObject_only_at by done; rewrite Hw2; by apply Hw1.
    + rewrite getCurrentState_setSubframesOfObject.
      destruct (_ || _); [rewrite getCurrentState_setObjectType |];
        rewrite getCurrentState_addToObject; congruence.
  - split; [intros j Hj; rewrite Hw2; by apply Hw1 | congruence].
Qed.

Lemma removeAllCollisionObjects_frame s :
  (∀ j : string, is_Some (world_ (removeAllCollisionObjects s) !! j) → is_Some (world_ s !! j))
  ∧ attached (removeAllCollisionObjects s) = attached s.
Proof.
  unfold removeAllCollisionObjects.
  generalize (World_getObjectIds (world_ s)) as ids.
  intros ids. revert s. induction ids as [| i ids IH]; intros s; simpl; [done |].
  destruct (IH (if negb (bool_decide (i = OCTOMAP_NS))
                then acm_removeEntry_NonConst i
                       (removeObjectType i (removeObjectColor i (removeObject i s).2))
                else s)) as [IHw IHa].
  split.
  - intros j Hj. apply IHw in Hj. destruct (negb _); [| done].
    rewrite world_acm_removeEntry_NonConst, world_removeObjectType,
      world_removeObjectColor, world_removeObject in Hj.
    apply lookup_delete_is_Some in Hj. tauto.
  - rewrite IHa. destruct (negb _); [| done].
    by rewrite getCurrentState_acm_removeEntry_NonConst, getCurrentState_removeObjectType,
      getCurrentState_removeObjectColor, getCurrentState_removeObject.
Qed.

Lemma processCollisionObjectRemove_frame object s :
  (∀ j : string, is_Some (world_ (processCollisionObjectRemove object s).2 !! j) →
                 is_Some (world_ s !! j))
  ∧ attached (processCollisionObjectRemove object s).2 = attached s.
Proof.
  unfold processCollisionObjectRemove.
  destruct (bool_decide (id object = ""%string)); [apply removeAllCollisionObjects_frame |].
  pose proof (world_removeObject (id object) s) as Hw.
  pose proof (getCurrentState_removeObject (id object) s) as Ha.
  destruct (removeObject (id object) s) as [found s1]. simpl in Hw, Ha.
  destruct found; simpl.
  - split.
    + intros j. rewrite world_acm_removeEntry_NonConst, world_removeObjectType,
        world_removeObjectColor, Hw, lookup_delete_is_Some. tauto.
    + by rewrite getCurrentState_acm_removeEntry_NonConst, getCurrentState_removeObjectType,
        getCurrentState_removeObjectColor, Ha.
  - split; [| by rewrite Ha]. intros j. rewrite Hw, lookup_delete_is_Some. tauto.
Qed.

Lemma processCollisionObjectMove_frame object s :
  (∀ j : string, is_Some (world_ (processCollisionObjectMove object s).2 !! j) →
                 is_Some (world_ s !! j))
  ∧ attached (processCollisionObjectMove object s).2 = attached s.
Proof.
  unfold processCollisionObjectMove.
  destruct (World_hasObject (id object) (world_ s)) eqn:Hhas; [| done].
  apply bool_decide_eq_true in Hhas.
  pose proof (world_getFrameTransform (header_frame_id object) s) as Hw1.
  pose proof (attached_getFrameTransform (header_frame_id object) s) as Ha1.
  destruct (getFrameTransform (header_frame_id object) s) as [t s1]. simpl in Hw1, Ha1.
  set (s2 := setObjectPose (id object) _ s1).
  assert (Hw2 : ∀ j : string, is_Some (world_ s2 !! j) → is_Some (world_ s !! j)).
  { intros j Hj. destruct (decide (j = id object)) as [-> | Hne]; [done |].
    subst s2. rewrite world_setObjectPose_only_at, Hw1 in Hj; done. }
  assert (Ha2 : attached s2 = attached s).
  { subst s2. by rewrite getCurrentState_setObjectPose. }
  destruct (_ || _); [| done].
  destruct (negb (_ =? _)%nat); [done |].
  pose proof (world_moveShapesInObject_only_at (id object)
    ((poseMsgToEigen <$> primitive_poses object) ++ (poseMsgToEigen <$> mesh_poses object)
     ++ (poseMsgToEigen <$> plane_poses object)) s2) as Hw3.
  pose proof (getCurrentState_moveShapesInObject (id object)
    ((poseMsgToEigen <$> primitive_poses object) ++ (poseMsgToEigen <$> mesh_poses object)
     ++ (poseMsgToEigen <$> plane_poses object)) s2) as Ha3.
  destruct (moveShapesInObject _ _ s2) as [moved s3]. simpl in Hw3, Ha3.
  assert (Hgoal : (∀ j : string, is_Some (world_ s3 !! j) → is_Some (world_ s !! j))
                  ∧ attached s3 = attached s).
  { split; [| congruence]. intros j Hj.
    destruct (decide (j = id object)) as [-> | Hne]; [done |].
    rewrite Hw3 in Hj by done. by apply Hw2. }
  by destruct moved.
Qed.

(** *** Attach and detach *)

Lemma hasObject_is_Some i w : World_hasObject i w = true ↔ is_Some (w !! i).
Proof. unfold World_hasObject. apply bool_decide_eq_true. Qed.

Lemma hasAttachedBody_is_Some rs i :
  hasAttachedBody rs i = true ↔ is_Some (attached_body_map_ rs !! i).
Proof. unfold hasAttachedBody. apply bool_decide_eq_true. Qed.

Lemma disjoint_lookup s :
  disjoint s ↔ ∀ j : string, is_Some (world_ s !! j) → attached s !! j = None.
Proof.
  unfold disjoint. split.
  - intros H j Hw. destruct (attached s !! j) eqn:E; [| done].
    destruct (H j). rewrite hasObject_is_Some, hasAttachedBody_is_Some, E. eauto.
  - intros H j [Hw Ha]. apply hasObject_is_Some, H in Hw.
    apply hasAttachedBody_is_Some in Ha. rewrite Hw in Ha. by destruct Ha.
Qed.

Lemma getCurrentState_with_robot_state f s :
  getCurrentState (with_robot_state f s) = f (getCurrentState s).
Proof. reflexivity. Qed.

Lemma world_with_robot_state f s : world_ (with_robot_state f s) = world_ s.
Proof. reflexivity. Qed.

Lemma attached_clearAttachedBody i rs :
  attached_body_map_ (clearAttachedBody i rs).2 = delete i (attached_body_map_ rs).
Proof.
  unfold clearAttachedBody. destruct (attached_body_map_ rs !! i) eqn:E; simpl; [done |].
  by rewrite delete_id.
Qed.

Lemma kin_clearAttachedBody i rs : kin (clearAttachedBody i rs).2 = kin rs.
Proof. unfold clearAttachedBody. by destruct (attached_body_map_ rs !! i). Qed.

Lemma attach_disjoint msg s : disjoint s → disjoint (attach msg s).2.
Proof.
  rewrite !disjoint_lookup. intros Hd. unfold attach.
  set (i := id (object msg)).
  set (step1 := if (operation (object msg) =? ADD)%Z && _ && _ && _ then _ else _).
  assert (Hstep : world_ step1.2 = world_ s ∧ attached step1.2 = attached s).
  { subst step1. destruct (_ && _ && _ && _).
    - by destruct (World_getObject i (world_ s)).
    - destruct (shapesAndPosesFromCollisionObjectMessage (object msg)) as [[[h sh] sp] |];
        [| done].
      pose proof (world_getFrameTransform (header_frame_id (object msg)) s) as Hw.
      pose proof (attached_getFrameTransform (header_frame_id (object msg)) s) as Ha.
      by destruct (getFrameTransform (header_frame_id (object msg)) s). }
  destruct step1 as [[[[[p sh] sp] sf] |] s1]; simpl in Hstep; destruct Hstep as [Hw1 Ha1];
    [| simpl; intros j; rewrite Hw1, Ha1; apply Hd].
  destruct (is_nil sh); [simpl; intros j; rewrite Hw1, Ha1; apply Hd |].
  set (s2 := if negb (bool_decide (db (type (object msg)) = ""%string)) || _ then _ else s1).
  assert (Hs2 : world_ s2 = world_ s ∧ attached s2 = attached s).
  { subst s2. destruct (_ || _); [| done].
    by rewrite world_setObjectType, getCurrentState_setObjectType. }
  destruct Hs2 as [Hw2 Ha2].
  set (s3 := match World_getObject i (world_ s) with
             | Some _ => (removeObject i s2).2 | None => s2 end).
  assert (Hs3 : (∀ j : string, is_Some (world_ s3 !! j) → j ≠ i ∧ is_Some (world_ s !! j))
                ∧ attached s3 = attached s).
  { subst s3. unfold World_getObject. destruct (world_ s !! i) eqn:E.
    - rewrite getCurrentState_removeObject. split; [| done].
      intros j. rewrite world_removeObject, Hw2, lookup_delete_is_Some.
      intros [Hne Hs]. split; [by intros -> | done].
    - split; [| done]. intros j Hj. rewrite Hw2 in Hj. split; [| done].
      intros ->. rewrite E in Hj. by destruct Hj. }
  destruct Hs3 as [Hw3 Ha3].
  assert (Hfinal : ∀ body (j : string),
            is_Some (world_ s3 !! j) →
            attached_body_map_
              (attachBody i body (clearAttachedBody i (robot_state_value s3)).2) !! j = None).
  { intros body j Hj. apply Hw3 in Hj as [Hne Hj]. unfold attachBody. simpl.
    rewrite lookup_insert_ne, attached_clearAttachedBody, lookup_delete_ne by done.
    unfold robot_state_value. rewrite Ha3. by apply Hd. }
  destruct ((operation (object msg) =? ADD)%Z
            || negb (hasAttachedBody (robot_state_value s3) i)); cbn [snd].
  - intros j Hj. rewrite getCurrentState_with_robot_state. by apply Hfinal.
  - destruct (getAttachedBody (robot_state_value s3) i); cbn [snd].
    + intros j Hj. rewrite getCurrentState_with_robot_state. by apply Hfinal.
    + intros j Hj. apply Hw3 in Hj as [_ Hj]. rewrite Ha3. by apply Hd.
Qed.

Lemma detach_body_disjoint s nb : disjoint s → disjoint (detach_body s nb).
Proof.
  rewrite !disjoint_lookup. intros Hd j. unfold detach_body.
  rewrite world_with_robot_state, getCurrentState_with_robot_state,
    attached_clearAttachedBody.
  set (s1 := if World_hasObject nb.1 (world_ s) then s else _).
  assert (Hs1 : only_at nb.1 (world_ s) (world_ s1) ∧ attached s1 = attached s).
  { subst s1. destruct (World_hasObject nb.1 (world_ s)); [done |].
    split.
    - intros k Hk. destruct (getOriginalObjectColor _ _);
        [rewrite world_setObjectColor |];
        rewrite world_setSubframesOfObject_only_at, world_addToObject_only_at; done.
    - destruct (getOriginalObjectColor _ _);
        [rewrite getCurrentState_setObjectColor |];
        by rewrite getCurrentState_setSubframesOfObject, getCurrentState_addToObject. }
  destruct Hs1 as [Hw Ha]. intros Hj.
  destruct (decide (j = nb.1)) as [-> | Hne]; [apply lookup_delete_eq |].
  unfold robot_state_value. rewrite lookup_delete_ne, Ha by done.
  rewrite Hw in Hj by done. by apply Hd.
Qed.

Lemma detach_bodies_disjoint bodies s :
  disjoint s → disjoint (foldl detach_body s bodies).
Proof.
  revert s. induction bodies as [| nb bodies IH]; intros s Hd; simpl; [done |].
  by apply IH, detach_body_disjoint.
Qed.

Lemma detach_disjoint msg s : disjoint s → disjoint (detach msg s).2.
Proof.
  intros Hd. unfold detach. destruct (detach_select msg s); [| done].
  destruct (_ || _); simpl; by apply detach_bodies_disjoint.
Qed.

Lemma disjoint_materialize s :
  disjoint s →
  disjoint (set_robot_state_
              (Some (RobotState_update
                       match robot_state_ s with
                       | Some rs => rs
                       | None =>
                           match parent_ s with
                           | Some p => getCurrentState p
                           | None => mkRobotState (default_kin (robot_model_ s)) ∅
                           end
                       end)) s).
Proof.
  rewrite !disjoint_lookup. intros Hd j Hj. simpl in Hj.
  rewrite getCurrentState_set_robot_state. simpl.
  specialize (Hd j Hj). by destruct s as [? [p|] ? ? ? ? [rs|] ? ? ? ? ? ? ?].
Qed.

Lemma processAttachedCollisionObjectMsg_disjoint msg s :
  disjoint s → disjoint (processAttachedCollisionObjectMsg msg s).2.
Proof.
  intros Hd. unfold processAttachedCollisionObjectMsg.
  destruct (_ && _); [done |].
  destruct (bool_decide (id (object msg) = OCTOMAP_NS)); [done |].
  pose proof (disjoint_materialize s Hd) as Hd0.
  destruct (_ || _).
  - destruct (hasLinkModel _ _); [by apply attach_disjoint | done].
  - destruct (_ =? _)%Z; [by apply detach_disjoint | done].
Qed.

Lemma processCollisionObjectMsg_disjoint object s :
  disjoint s →
  (operation object = ADD ∨ operation object = APPEND →
   hasAttachedBody (getCurrentState s) (id object) = false) →
  disjoint (processCollisionObjectMsg object s).2.
Proof.
  rewrite !disjoint_lookup. intros Hd Hfree. unfold processCollisionObjectMsg.
  destruct (bool_decide (id object = OCTOMAP_NS)); [done |].
  destruct ((operation object =? ADD)%Z || (operation object =? APPEND)%Z) eqn:Hop.
  - destruct (processCollisionObjectAdd_frame object s) as [Hw Ha].
    intros j Hj. rewrite Ha.
    destruct (decide (j = id object)) as [-> | Hne].
    + assert (hasAttachedBody (getCurrentState s) (id object) = false) as Hf.
      { apply Hfree. apply orb_true_iff in Hop as [H | H]; apply Z.eqb_eq in H; auto. }
      apply bool_decide_eq_false in Hf.
      destruct (attached s !! id object) eqn:E; [| done]. destruct Hf. eauto.
    + rewrite Hw in Hj by done. by apply Hd.
  - destruct (operation object =? REMOVE)%Z.
    + destruct (processCollisionObjectRemove_frame object s) as [Hw Ha].
      intros j Hj. rewrite Ha. by apply Hd, Hw.
    + destruct (operation object =? MOVE)%Z; [| done].
      destruct (processCollisionObjectMove_frame object s) as [Hw Ha].
      intros j Hj. rewrite Ha. by apply Hd, Hw.
Qed.

(** C4 as amended. Disjointness of world objects and attached bodies is
    kept by every attached collision object message: an attach removes the
    world object of the same name before it attaches, and a detach clears
    the body and puts it into the world only when no world object of that
    name exists.  It is kept by a collision object message too, unless the
    message is an [ADD] or [APPEND] whose id names a body that is attached:
    [REMOVE] and [MOVE] never add an id to the world. *)
Theorem disjoint_preserved s :
  disjoint s →
  (∀ msg, disjoint (processAttachedCollisionObjectMsg msg s).2)
  ∧ (∀ object,
       (operation object = ADD ∨ operation object = APPEND →
        hasAttachedBody (getCurrentState s) (id object) = false) →
       disjoint (processCollisionObjectMsg object s).2).
Proof.
  intros Hd. split.
  - intros msg. by apply processAttachedCollisionObjectMsg_disjoint.
  - intros object. by apply processCollisionObjectMsg_disjoint.
Qed.

(** *** Detaching, body by body *)

Lemma NoDup_fst_filter {A B} (P : A * B → Prop) `{∀ x, Decision (P x)} (l : list (A * B)) :
  NoDup l.*1 → NoDup (filter P l).*1.
Proof.
  induction l as [| x l IH]; simpl; [done |].
  rewrite NoDup_cons. intros [Hx Hl]. rewrite filter_cons.
  destruct (decide (P x)); [| by apply IH].
  simpl. apply NoDup_cons. split; [| by apply IH].
  intros Hin. apply Hx. apply list_elem_of_fmap in Hin as [y [-> Hy]].
  apply list_elem_of_filter in Hy as [_ Hy]. by apply list_elem_of_fmap_2.
Qed.

Lemma getObjectColor_congr s s' (j : string) :
  parent_ s' = parent_ s →
  (object_colors_ s' ≫= (.!! j)) = (object_colors_ s ≫= (.!! j)) →
  getObjectColor s' j = getObjectColor s j.
Proof.
  destruct s as [? p ? ? ? ? ? ? oc ? ? ? ? ?], s' as [? p' ? ? ? ? ? ? oc' ? ? ? ? ?].
  simpl. intros -> Hc.
  destruct oc as [m |], oc' as [m' |]; simpl in Hc.
  - by rewrite Hc.
  - rewrite <- Hc. done.
  - rewrite Hc. done.
  - done.
Qed.

Lemma getObjectColor_local s (j : string) m c :
  object_colors_ s = Some m → m !! j = Some c → getObjectColor s j = Some c.
Proof. destruct s; simpl. by intros -> ->. Qed.

Lemma getObjectColor_with_robot_state f s (j : string) :
  getObjectColor (with_robot_state f s) j = getObjectColor s j.
Proof. by apply getObjectColor_congr. Qed.

(** What one round of the detach loop does to the scene. *)
Lemma detach_body_effect s (n : string) (b : AttachedBody) :
  let s' := detach_body s (n, b) in
  (∀ j : string, j ≠ n →
     world_ s' !! j = world_ s !! j
     ∧ attached s' !! j = attached s !! j
     ∧ getObjectColor s' j = getObjectColor s j)
  ∧ kin (getCurrentState s') = kin (getCurrentState s)
  ∧ original_object_colors_ s' = original_object_colors_ s
  ∧ attached s' !! n = None
  ∧ (∀ o, world_ s !! n = Some o →
          world_ s' !! n = Some o ∧ getObjectColor s' n = getObjectColor s n)
  ∧ (world_ s !! n = None →
     length (ab_shapes b) = length (ab_shape_poses b) → length (ab_shapes b) ≠ 0%nat →
     world_ s' !! n
     = Some (mkObject (getGlobalPose (getCurrentState s) b) (ab_shapes b)
               (ab_shape_poses b) (ab_subframes b))
     ∧ ∀ c, n ≠ ""%string → getOriginalObjectColor s n = Some c →
            getObjectColor s' n = Some c).
Proof.
  intros s'. subst s'. unfold detach_body. cbn [fst snd].
  rewrite !world_with_robot_state, !getCurrentState_with_robot_state,
    !attached_clearAttachedBody, kin_clearAttachedBody.
  setoid_rewrite getObjectColor_with_robot_state.
  unfold robot_state_value.
  destruct (world_ s !! n) as [o |] eqn:Hn.
  - rewrite (hasObject_true _ _ _ Hn).
    split; [| split; [| split; [| split; [| split]]]]; try done.
    + intros j Hj. by rewrite lookup_delete_ne.
    + apply lookup_delete_eq.
    + intros o' [= <-]. done.
  - rewrite (hasObject_false _ _ Hn).
    set (s1 := addToObject n _ _ _ s).
    set (s2 := (setSubframesOfObject n (ab_subframes b) s1).2).
    assert (Hs2 : getCurrentState s2 = getCurrentState s).
    { subst s2 s1. by rewrite getCurrentState_setSubframesOfObject,
        getCurrentState_addToObject. }
    assert (Hw2 : only_at n (world_ s) (world_ s2)).
    { intros j Hj. subst s2 s1.
      by rewrite world_setSubframesOfObject_only_at, world_addToObject_only_at. }
    assert (Hp2 : parent_ s2 = parent_ s ∧ object_colors_ s2 = object_colors_ s
                  ∧ original_object_colors_ s2 = original_object_colors_ s).
    { subst s2 s1. unfold setSubframesOfObject, World_setSubframesOfObject,
        addToObject, World_addToObject, notify.
      repeat case_match; simplify_eq/=; done. }
    destruct Hp2 as (Hp2 & Hc2 & Ho2).
    assert (Ho2' : getOriginalObjectColor s2 n = getOriginalObjectColor s n).
    { unfold getOriginalObjectColor. by rewrite Ho2. }
    set (s3 := match getOriginalObjectColor s2 n with
               | Some c => setObjectColor n c s2 | None => s2 end).
    assert (Hs3 : getCurrentState s3 = getCurrentState s).
    { subst s3. destruct (getOriginalObjectColor s2 n);
        [rewrite getCurrentState_setObjectColor |]; done. }
    assert (Hw3 : world_ s3 = world_ s2).
    { subst s3. destruct (getOriginalObjectColor s2 n);
        [rewrite world_setObjectColor |]; done. }
    assert (Hp3 : parent_ s3 = parent_ s
                  ∧ original_object_colors_ s3 = original_object_colors_ s).
    { subst s3. unfold getOriginalObjectColor.
      destruct (original_object_colors_ s2) as [m |] eqn:Em; [| split; congruence].
      destruct (m !! n) as [c |] eqn:Ec; [| split; congruence].
      unfold setObjectColor, getOriginalObjectColor.
      destruct (bool_decide (n = ""%string)); [split; congruence |].
      cbn [original_object_colors_ set_object_colors_ set_original_object_colors_].
      rewrite Em. cbn [original_object_colors_ set_object_colors_]. rewrite Em, Ec.
      cbn [parent_ original_object_colors_ set_object_colors_].
      split; congruence. }
    destruct Hp3 as [Hp3 Ho3].
    assert (Hc3 : ∀ j : string, j ≠ n →
              (object_colors_ s3 ≫= (.!! j)) = (object_colors_ s ≫= (.!! j))).
    { intros j Hj. subst s3. destruct (getOriginalObjectColor s2 n) as [c |];
        [| by rewrite Hc2].
      unfold setObjectColor, getOriginalObjectColor.
      repeat case_match; simplify_eq/=; rewrite ?Hc2; try done;
        destruct (object_colors_ s); simpl; by rewrite ?lookup_insert_ne. }
    rewrite Hs3, Hw3.
    split; [| split; [| split; [| split; [| split]]]]; try done.
    + intros j Hj. split; [by apply Hw2 |]. split; [by rewrite lookup_delete_ne |].
      apply getObjectColor_congr; [done | by apply Hc3].
    + apply lookup_delete_eq.
    + intros _ Hlen Hpos. split.
      * subst s2 s1. unfold setSubframesOfObject, World_setSubframesOfObject,
          addToObject, World_addToObject. simpl.
        rewrite Hlen, Nat.eqb_refl. simpl. rewrite Hlen in Hpos.
        rewrite bool_decide_eq_false_2 by done.
        rewrite Hn. simpl. rewrite lookup_insert_eq. simpl.
        rewrite lookup_insert_eq. done.
      * intros c Hne Hc. subst s3. rewrite Ho2', Hc.
        unfold setObjectColor. rewrite bool_decide_eq_false_2 by done.
        eapply getObjectColor_local; [| apply lookup_insert_eq].
        repeat case_match; reflexivity.
Qed.

Lemma getGlobalPose_kin rs rs' b : kin rs' = kin rs → getGlobalPose rs' b = getGlobalPose rs b.
Proof. unfold getGlobalPose, getGlobalLinkTransform. by intros ->. Qed.

Lemma getOriginalObjectColor_congr s s' (j : string) :
  original_object_colors_ s' = original_object_colors_ s →
  getOriginalObjectColor s' j = getOriginalObjectColor s j.
Proof. unfold getOriginalObjectColor. by intros ->. Qed.

(** What the whole detach loop does, for bodies of pairwise different names. *)
Lemma detach_bodies_effect (l : list (string * AttachedBody)) s :
  NoDup l.*1 →
  let s' := foldl detach_body s l in
  (∀ j : string, j ∉ l.*1 →
     world_ s' !! j = world_ s !! j
     ∧ attached s' !! j = attached s !! j
     ∧ getObjectColor s' j = getObjectColor s j)
  ∧ kin (getCurrentState s') = kin (getCurrentState s)
  ∧ original_object_colors_ s' = original_object_colors_ s
  ∧ ∀ (n : string) b, (n, b) ∈ l →
      attached s' !! n = None
      ∧ (∀ o, world_ s !! n = Some o →
              world_ s' !! n = Some o ∧ getObjectColor s' n = getObjectColor s n)
      ∧ (world_ s !! n = None →
         length (ab_shapes b) = length (ab_shape_poses b) → length (ab_shapes b) ≠ 0%nat →
         world_ s' !! n
         = Some (mkObject (getGlobalPose (getCurrentState s) b) (ab_shapes b)
                   (ab_shape_poses b) (ab_subframes b))
         ∧ ∀ c, n ≠ ""%string → getOriginalObjectColor s n = Some c →
                getObjectColor s' n = Some c).
Proof.
  revert s. induction l as [| [n0 b0] l IH]; intros s Hnd; cbn [foldl].
  - cbn zeta. split; [done |]. split; [done |]. split; [done |].
    intros n b Hin. by apply elem_of_nil in Hin.
  - cbn [fmap list_fmap fst] in Hnd. apply NoDup_cons in Hnd as [Hn0 Hnd].
    destruct (detach_body_effect s n0 b0) as (Ef & Ek & Eo & Ea & Ew & En).
    destruct (IH (detach_body s (n0, b0)) Hnd) as (If & Ik & Io & Ib).
    cbn zeta. split; [| split; [| split]].
    + intros j Hj. cbn [fmap list_fmap fst] in Hj. apply not_elem_of_cons in Hj as [Hj0 Hj].
      destruct (If j Hj) as (-> & -> & ->). by apply Ef.
    + congruence.
    + congruence.
    + intros n b Hin. apply elem_of_cons in Hin as [[= -> ->] | Hin].
      * destruct (If n0 Hn0) as (-> & -> & ->). split; [done |]. split; [done |]. done.
      * assert (Hne : n ≠ n0).
        { intros ->. apply Hn0. by apply (list_elem_of_fmap_2 fst) in Hin. }
        destruct (Ef n Hne) as (Hw & _ & Hc).
        destruct (Ib n b Hin) as (Ha' & Hw' & Hn').
        rewrite Hw, Hc in Hw'. rewrite Hw in Hn'.
        rewrite (getGlobalPose_kin _ _ b Ek) in Hn'.
        rewrite (getOriginalObjectColor_congr _ _ n Eo) in Hn'.
        done.
Qed.

Lemma detach_select_NoDup msg s l : detach_select msg s = Some l → NoDup l.*1.
Proof.
  unfold detach_select, getAttachedBodiesOfLink, getAttachedBodies.
  repeat case_match; intros [= <-].
  - apply NoDup_fst_filter, NoDup_fst_map_to_list.
  - apply NoDup_fst_map_to_list.
  - apply NoDup_singleton.
  - apply NoDup_nil_2.
Qed.

Lemma detach_select_attached msg s l (n : string) b :
  detach_select msg s = Some l → (n, b) ∈ l → attached s !! n = Some b.
Proof.
  unfold detach_select, getAttachedBodiesOfLink, getAttachedBodies, getAttachedBody,
    robot_state_value.
  repeat case_match; intros [= <-] Hin.
  - apply list_elem_of_filter in Hin as [_ Hin]. by apply elem_of_map_to_list in Hin.
  - by apply elem_of_map_to_list in Hin.
  - apply list_elem_of_singleton in Hin as [= -> ->]. done.
  - by apply elem_of_nil in Hin.
Qed.

Lemma detach_select_congr msg s s' :
  attached s' = attached s → robot_model_ s' = robot_model_ s →
  detach_select msg s' = detach_select msg s.
Proof.
  unfold detach_select, getAttachedBodiesOfLink, getAttachedBodies, getAttachedBody,
    robot_state_value, getRobotModel.
  by intros -> ->.
Qed.

Lemma setObjectColor_keeps_original (i j : string) c c' s :
  getOriginalObjectColor s i = Some c →
  getOriginalObjectColor (setObjectColor j c' s) i = Some c.
Proof.
  unfold setObjectColor, getOriginalObjectColor.
  destruct s as [? ? ? ? ? ? ? ? ? [m |] ? ? ? ?]; cbn; [| done]. intros Hi.
  destruct (bool_decide (j = ""%string)); cbn; [done |].
  destruct (m !! j) eqn:Ej; cbn; [done |].
  destruct (decide (i = j)) as [-> | Hne]; [congruence |].
  by rewrite lookup_insert_ne.
Qed.

Lemma setObjectColor_records_first (i : string) c s :
  i ≠ ""%string → getOriginalObjectColor s i = None →
  getOriginalObjectColor (setObjectColor i c s) i = Some c.
Proof.
  unfold setObjectColor, getOriginalObjectColor. intros Hi.
  rewrite bool_decide_eq_false_2 by done.
  destruct s as [? ? ? ? ? ? ? ? ? [m |] ? ? ? ?]; cbn.
  - intros ->. cbn. apply lookup_insert_eq.
  - intros _. rewrite lookup_empty. cbn. apply lookup_insert_eq.
Qed.

(** A detach message reaches the detach branch on the scene with its robot
    state held locally and updated. *)
Lemma processAttachedCollisionObjectMsg_REMOVE msg s :
  operation (object msg) = REMOVE →
  id (object msg) ≠ OCTOMAP_NS →
  ∃ s0, processAttachedCollisionObjectMsg msg s = detach msg s0
        ∧ world_ s0 = world_ s
        ∧ attached s0 = attached s
        ∧ robot_model_ s0 = robot_model_ s
        ∧ (∀ j : string, getObjectColor s0 j = getObjectColor s j)
        ∧ original_object_colors_ s0 = original_object_colors_ s.
Proof.
  intros Hop Hid. eexists. split.
  - unfold processAttachedCollisionObjectMsg. rewrite Hop.
    rewrite bool_decide_eq_false_2 by done. reflexivity.
  - split; [done |]. split.
    + rewrite getCurrentState_set_robot_state.
      by destruct s as [? [p|] ? ? ? ? [rs|] ? ? ? ? ? ? ?].
    + split; [done |]. split; [| done]. intros j. by apply getObjectColor_congr.
Qed.

(** C6. A detach message ([REMOVE]) with an id other than the reserved one
    succeeds exactly when it selects at least one attached body or its id is
    empty.  Every selected body was attached and is no longer attached
    afterwards.  If the world had an object of its name, that object is
    still there unchanged (the body is not inserted).  Otherwise, for a body
    with at least one shape and as many shape poses as shapes, the world
    holds afterwards an object of that name at the global pose of the body,
    with its shapes, shape poses and subframes, and if an original color is
    recorded for the name, that is its color again.  The original color of
    an id is the one recorded first: [setObjectColor] never overwrites it. *)
Theorem detach_message msg s :
  operation (object msg) = REMOVE →
  id (object msg) ≠ OCTOMAP_NS →
  ((processAttachedCollisionObjectMsg msg s).1 = true
   ↔ ∃ l, detach_select msg s = Some l ∧ (l ≠ [] ∨ id (object msg) = ""%string))
  ∧ (∀ l (n : string) b,
       detach_select msg s = Some l → (n, b) ∈ l →
       attached s !! n = Some b
       ∧ hasAttachedBody (getCurrentState (processAttachedCollisionObjectMsg msg s).2) n
         = false
       ∧ (∀ o, world_ s !! n = Some o →
               world_ (processAttachedCollisionObjectMsg msg s).2 !! n = Some o)
       ∧ (world_ s !! n = None →
          length (ab_shapes b) = length (ab_shape_poses b) →
          length (ab_shapes b) ≠ 0%nat →
          world_ (processAttachedCollisionObjectMsg msg s).2 !! n
          = Some (mkObject
                    (getGlobalPose
                       (getCurrentState (processAttachedCollisionObjectMsg msg s).2) b)
                    (ab_shapes b) (ab_shape_poses b) (ab_subframes b))
          ∧ ∀ c, n ≠ ""%string → getOriginalObjectColor s n = Some c →
                 getObjectColor (processAttachedCollisionObjectMsg msg s).2 n = Some c))
  ∧ (∀ (i j : string) c c',
       getOriginalObjectColor s i = Some c →
       getOriginalObjectColor (setObjectColor j c' s) i = Some c).
Proof.
  intros Hop Hid.
  destruct (processAttachedCollisionObjectMsg_REMOVE msg s Hop Hid) as (s0 & -> & Hs0).
  destruct Hs0 as (Hw0 & Ha0 & Hm0 & Hc0 & Ho0).
  assert (Hsel : detach_select msg s0 = detach_select msg s)
    by by apply detach_select_congr.
  unfold detach. rewrite Hsel.
  split; [| split; [| intros i j c c'; apply setObjectColor_keeps_original]].
  - destruct (detach_select msg s) as [l |].
    + destruct l as [| nb l]; cbn [is_nil negb orb].
      * destruct (bool_decide (id (object msg) = ""%string)) eqn:E; cbn [fst].
        -- apply bool_decide_eq_true in E. split; [eauto | done].
        -- apply bool_decide_eq_false in E. split; [done |].
           intros (l & [= <-] & [H | H]); done.
      * cbn [fst]. split; [| done]. intros _. exists (nb :: l). split; [done |]. by left.
    + cbn [fst]. split; [done |]. by intros (l & H & _).
  - intros l n b Hl Hin.
    pose proof (detach_select_attached _ _ _ _ _ Hl Hin) as Hatt.
    split; [done |]. rewrite Hl. cbn zeta.
    assert (Hsnd : ((if negb (is_nil l) || bool_decide (id (object msg) = ""%string)
                     then (true, foldl detach_body s0 l)
                     else (false, foldl detach_body s0 l)).2)
                   = foldl detach_body s0 l) by by destruct (_ || _).
    rewrite Hsnd.
    destruct (detach_bodies_effect l s0 (detach_select_NoDup _ _ _ Hl))
      as (_ & Ek & _ & Eb).
    destruct (Eb n b Hin) as (Ha & Hw & Hn).
    rewrite Hw0 in Hw, Hn. rewrite (getOriginalObjectColor_congr _ _ n Ho0) in Hn.
    split; [| split].
    + apply bool_decide_eq_false. rewrite Ha. by intros [? ?].
    + intros o Ho. by apply Hw.
    + intros Hnone Hlen Hpos. rewrite (getGlobalPose_kin _ _ b Ek).
      destruct (Hn Hnone Hlen Hpos) as [Hw' Hc']. split; [done |].
      intros c Hne Hc. by apply Hc'.
Qed.

End AttachedBodies.

Section AttachedBodiesAtConcrete.
#[local] Existing Instance Concrete.ZExternal.
#[local] Existing Instance Concrete.ZCollaborators.

Lemma disjoint_empty_scene : disjoint Concrete.empty_scene.
Proof.
  intros object_id [H _]. apply bool_decide_eq_true in H.
  change (world_ Concrete.empty_scene) with (∅ : gmap string Object) in H.
  rewrite lookup_empty in H. by destruct H.
Qed.

(** C4 as stated fails: from the empty scene, attaching a body [box] and
    then adding a world object [box] gives a scene in which [box] is a
    world object and an attached body at once. *)
Lemma add_after_attach_breaks_disjointness :
  disjoint Concrete.empty_scene
  ∧ reachable Concrete.empty_scene Concrete.attached_and_added_scene
  ∧ World_hasObject "box" (world_ Concrete.attached_and_added_scene) = true
  ∧ hasAttachedBody (getCurrentState Concrete.attached_and_added_scene) "box" = true
  ∧ ¬ disjoint Concrete.attached_and_added_scene.
Proof.
  split; [apply disjoint_empty_scene |].
  split; [apply reachable_collision_object, reachable_attached_object, reachable_start |].
  assert (Hw : World_hasObject "box" (world_ Concrete.attached_and_added_scene) = true)
    by (vm_compute; reflexivity).
  assert (Ha : hasAttachedBody (getCurrentState Concrete.attached_and_added_scene) "box"
               = true) by (vm_compute; reflexivity).
  split; [exact Hw |]. split; [exact Ha |].
  intros Hd. exact (Hd "box"%string (conj Hw Ha)).
Qed.

(** Disjointness kept at the empty scene: by the attach of [box] and by
    the [ADD] of [box]. *)
Lemma disjoint_preserved_witness :
  disjoint (processAttachedCollisionObjectMsg Concrete.attach_box Concrete.empty_scene).2
  ∧ disjoint (processCollisionObjectMsg Concrete.add_box Concrete.empty_scene).2.
Proof.
  destruct (disjoint_preserved Concrete.empty_scene disjoint_empty_scene) as [Hatt Hco].
  split; [apply Hatt |]. apply Hco. intros _. reflexivity.
Defined.

(** Detaching [box] from the scene where it is attached: the message
    succeeds, the body is gone, and the world holds [box] at its global
    pose. *)
Lemma detach_message_witness :
  (processAttachedCollisionObjectMsg Concrete.detach_box Concrete.attached_scene).1 = true
  ∧ hasAttachedBody
      (getCurrentState
         (processAttachedCollisionObjectMsg Concrete.detach_box Concrete.attached_scene).2)
      "box" = false
  ∧ world_ (processAttachedCollisionObjectMsg Concrete.detach_box Concrete.attached_scene).2
      !! "box"%string
    = Some (Concrete.box_at 2).
Proof.
  assert (Hop : operation (object Concrete.detach_box) = REMOVE) by reflexivity.
  assert (Hid : id (object Concrete.detach_box) ≠ OCTOMAP_NS) by discriminate.
  destruct (detach_message Concrete.detach_box Concrete.attached_scene Hop Hid)
    as (Hiff & Hsel & _).
  assert (Hl : detach_select Concrete.detach_box Concrete.attached_scene
               = Some [("box"%string, Concrete.attached_box)])
    by (vm_compute; reflexivity).
  split.
  - apply Hiff. eexists. split; [exact Hl | left; discriminate].
  - destruct (Hsel _ "box"%string Concrete.attached_box Hl) as (_ & Hgone & _ & Hnew).
    + apply list_elem_of_singleton. reflexivity.
    + split; [exact Hgone |].
      destruct Hnew as [Hnew _].
      * vm_compute. reflexivity.
      * reflexivity.
      * simpl. lia.
      * rewrite Hnew. vm_compute. reflexivity.
Defined.

End AttachedBodiesAtConcrete.

Section Streams.

Implicit Types (i : istream) (str : string).

Lemma skipws_length str : String.length (skipws str) ≤ String.length str.
Proof. induction str as [| c r IH]; simpl; [lia |]. destruct (Ascii.is_space c); simpl; lia. Qed.

Lemma string_drop_length n str : String.length (string_drop n str) ≤ String.length str.
Proof.
  revert str. induction n as [| n IH]; intros [| c r]; simpl; try lia.
  specialize (IH r). lia.
Qed.

Lemma take_line_length str line rest :
  take_line str = (line, Some rest) → String.length rest < String.length str.
Proof.
  revert line. induction str as [| c r IH]; intros line; simpl; [done |].
  destruct (bool_decide (c = "010"%char)).
  - intros [= _ <-]. lia.
  - destruct (take_line r) as [l after]. intros [= _ ->].
    specialize (IH l eq_refl). lia.
Qed.

Lemma take_token_length str : String.length (take_token str).2 ≤ String.length str.
Proof.
  induction str as [| c r IH]; simpl; [lia |].
  destruct (Ascii.is_space c); simpl; [lia |].
  destruct (take_token r) as [t after]. simpl in *. lia.
Qed.

Lemma take_token_length_lt c r :
  Ascii.is_space c = false →
  String.length (take_token (String c r)).2 < String.length (String c r).
Proof.
  intros Hc. simpl. rewrite Hc. pose proof (take_token_length r) as H.
  destruct (take_token r) as [t after]. simpl in *. lia.
Qed.

Lemma skipws_head str c r : skipws str = String c r → Ascii.is_space c = false.
Proof.
  induction str as [| c' r' IH]; simpl; [done |].
  destruct (Ascii.is_space c') eqn:E; [done |]. by intros [= <- <-].
Qed.

Lemma sentry_length noskipws i :
  String.length (buf (sentry noskipws i).2) ≤ String.length (buf i).
Proof.
  unfold sentry. destruct (negb (good i)); simpl; [lia |].
  destruct noskipws; simpl; [lia |].
  pose proof (skipws_length (buf i)) as H.
  destruct (skipws (buf i)); simpl in *; lia.
Qed.

Lemma getline_length i str :
  String.length (buf (getline i str).2) ≤ String.length (buf i).
Proof.
  unfold getline. pose proof (sentry_length true i) as Hs.
  destruct (sentry true i) as [ok i1]. simpl in Hs.
  destruct ok; simpl; [| done].
  destruct (take_line (buf i1)) as [line [rest |]] eqn:E; simpl; [| lia].
  apply take_line_length in E. lia.
Qed.

(** A line read from a stream that is good afterwards has used up at least
    its newline. *)
Lemma getline_length_lt i str :
  good (getline i str).2 = true →
  String.length (buf (getline i str).2) < String.length (buf i).
Proof.
  unfold getline, sentry.
  destruct (negb (good i)); simpl; [unfold good; simpl; done |].
  destruct (take_line (buf i)) as [line [rest |]] eqn:E; simpl.
  - intros _. by apply take_line_length in E.
  - unfold good. simpl. by rewrite andb_false_r.
Qed.

(** The look-ahead for the first marker reads at most as many lines as the
    text has characters: more rounds do not change what it finds. *)
Lemma find_marker_line_fuel fuel i str :
  String.length (buf i) ≤ fuel →
  find_marker_line (S fuel) i str = find_marker_line fuel i str.
Proof.
  revert i str. induction fuel as [| fuel IH]; intros i str Hlen.
  - simpl. pose proof (getline_length_lt i str) as Hlt.
    destruct (getline i str) as [line1 i1]. simpl in Hlt.
    destruct (good i1) eqn:Hg; simpl; [| done].
    specialize (Hlt eq_refl). lia.
  - change (find_marker_line (S (S fuel)) i str)
      with (let '(line1, i1) := getline i str in
            if good i1 && negb (eof i1)
               && (string_is_empty line1
                   || negb (bool_decide (String.get 0 line1 = Some "*"%char)))
            then find_marker_line (S fuel) i1 line1 else (line1, i1)).
    change (find_marker_line (S fuel) i str)
      with (let '(line1, i1) := getline i str in
            if good i1 && negb (eof i1)
               && (string_is_empty line1
                   || negb (bool_decide (String.get 0 line1 = Some "*"%char)))
            then find_marker_line fuel i1 line1 else (line1, i1)).
    pose proof (getline_length_lt i str) as Hlt.
    destruct (getline i str) as [line1 i1]. simpl in Hlt.
    destruct (good i1) eqn:Hg; cbn [andb]; [| done].
    destruct (negb (eof i1) && _); [| done].
    apply IH. specialize (Hlt eq_refl). lia.
Qed.

Lemma extract_string_length i str :
  String.length (buf (extract_string i str).2) ≤ String.length (buf i).
Proof.
  unfold extract_string. pose proof (sentry_length false i) as Hs.
  destruct (sentry false i) as [ok i1]. simpl in Hs.
  destruct ok; simpl; [| done].
  pose proof (take_token_length (buf i1)) as Ht.
  destruct (take_token (buf i1)) as [tok rest]. simpl in *. lia.
Qed.

(** A word read from a stream that is good afterwards has used up at least
    one character. *)
Lemma extract_string_length_lt i str :
  good (extract_string i str).2 = true →
  String.length (buf (extract_string i str).2) < String.length (buf i).
Proof.
  unfold extract_string, sentry.
  destruct (negb (good i)); simpl; [unfold good; simpl; done |].
  pose proof (skipws_length (buf i)) as Hs.
  destruct (skipws (buf i)) as [| c r] eqn:E; simpl; [unfold good; simpl; done |].
  pose proof (take_token_length_lt c r (skipws_head _ _ _ E)) as Ht.
  simpl in Ht. destruct (Ascii.is_space c); [simpl in Ht; lia |].
  destruct (take_token r) as [t after]. simpl in *. intros _. lia.
Qed.

Lemma extract_num_length {A} (num_get : string → option A * nat) i :
  String.length (buf (extract_num num_get i).2) ≤ String.length (buf i).
Proof.
  unfold extract_num. pose proof (sentry_length false i) as Hs.
  destruct (sentry false i) as [ok i1]. simpl in Hs.
  destruct ok; simpl; [| done].
  destruct (num_get (buf i1)) as [v n]. simpl.
  pose proof (string_drop_length n (buf i1)). lia.
Qed.

End Streams.

Section Loader.
Context {ext : External} {col : Collaborators}.

Implicit Types (i : istream) (s : PlanningScene) (offset : Isometry3d).
Implicit Types (w : gmap string Object) (r : ObjectRecord).

(** The name is kept and no object of the world is lost. *)
Local Abbreviation grows s s' :=
  (name_ s' = name_ s ∧ ∀ j : string, is_Some (world_ s !! j) → is_Some (world_ s' !! j)).

Lemma grows_refl s : grows s s.
Proof. done. Qed.

Lemma grows_trans s1 s2 s3 : grows s1 s2 → grows s2 s3 → grows s1 s3.
Proof. intros [Hn1 Hw1] [Hn2 Hw2]. split; [congruence | auto]. Qed.

Lemma grows_setObjectPose (n : string) p s :
  grows s (setObjectPose n p s) ∧ is_Some (world_ (setObjectPose n p s) !! n).
Proof.
  unfold setObjectPose, World_setObjectPose.
  destruct (world_ s !! n) eqn:E; simpl; (split; [split; [done |] |]).
  - intros j Hj. rewrite lookup_insert_is_Some. destruct (decide (n = j)); auto.
  - rewrite lookup_insert_eq. eauto.
  - intros j Hj. rewrite lookup_insert_is_Some. destruct (decide (n = j)); auto.
  - rewrite lookup_insert_eq. eauto.
Qed.

Lemma grows_addToObject1 (n : string) sh p s : grows s (addToObject1 n sh p s).
Proof.
  unfold addToObject1, World_addToObject1.
  destruct (world_ s !! n) eqn:E; simpl; (split; [done |]);
    intros j Hj; rewrite lookup_insert_is_Some; destruct (decide (n = j)); auto.
Qed.

Lemma grows_setObjectColor (n : string) c s : grows s (setObjectColor n c s).
Proof.
  unfold setObjectColor, getOriginalObjectColor.
  repeat case_match; simpl; done.
Qed.

Lemma grows_setSubframesOfObject (n : string) sf s :
  grows s (setSubframesOfObject n sf s).2.
Proof.
  unfold setSubframesOfObject, World_setSubframesOfObject.
  destruct (world_ s !! n) eqn:E; simpl; (split; [done |]); [| done].
  intros j Hj. rewrite lookup_insert_is_Some. destruct (decide (n = j)); auto.
Qed.

Lemma readPoseFromText_length i :
  String.length (buf (readPoseFromText i).2) ≤ String.length (buf i).
Proof.
  unfold readPoseFromText.
  repeat match goal with
         | |- context [extract_num num_get_double ?x] =>
             let H := fresh "H" in
             pose proof (extract_num_length num_get_double x) as H;
             destruct (extract_num num_get_double x) as [? ?]; simpl in H
         end.
  repeat case_match; simpl; lia.
Qed.

Lemma readColorFromText_length i :
  String.length (buf (readColorFromText i).2) ≤ String.length (buf i).
Proof.
  unfold readColorFromText.
  repeat match goal with
         | |- context [extract_num num_get_double ?x] =>
             let H := fresh "H" in
             pose proof (extract_num_length num_get_double x) as H;
             destruct (extract_num num_get_double x) as [? ?]; simpl in H
         end.
  repeat case_match; simpl; lia.
Qed.

Lemma call_constructShapeFromText_length i :
  String.length (buf (call_constructShapeFromText i).2) ≤ String.length (buf i).
Proof.
  unfold call_constructShapeFromText.
  destruct (constructShapeFromText (buf i)) as [[[sh n] f] e]. simpl.
  apply string_drop_length.
Qed.

Lemma load_shapes_spec shape_count (object_id : string) i s :
  String.length (buf (load_shapes shape_count object_id i s).1.2) ≤ String.length (buf i)
  ∧ grows s (load_shapes shape_count object_id i s).2.
Proof.
  revert i s. induction shape_count as [| n IH]; intros i s; simpl; [split; [lia | done] |].
  destruct (good i && negb (eof i)); [| simpl; split; [lia | done]].
  pose proof (call_constructShapeFromText_length i) as H1.
  destruct (call_constructShapeFromText i) as [[shape |] i1]; simpl in H1;
    [| simpl; split; [lia | done]].
  pose proof (readPoseFromText_length i1) as H2.
  destruct (readPoseFromText i1) as [[pose |] i2]; simpl in H2;
    [| simpl; split; [lia | done]].
  pose proof (readColorFromText_length i2) as H3.
  destruct (readColorFromText i2) as [[[[[r g] b] a] |] i3]; simpl in H3;
    [| simpl; split; [lia | done]].
  match goal with |- context [load_shapes n object_id i3 ?s2] =>
    destruct (IH i3 s2) as [IHl IHg];
    assert (Hg : grows s s2)
  end.
  { destruct (_ || _); [eapply grows_trans; [apply grows_addToObject1 |
                                              apply grows_setObjectColor] |
                         apply grows_addToObject1]. }
  split; [lia |]. eapply grows_trans; [exact Hg | exact IHg].
Qed.

Lemma load_subframes_length subframe_count i sf :
  String.length (buf (load_subframes subframe_count i sf).2) ≤ String.length (buf i).
Proof.
  revert i sf. induction subframe_count as [| n IH]; intros i sf; simpl; [lia |].
  destruct (good i && negb (eof i)); [| simpl; lia].
  pose proof (extract_string_length i EmptyString) as H1.
  destruct (extract_string i EmptyString) as [name i1]. simpl in H1.
  pose proof (readPoseFromText_length i1) as H2.
  destruct (readPoseFromText i1) as [[pose |] i2]; simpl in H2; [| simpl; lia].
  specialize (IH i2 (<[name := pose]> sf)). lia.
Qed.

(** One round of the main loop: the name of the scene and the objects of
    the world are kept; a round that goes on has put its object into the
    world and has used up some of the text. *)
Lemma load_step_spec (uses_new_scene_format : bool) offset i s :
  match load_step uses_new_scene_format offset i s with
  | Return _ s' => grows s s'
  | Continue object_id i' s' =>
      grows s s' ∧ is_Some (world_ s' !! object_id)
      ∧ String.length (buf i') < String.length (buf i)
  end.
Proof.
  unfold load_step.
  pose proof (extract_string_length_lt i EmptyString) as Hlt.
  destruct (extract_string i EmptyString) as [marker i1]. simpl in Hlt.
  destruct (negb (good i1) || eof i1) eqn:Hg1; [done |].
  assert (Hlt1 : String.length (buf i1) < String.length (buf i)).
  { apply Hlt. apply orb_false_iff in Hg1 as [Hg1 _]. by apply negb_false_iff in Hg1. }
  destruct (bool_decide (marker = "*"%string));
    [| destruct (bool_decide (marker = "."%string)); done].
  pose proof (getline_length i1 EmptyString) as H2.
  destruct (getline i1 EmptyString) as [object_id i2]. simpl in H2.
  destruct (negb (good i2) || eof i2); [done |].
  set (pose_i3 := if uses_new_scene_format then readPoseFromText i2 else (Some Identity, i2)).
  assert (H3 : String.length (buf pose_i3.2) ≤ String.length (buf i2)).
  { subst pose_i3. destruct uses_new_scene_format; [apply readPoseFromText_length | done]. }
  destruct pose_i3 as [[pose |] i3]; simpl in H3; [| done].
  destruct (grows_setObjectPose (trim object_id) (iso_mul offset pose) s) as [Hg Hin].
  set (s1 := setObjectPose (trim object_id) (iso_mul offset pose) s) in *.
  pose proof (extract_num_length num_get_uint i3) as H4.
  destruct (extract_num num_get_uint i3) as [shape_count i4]. simpl in H4.
  destruct (load_shapes_spec (default 0%nat shape_count) (trim object_id) i4 s1)
    as [H5 Hg5].
  destruct (load_shapes (default 0%nat shape_count) (trim object_id) i4 s1)
    as [[ok i5] s2]. simpl in H5, Hg5.
  assert (Hg2 : grows s s2) by (eapply grows_trans; [exact Hg | exact Hg5]).
  assert (Hin2 : is_Some (world_ s2 !! trim object_id)) by by apply Hg5.
  destruct ok; simpl; [| done].
  destruct uses_new_scene_format.
  - pose proof (extract_num_length num_get_uint i5) as H6.
    destruct (extract_num num_get_uint i5) as [subframe_count i6]. simpl in H6.
    pose proof (load_subframes_length (default 0%nat subframe_count) i6 ∅) as H7.
    destruct (load_subframes (default 0%nat subframe_count) i6 ∅) as [[sf |] i7];
      simpl in H7; [| done].
    pose proof (grows_setSubframesOfObject (trim object_id) sf s2) as Hg8.
    split; [eapply grows_trans; [exact Hg2 | exact Hg8] |].
    split; [by apply Hg8 | lia].
  - split; [done |]. split; [done | lia].
Qed.

Lemma load_loop_spec fuel (uses_new_scene_format : bool) offset i s result s' :
  load_loop fuel uses_new_scene_format offset i s = Some (result, s') → grows s s'.
Proof.
  revert i s. induction fuel as [| fuel IH]; intros i s; simpl; [done |].
  pose proof (load_step_spec uses_new_scene_format offset i s) as Hstep.
  destruct (load_step uses_new_scene_format offset i s) as [b s1 | object_id i1 s1].
  - by intros [= -> ->].
  - destruct Hstep as (Hg & _ & _). intros Hloop.
    eapply grows_trans; [exact Hg | exact (IH i1 s1 Hloop)].
Qed.

(** The main loop returns within as many rounds as the text has characters,
    plus one. *)
Lemma load_loop_returns fuel (uses_new_scene_format : bool) offset i s :
  String.length (buf i) < fuel →
  is_Some (load_loop fuel uses_new_scene_format offset i s).
Proof.
  revert i s. induction fuel as [| fuel IH]; intros i s Hlen; simpl; [lia |].
  pose proof (load_step_spec uses_new_scene_format offset i s) as Hstep.
  destruct (load_step uses_new_scene_format offset i s) as [b s1 | object_id i1 s1];
    [eauto |].
  destruct Hstep as (_ & _ & Hlt). apply IH. lia.
Qed.

Lemma getline_good i str :
  good i = true → (getline i str).1 = (take_line (buf i)).1.
Proof.
  intros Hg. unfold getline, sentry. rewrite Hg. simpl.
  by destruct (take_line (buf i)) as [line [rest |]].
Qed.

Lemma load_header_spec i s :
  good i = true →
  name_ (load_header i s).2 = (take_line (buf i)).1
  ∧ world_ (load_header i s).2 = world_ s.
Proof.
  intros Hg. unfold load_header.
  pose proof (getline_good i (name_ s) Hg) as Hn.
  destruct (getline i (name_ s)) as [name i1]. simpl in Hn.
  destruct (tellg i1) as [pos i2].
  destruct (find_marker_line _ i2 EmptyString) as [line i3].
  destruct (getline i3 line) as [line' i4]. simpl. done.
Qed.

(** The main loop of [loadGeometryFromStream] never stops for want of
    rounds: the function returns what the loop returns. *)
Lemma loadGeometryFromStream_loop_returns i offset s :
  is_Some (load_loop (S (String.length (buf (load_header i s).1.2)))
             (load_header i s).1.1 offset (load_header i s).1.2 (load_header i s).2).
Proof. apply load_loop_returns. lia. Qed.

(** The name and the objects a load leaves behind, whatever it returns. *)
Lemma loadGeometryFromStream_effects i offset s :
  good i = true →
  name_ (loadGeometryFromStream i offset s).2 = (take_line (buf i)).1
  ∧ (∀ object_id : string,
       is_Some (world_ s !! object_id) →
       is_Some (world_ (loadGeometryFromStream i offset s).2 !! object_id)).
Proof.
  intros Hg. unfold loadGeometryFromStream.
  assert (negb (good i) || eof i = false) as ->.
  { rewrite Hg. simpl. unfold good in Hg. apply andb_true_iff in Hg as [_ He].
    by apply negb_true_iff in He. }
  destruct (load_header_spec i s Hg) as [Hname Hworld].
  pose proof (loadGeometryFromStream_loop_returns i offset s) as Hret.
  destruct (load_header i s) as [[u i1] s1]. cbn [fst snd] in Hname, Hworld, Hret.
  destruct Hret as [[result s'] Hloop]. rewrite Hloop.
  destruct (load_loop_spec _ _ _ _ _ _ _ Hloop) as [Hn Hw]. cbn [fst snd].
  split; [congruence |].
  intros j Hj. apply Hw. by rewrite Hworld.
Qed.

Lemma world_addToObject1 (n : string) sh p s :
  world_ (addToObject1 n sh p s) = (World_addToObject1 n sh p (world_ s)).1.
Proof.
  unfold addToObject1. destruct (World_addToObject1 n sh p (world_ s)) as [w ns].
  by rewrite world_notify.
Qed.

Lemma world_setObjectPose (n : string) p s :
  world_ (setObjectPose n p s) = (World_setObjectPose n p (world_ s)).1.
Proof.
  unfold setObjectPose. destruct (World_setObjectPose n p (world_ s)) as [w ns].
  by rewrite world_notify.
Qed.

Lemma world_setSubframesOfObject (n : string) sf s :
  world_ (setSubframesOfObject n sf s).2 = (World_setSubframesOfObject n sf (world_ s)).2.
Proof.
  unfold setSubframesOfObject. by destruct (World_setSubframesOfObject n sf (world_ s)).
Qed.

(** The loop over the shapes reads the text as [read_shapes] does, whatever
    the scene, and has added every shape read to the object. *)
Lemma load_shapes_read shape_count (object_id : string) i s :
  (load_shapes shape_count object_id i s).1 = (read_shapes shape_count i).1
  ∧ world_ (load_shapes shape_count object_id i s).2
    = foldl (fun w sp => (World_addToObject1 object_id sp.1 sp.2 w).1) (world_ s)
        (read_shapes shape_count i).2.
Proof.
  revert i s. induction shape_count as [| n IH]; intros i s; simpl; [done |].
  destruct (good i && negb (eof i)); [| done].
  destruct (call_constructShapeFromText i) as [[shape |] i1]; [| done].
  destruct (readPoseFromText i1) as [[pose |] i2]; [| done].
  destruct (readColorFromText i2) as [[[[[r g] b] a] |] i3]; [| done].
  match goal with |- context [load_shapes n object_id i3 ?s2] =>
    destruct (IH i3 s2) as [IH1 IH2]; assert (Hw : world_ s2
      = (World_addToObject1 object_id shape pose (world_ s)).1)
  end.
  { destruct (_ || _); rewrite ?world_setObjectColor; apply world_addToObject1. }
  destruct (read_shapes n i3) as [[ok i4] shapes]. cbn [fst snd] in *.
  split; [exact IH1 |]. by rewrite IH2, Hw.
Qed.

(** One round of the main loop reads as [read_step] does and has made the
    calls on the world for what it has read. *)
Lemma load_step_read (uses_new_scene_format : bool) offset i s :
  match read_step uses_new_scene_format i, load_step uses_new_scene_format offset i s with
  | ReadReturn result read, Return result' s' =>
      result' = result
      ∧ world_ s' = foldl (World_load_record offset) (world_ s) (option_list read)
  | ReadContinue read i', Continue object_id i'' s' =>
      object_id = record_id read ∧ i'' = i'
      ∧ world_ s' = World_load_record offset (world_ s) read
  | _, _ => False
  end.
Proof.
  unfold read_step, load_step.
  destruct (extract_string i EmptyString) as [marker i1].
  destruct (negb (good i1) || eof i1); [done |].
  destruct (bool_decide (marker = "*"%string));
    [| destruct (bool_decide (marker = "."%string)); done].
  destruct (getline i1 EmptyString) as [object_id i2].
  destruct (negb (good i2) || eof i2); [done |].
  destruct (if uses_new_scene_format then readPoseFromText i2 else (Some Identity, i2))
    as [[pose |] i3]; [| done].
  destruct (extract_num num_get_uint i3) as [shape_count i4].
  destruct (load_shapes_read (default 0%nat shape_count) (trim object_id) i4
              (setObjectPose (trim object_id) (iso_mul offset pose) s)) as [H1 H2].
  rewrite world_setObjectPose in H2.
  destruct (load_shapes _ _ i4 _) as [[ok i5] s2].
  destruct (read_shapes _ i4) as [[ok' i5'] shapes].
  cbn [fst snd] in H1, H2. injection H1 as -> ->.
  destruct ok'; cbn [negb]; [| by split].
  destruct uses_new_scene_format; [| by split].
  destruct (extract_num num_get_uint i5') as [subframe_count i6].
  destruct (load_subframes _ i6 ∅) as [[sf |] i7]; [| by split].
  split; [done |]. split; [done |].
  rewrite world_setSubframesOfObject, H2. reflexivity.
Qed.

Lemma load_loop_read fuel (uses_new_scene_format : bool) offset i s result s' :
  load_loop fuel uses_new_scene_format offset i s = Some (result, s') →
  world_ s'
  = foldl (World_load_record offset) (world_ s) (read_records fuel uses_new_scene_format i).
Proof.
  revert i s. induction fuel as [| fuel IH]; intros i s; simpl; [done |].
  pose proof (load_step_read uses_new_scene_format offset i s) as Hstep.
  destruct (read_step uses_new_scene_format i) as [b read | read i1];
    destruct (load_step uses_new_scene_format offset i s) as [b' s1 | object_id i1' s1];
    try done.
  - destruct Hstep as [_ Hw]. by intros [= _ <-].
  - destruct Hstep as (_ & -> & Hw). intros Hloop.
    rewrite (IH _ _ Hloop), Hw. reflexivity.
Qed.

(** The calls on the world never take a shape away. *)
Lemma World_holds_setObjectPose (n : string) p w r :
  World_holds w r → World_holds (World_setObjectPose n p w).1 r.
Proof.
  intros (o & l1 & l2 & p1 & p2 & Ho & Hs & Hp & Hl).
  unfold World_setObjectPose.
  destruct (decide (n = record_id r)) as [-> | Hne].
  - rewrite Ho. cbn [fst].
    exists (mkObject p (shapes_ o) (shape_poses_ o) (subframe_poses_ o)), l1, l2, p1, p2.
    by rewrite lookup_insert_eq.
  - exists o, l1, l2, p1, p2.
    destruct (w !! n); cbn [fst]; by rewrite lookup_insert_ne.
Qed.

Lemma World_holds_addToObject1 (n : string) sh p w r :
  World_holds w r → World_holds (World_addToObject1 n sh p w).1 r.
Proof.
  intros (o & l1 & l2 & p1 & p2 & Ho & Hs & Hp & Hl).
  unfold World_addToObject1.
  destruct (decide (n = record_id r)) as [-> | Hne].
  - rewrite Ho. cbn [fst].
    exists (mkObject (pose_ o) (shapes_ o ++ [sh]) (shape_poses_ o ++ [p])
              (subframe_poses_ o)), l1, (l2 ++ [sh]), p1, (p2 ++ [p]).
    rewrite lookup_insert_eq. cbn [shapes_ shape_poses_].
    rewrite Hs, Hp, <- !(assoc_L _), !length_app, Hl. done.
  - exists o, l1, l2, p1, p2.
    destruct (w !! n); cbn [fst]; by rewrite lookup_insert_ne.
Qed.

Lemma World_holds_setSubframesOfObject (n : string) sf w r :
  World_holds w r → World_holds (World_setSubframesOfObject n sf w).2 r.
Proof.
  intros (o & l1 & l2 & p1 & p2 & Ho & Hs & Hp & Hl).
  unfold World_setSubframesOfObject.
  destruct (decide (n = record_id r)) as [-> | Hne].
  - rewrite Ho. cbn [snd].
    exists (mkObject (pose_ o) (shapes_ o) (shape_poses_ o) sf), l1, l2, p1, p2.
    by rewrite lookup_insert_eq.
  - destruct (w !! n); cbn [snd]; [| by exists o, l1, l2, p1, p2].
    exists o, l1, l2, p1, p2. by rewrite lookup_insert_ne.
Qed.

Lemma World_holds_add_shapes (n : string) (l : list (Shape * Isometry3d)) w r :
  World_holds w r →
  World_holds (foldl (fun w sp => (World_addToObject1 n sp.1 sp.2 w).1) w l) r.
Proof.
  revert w. induction l as [| sp l IH]; intros w H; simpl; [done |].
  apply IH. by apply World_holds_addToObject1.
Qed.

Lemma World_holds_load_record_other offset w r r' :
  World_holds w r → World_holds (World_load_record offset w r') r.
Proof.
  intros H. unfold World_load_record.
  destruct (record_subframes r').
  - by apply World_holds_setSubframesOfObject, World_holds_add_shapes,
      World_holds_setObjectPose.
  - by apply World_holds_add_shapes, World_holds_setObjectPose.
Qed.

(** The shapes added one after the other to an object that is there. *)
Lemma add_shapes_existing (n : string) (l : list (Shape * Isometry3d)) w o :
  w !! n = Some o →
  foldl (fun w sp => (World_addToObject1 n sp.1 sp.2 w).1) w l !! n
  = Some (mkObject (pose_ o) (shapes_ o ++ l.*1) (shape_poses_ o ++ l.*2)
            (subframe_poses_ o)).
Proof.
  revert w o. induction l as [| [sh p] l IH]; intros w o Ho; simpl.
  - rewrite !app_nil_r, Ho. by destruct o.
  - unfold World_addToObject1 at 2. rewrite Ho. cbn [fst snd].
    erewrite IH by apply lookup_insert_eq. cbn [pose_ shapes_ shape_poses_ subframe_poses_].
    by rewrite <- !(assoc_L _).
Qed.

Lemma World_holds_load_record offset w r : World_holds (World_load_record offset w r) r.
Proof.
  unfold World_load_record.
  set (w1 := (World_setObjectPose _ _ w).1).
  assert (∃ o, w1 !! record_id r = Some o) as [o Ho].
  { subst w1. unfold World_setObjectPose.
    destruct (w !! record_id r); cbn [fst]; rewrite lookup_insert_eq; eauto. }
  assert (H : World_holds
                (foldl (fun w sp => (World_addToObject1 (record_id r) sp.1 sp.2 w).1) w1
                   (record_shapes r)) r).
  { eexists _, (shapes_ o), [], (shape_poses_ o), [].
    rewrite (add_shapes_existing _ _ _ _ Ho). cbn [shapes_ shape_poses_].
    by rewrite !app_nil_r. }
  destruct (record_subframes r); [by apply World_holds_setSubframesOfObject | done].
Qed.

Lemma World_holds_load_records offset (l : list ObjectRecord) w r :
  World_holds w r ∨ r ∈ l → World_holds (foldl (World_load_record offset) w l) r.
Proof.
  revert w. induction l as [| r' l IH]; intros w [H | H]; simpl.
  - done.
  - by apply elem_of_nil in H.
  - apply IH. left. by apply World_holds_load_record_other.
  - apply IH. apply elem_of_cons in H as [-> | H]; [left | by right].
    apply World_holds_load_record.
Qed.

(** The world a load leaves behind, whatever it returns: the calls for
    every record read have been made on the world it started from. *)
Lemma loadGeometryFromStream_world i offset s :
  good i = true →
  world_ (loadGeometryFromStream i offset s).2
  = foldl (World_load_record offset) (world_ s) (loadGeometryFromStream_records i s).
Proof.
  intros Hg. unfold loadGeometryFromStream, loadGeometryFromStream_records.
  assert (negb (good i) || eof i = false) as ->.
  { rewrite Hg. simpl. unfold good in Hg. apply andb_true_iff in Hg as [_ He].
    by apply negb_true_iff in He. }
  destruct (load_header_spec i s Hg) as [_ Hworld].
  pose proof (loadGeometryFromStream_loop_returns i offset s) as Hret.
  destruct (load_header i s) as [[u i1] s1]. cbn [fst snd] in Hworld, Hret.
  destruct Hret as [[result s'] Hloop]. rewrite Hloop. cbn [snd].
  by rewrite (load_loop_read _ _ _ _ _ _ _ Hloop), Hworld.
Qed.

(** C10. A load that fails after the stream was found good has not undone
    what it did before the error.  The scene bears the name read from the
    first line of the text.  The world is the world the load started from
    with the calls made for every object record read, the one the error
    came in included: [setObjectPose], [addToObject] for each shape and
    [setSubframesOfObject].  So every object read before the error is in
    the world with the shapes and shape poses read for it, and every object
    that was there before is still there. *)
Theorem loadGeometryFromStream_not_atomic i offset s :
  good i = true →
  (loadGeometryFromStream i offset s).1 = false →
  name_ (loadGeometryFromStream i offset s).2 = (take_line (buf i)).1
  ∧ world_ (loadGeometryFromStream i offset s).2
    = foldl (World_load_record offset) (world_ s) (loadGeometryFromStream_records i s)
  ∧ (∀ r, r ∈ loadGeometryFromStream_records i s →
          World_holds (world_ (loadGeometryFromStream i offset s).2) r)
  ∧ (∀ object_id : string,
       World_hasObject object_id (world_ s) = true →
       World_hasObject object_id (world_ (loadGeometryFromStream i offset s).2) = true).
Proof.
  intros Hg _. destruct (loadGeometryFromStream_effects i offset s Hg) as (Hn & Hw).
  pose proof (loadGeometryFromStream_world i offset s Hg) as Hworld.
  split; [done |]. split; [done |]. split.
  - intros r Hr. rewrite Hworld. apply World_holds_load_records. by right.
  - intros j Hj. unfold World_hasObject in *.
    apply bool_decide_eq_true. apply bool_decide_eq_true in Hj. by apply Hw.
Qed.

End Loader.

Section LoaderAtConcrete.
#[local] Existing Instance Concrete.ZExternal.
#[local] Existing Instance Concrete.ZCollaborators.

(** The text with the unknown marker after the record of [table]: the load
    fails, the scene is called [kitchen] and the world holds [table] with
    the box read for it. *)
Lemma loadGeometryFromStream_not_atomic_witness :
  (loadGeometryFromStream Concrete.bad_geometry Concrete.no_offset Concrete.empty_scene).1
  = false
  ∧ name_ (loadGeometryFromStream Concrete.bad_geometry Concrete.no_offset
             Concrete.empty_scene).2
    = "kitchen"%string
  ∧ world_ (loadGeometryFromStream Concrete.bad_geometry Concrete.no_offset
              Concrete.empty_scene).2 !! "table"%string
    = Some (mkObject 0%Z ["box"%string] [3%Z] ∅).
Proof.
  assert (Hfail : (loadGeometryFromStream Concrete.bad_geometry Concrete.no_offset
                     Concrete.empty_scene).1 = false) by (vm_compute; reflexivity).
  destruct (loadGeometryFromStream_not_atomic Concrete.bad_geometry Concrete.no_offset
              Concrete.empty_scene eq_refl Hfail) as (Hname & Hworld & _ & _).
  split; [exact Hfail |]. split; [rewrite Hname; reflexivity |].
  rewrite Hworld. vm_compute. reflexivity.
Defined.

End LoaderAtConcrete.

(** ** Colors of objects, read and written *)

Section Colors.
Context {ext : External} {col : Collaborators}.
Implicit Types (s : PlanningScene).

(** Induction along the chain of parents. *)
Lemma parent_ind (P : PlanningScene → Prop) :
  (∀ s, (∀ p, parent_ s = Some p → P p) → P s) → ∀ s, P s.
Proof.
  intros H. fix IH 1. intros s. apply H. intros p Hp.
  destruct s as [? [q |] ? ? ? ? ? ? ? ? ? ? ? ?]; simpl in Hp; [| discriminate].
  assert (Hq : P q) by apply IH.
  injection Hp as <-. exact Hq.
Qed.

Lemma hasObjectColor_getObjectColor s (object_id : string) :
  hasObjectColor s object_id = bool_decide (is_Some (getObjectColor s object_id)).
Proof.
  induction s as [s IH] using parent_ind.
  destruct s as [? [p |] ? ? ? ? ? ? [m |] ? ? ? ? ?]; simpl in *;
    try destruct (m !! object_id) as [c |] eqn:Hm; simpl;
    rewrite ?bool_decide_eq_true_2 by eauto;
    rewrite ?(bool_decide_eq_false_2 (is_Some None)) by (by intros [? ?]);
    try done; by apply IH.
Qed.

(** X2. After [setObjectColor] with a non-empty id the object has that
    color ([getObjectColor] gives it and [hasObjectColor] holds), and the
    colors of all other ids read as before. *)
Theorem setObjectColor_getObjectColor s (object_id : string) color :
  object_id ≠ ""%string →
  getObjectColor (setObjectColor object_id color s) object_id = Some color
  ∧ hasObjectColor (setObjectColor object_id color s) object_id = true
  ∧ (∀ j : string, j ≠ object_id →
       getObjectColor (setObjectColor object_id color s) j = getObjectColor s j
       ∧ hasObjectColor (setObjectColor object_id color s) j = hasObjectColor s j).
Proof.
  intros Hne.
  assert (Hget : getObjectColor (setObjectColor object_id color s) object_id = Some color).
  { unfold setObjectColor. rewrite bool_decide_eq_false_2 by done.
    destruct s as [? p ? ? ? ? ? ? oc [oo |] ? ? ? ?]; cbn;
      repeat case_match; cbn; by rewrite lookup_insert_eq. }
  assert (Hoth : ∀ j : string, j ≠ object_id →
            getObjectColor (setObjectColor object_id color s) j = getObjectColor s j).
  { intros j Hj. unfold setObjectColor. rewrite bool_decide_eq_false_2 by done.
    destruct s as [? p ? ? ? ? ? ? [m |] [oo |] ? ? ? ?]; cbn;
      rewrite ?lookup_empty; try destruct (oo !! object_id); cbn;
      rewrite ?lookup_insert_ne by done; rewrite ?lookup_empty; done. }
  split; [done |]. split.
  - rewrite hasObjectColor_getObjectColor, Hget. by apply bool_decide_eq_true_2.
  - intros j Hj. split; [by apply Hoth |].
    by rewrite !hasObjectColor_getObjectColor, Hoth.
Qed.

(** X3. [removeObjectColor] erases the local entry only: afterwards the id
    reads the color its parent gives it (none without parent), so a fork
    cannot hide a color of its parent; other ids read as before. *)
Theorem removeObjectColor_reads_parent s (object_id : string) :
  getObjectColor (removeObjectColor object_id s) object_id
  = match parent_ s with Some p => getObjectColor p object_id | None => None end
  ∧ (∀ j : string, j ≠ object_id →
       getObjectColor (removeObjectColor object_id s) j = getObjectColor s j).
Proof.
  unfold removeObjectColor.
  destruct s as [? p ? ? ? ? ? ? [m |] ? ? ? ? ?]; cbn.
  - rewrite lookup_delete_eq. split; [done |]. intros j Hj.
    by rewrite lookup_delete_ne.
  - done.
Qed.

Lemma getOriginalObjectColor_removeObjectColor (i j : string) s :
  getOriginalObjectColor (removeObjectColor i s) j = getOriginalObjectColor s j.
Proof. unfold removeObjectColor. by destruct (object_colors_ s). Qed.

(** X4. The original color of an object is the first color set for it: a
    later [setObjectColor] does not change it, also not after a
    [removeObjectColor] in between. *)
Theorem original_color_recorded_once (object_id : string) c1 c2 s :
  object_id ≠ ""%string → getOriginalObjectColor s object_id = None →
  let s1 := setObjectColor object_id c1 s in
  getOriginalObjectColor s1 object_id = Some c1
  ∧ getOriginalObjectColor (setObjectColor object_id c2 s1) object_id = Some c1
  ∧ getOriginalObjectColor
      (setObjectColor object_id c2 (removeObjectColor object_id s1)) object_id = Some c1.
Proof.
  intros Hne Hnone s1.
  assert (H1 : getOriginalObjectColor s1 object_id = Some c1)
    by (by apply setObjectColor_records_first).
  split; [done |]. split.
  - by apply setObjectColor_keeps_original.
  - apply setObjectColor_keeps_original.
    by rewrite getOriginalObjectColor_removeObjectColor.
Qed.

End Colors.

(** ** What the collision object messages do to the world *)

Section WorldEffects.
Context {ext : External} {col : Collaborators}.
Implicit Types (s : PlanningScene) (object : CollisionObject) (o : Object).

(** *** Shapes and poses of a message *)

Lemma append_shapes sw st sh pm :
  (append sw st sh pm).1.2 = st.1.2 ++ option_list sh
  ∧ (length st.1.2 = length st.2 →
     length (append sw st sh pm).1.2 = length (append sw st sh pm).2).
Proof.
  destruct st as [[p shs] sps], sh as [x |]; simpl.
  - destruct sw; simpl; rewrite !length_app; simpl; split; (done || lia).
  - by rewrite app_nil_r.
Qed.

Lemma foldl_append_shapes {A} sw (f : A → option Shape)
    (F : Isometry3d * list Shape * list Isometry3d → nat * A →
         Isometry3d * list Shape * list Isometry3d) (l : list (nat * A)) st :
  (∀ st ish, ∃ pm, F st ish = append sw st (f ish.2) pm) →
  (foldl F st l).1.2 = st.1.2 ++ omap (λ ish, f ish.2) l
  ∧ (length st.1.2 = length st.2 →
     length (foldl F st l).1.2 = length (foldl F st l).2).
Proof.
  intros HF. revert st. induction l as [| ish l IH]; intros st; simpl.
  - by rewrite app_nil_r.
  - destruct (HF st ish) as [pm ->].
    destruct (IH (append sw st (f ish.2) pm)) as [IH1 IH2].
    destruct (append_shapes sw st (f ish.2) pm) as [A1 A2].
    split.
    + rewrite IH1, A1, <- app_assoc. f_equal.
      by destruct (f ish.2).
    + intros Hlen. by apply IH2, A2.
Qed.

Lemma omap_imap_snd {A} (f : A → option Shape) (g : nat → A → nat * A) (l : list A) :
  (∀ i x, (g i x).2 = x) →
  omap (λ ish : nat * A, f ish.2) (imap g l) = omap f l.
Proof.
  revert g. induction l as [| x l IH]; intros g Hg; simpl; [done |].
  rewrite Hg, IH; [done |]. intros i y. apply Hg.
Qed.

Lemma treat_shape_vectors_shapes {A} (f : A → option Shape) sw (v : list A) pv st :
  (treat_shape_vectors f sw v pv st).1.2 = st.1.2 ++ omap f v
  ∧ (length st.1.2 = length st.2 →
     length (treat_shape_vectors f sw v pv st).1.2
     = length (treat_shape_vectors f sw v pv st).2).
Proof.
  unfold treat_shape_vectors.
  rewrite <- (omap_imap_snd f pair v) by done.
  destruct (_ <? _)%nat; apply (foldl_append_shapes sw); intros st' ish;
    try destruct (_ <=? _)%nat; eauto.
Qed.

(** The shapes a message gives: the ones that can be constructed, the
    primitives first, then the meshes, then the planes; with as many poses. *)
Lemma shapesAndPoses_shapes object p sh sp :
  shapesAndPosesFromCollisionObjectMessage object = Some (p, sh, sp) →
  sh = omap constructShapeFromMsg_primitive (primitives object)
       ++ omap constructShapeFromMsg_mesh (meshes object)
       ++ omap constructShapeFromMsg_plane (planes object)
  ∧ length sh = length sp.
Proof.
  unfold shapesAndPosesFromCollisionObjectMessage.
  repeat (destruct (_ <? _)%nat; [done |]).
  set (sw := _ && _). set (op := if sw then _ else _).
  intros [= H].
  destruct (treat_shape_vectors_shapes constructShapeFromMsg_primitive sw
              (primitives object) (primitive_poses object) (op, [], [])) as [A1 A2].
  set (st1 := treat_shape_vectors constructShapeFromMsg_primitive sw _ _ _) in *.
  destruct (treat_shape_vectors_shapes constructShapeFromMsg_mesh sw
              (meshes object) (mesh_poses object) st1) as [B1 B2].
  set (st2 := treat_shape_vectors constructShapeFromMsg_mesh sw _ _ _) in *.
  destruct (treat_shape_vectors_shapes constructShapeFromMsg_plane sw
              (planes object) (plane_poses object) st2) as [C1 C2].
  rewrite H in C1, C2. simpl in *.
  split.
  - rewrite C1, B1, A1. by rewrite <- app_assoc.
  - apply C2, B2, A2. done.
Qed.


(** X5. [shapesAndPosesFromCollisionObjectMessage] fails exactly when one
    kind of shape has more poses than shapes; otherwise the shapes are those
    that can be constructed, the primitives first, then the meshes, then
    the planes, with as many shape poses. *)
Theorem shapesAndPosesFromCollisionObjectMessage_result object :
  (shapesAndPosesFromCollisionObjectMessage object = None
   ↔ (length (primitives object) < length (primitive_poses object)
      ∨ length (meshes object) < length (mesh_poses object)
      ∨ length (planes object) < length (plane_poses object))%nat)
  ∧ (∀ p sh sp,
       shapesAndPosesFromCollisionObjectMessage object = Some (p, sh, sp) →
       sh = omap constructShapeFromMsg_primitive (primitives object)
            ++ omap constructShapeFromMsg_mesh (meshes object)
            ++ omap constructShapeFromMsg_plane (planes object)
       ∧ length sp = length sh).
Proof.
  split.
  - unfold shapesAndPosesFromCollisionObjectMessage.
    destruct (_ <? _)%nat eqn:E1; [apply Nat.ltb_lt in E1; tauto |].
    destruct (length (meshes object) <? _)%nat eqn:E2; [apply Nat.ltb_lt in E2; tauto |].
    destruct (length (planes object) <? _)%nat eqn:E3; [apply Nat.ltb_lt in E3; tauto |].
    apply Nat.ltb_ge in E1, E2, E3. split; [done | lia].
  - intros p sh sp H. apply shapesAndPoses_shapes in H as [-> H]. done.
Qed.

(** X6. A message of one primitive, with at most one pose for it: when the
    pose of the message is empty, the pose of the shape becomes the object
    pose and the shape pose is the identity; otherwise the object pose is
    the pose of the message.  A missing shape pose is the default pose. *)
Theorem shapesAndPosesFromCollisionObjectMessage_single_shape object m sh :
  primitives object = [m] → meshes object = [] → planes object = [] →
  (length (primitive_poses object) ≤ 1)%nat →
  mesh_poses object = [] → plane_poses object = [] →
  constructShapeFromMsg_primitive m = Some sh →
  let shape_pose := poseMsgToEigen (default Pose_default (primitive_poses object !! 0%nat)) in
  shapesAndPosesFromCollisionObjectMessage object
  = Some (if isEmpty (pose object)
          then (shape_pose, [sh], [Identity])
          else (poseMsgToEigen (pose object), [sh], [shape_pose])).
Proof.
  intros Hp Hm Hpl Hpp Hmp Hplp Hsh.
  unfold shapesAndPosesFromCollisionObjectMessage, treat_shape_vectors.
  rewrite Hp, Hm, Hpl, Hmp, Hplp. cbn.
  destruct (primitive_poses object) as [| x [| y l]]; cbn in *; [| | lia];
    rewrite Hsh; by destruct (isEmpty (pose object)).
Qed.

(** *** The world after one step *)

Lemma removeObject_absent (i : string) s :
  world_ s !! i = None → removeObject i s = (false, s).
Proof.
  unfold removeObject, World_removeObject. intros ->.
  by destruct s as [? ? ? ? [d |] ? ? ? ? ? ? ? ? ?].
Qed.

Lemma removeObject_found (i : string) s :
  (removeObject i s).1 = World_hasObject i (world_ s).
Proof.
  unfold removeObject, World_removeObject, World_hasObject.
  destruct (world_ s !! i) eqn:E; cbn [fst]; symmetry.
  - by apply bool_decide_eq_true_2.
  - apply bool_decide_eq_false_2. by intros [? ?].
Qed.

Lemma world_addToObject_new (i : string) p sh sp s :
  world_ s !! i = None → length sh = length sp → sh ≠ [] →
  world_ (addToObject i p sh sp s) = <[i := mkObject p sh sp ∅]> (world_ s).
Proof.
  intros E Hlen Hsh. unfold addToObject, World_addToObject.
  rewrite <- Hlen, Nat.eqb_refl. cbn [negb].
  rewrite bool_decide_eq_false_2 by (by destruct sh).
  by rewrite E.
Qed.

Lemma world_addToObject_existing (i : string) p sh sp s o :
  world_ s !! i = Some o → length sh = length sp → sh ≠ [] →
  world_ (addToObject i p sh sp s)
  = <[i := mkObject (pose_ o) (shapes_ o ++ sh) (shape_poses_ o ++ sp) (subframe_poses_ o)]>
      (world_ s).
Proof.
  intros E Hlen Hsh. unfold addToObject, World_addToObject.
  rewrite <- Hlen, Nat.eqb_refl. cbn [negb].
  rewrite bool_decide_eq_false_2 by (by destruct sh).
  by rewrite E.
Qed.

Lemma world_addToObject_nothing (i : string) p sp s :
  world_ (addToObject i p [] sp s) = world_ s.
Proof.
  unfold addToObject, World_addToObject. destruct sp; cbn; done.
Qed.

Lemma world_setSubframesOfObject_existing (i : string) sf s o :
  world_ s !! i = Some o →
  world_ (setSubframesOfObject i sf s).2
  = <[i := mkObject (pose_ o) (shapes_ o) (shape_poses_ o) sf]> (world_ s).
Proof. intros E. unfold setSubframesOfObject, World_setSubframesOfObject. by rewrite E. Qed.

Lemma world_setSubframesOfObject_absent (i : string) sf s :
  world_ s !! i = None → world_ (setSubframesOfObject i sf s).2 = world_ s.
Proof. intros E. unfold setSubframesOfObject, World_setSubframesOfObject. by rewrite E. Qed.

Lemma shapes_not_nil object p sh sp :
  shapesAndPosesFromCollisionObjectMessage object = Some (p, sh, sp) → sh ≠ [] →
  is_nil (primitives object) && is_nil (meshes object) && is_nil (planes object) = false.
Proof.
  intros H Hsh. apply shapesAndPoses_shapes in H as [-> _].
  destruct (primitives object), (meshes object), (planes object); done.
Qed.

(** The scene an [ADD] builds the object in. *)
Lemma processCollisionObjectAdd_ADD_start object s :
  operation object = ADD →
  (if (operation object =? ADD)%Z && World_hasObject (id object) (world_ s)
   then (removeObject (id object) s).2 else s) = (removeObject (id object) s).2.
Proof.
  intros ->. cbn. destruct (World_hasObject _ _) eqn:E; [done |].
  rewrite removeObject_absent; [done |].
  apply bool_decide_eq_false in E. by apply eq_None_not_Some.
Qed.

Lemma parent_removeObject (i : string) s : parent_ (removeObject i s).2 = parent_ s.
Proof. unfold removeObject, World_removeObject. by destruct (world_ s !! i). Qed.

Lemma world_diff_getFrameTransform (f : string) s :
  world_diff_ (getFrameTransform f s).2 = world_diff_ s
  ∧ parent_ (getFrameTransform f s).2 = parent_ s.
Proof. unfold getFrameTransform. by destruct (kin_dirtyLinkTransforms _). Qed.

(** X7. An [ADD] in a known frame, with a non-reserved id, at least one
    shape that can be constructed and a name for every subframe pose,
    succeeds and leaves under its id exactly the object of the message: the
    pose is the frame transform times the pose of the message, with the
    shapes, shape poses and subframes of the message.  What the id held
    before is replaced; the other objects are untouched. *)
Theorem processCollisionObjectMsg_ADD_replaces object s p sh sp :
  operation object = ADD → id object ≠ OCTOMAP_NS →
  knowsFrameTransform s (header_frame_id object) = true →
  shapesAndPosesFromCollisionObjectMessage object = Some (p, sh, sp) →
  sh ≠ [] →
  length (subframe_poses object) ≤ length (subframe_names object) →
  let t := (getFrameTransform (header_frame_id object) (removeObject (id object) s).2).1 in
  (processCollisionObjectMsg object s).1 = true
  ∧ world_ (processCollisionObjectMsg object s).2
    = <[id object := mkObject (iso_mul t p) sh sp (subframes_of_message object)]> (world_ s).
Proof.
  intros Hop Hid Hknows Hsp Hsh _ t.
  unfold processCollisionObjectMsg. rewrite bool_decide_eq_false_2 by done.
  assert ((operation object =? ADD)%Z || (operation object =? APPEND)%Z = true) as ->
    by (by rewrite Hop).
  unfold processCollisionObjectAdd. rewrite Hknows. cbn [negb].
  rewrite (shapes_not_nil _ _ _ _ Hsp Hsh).
  rewrite processCollisionObjectAdd_ADD_start by done.
  pose proof (world_getFrameTransform (header_frame_id object)
                (removeObject (id object) s).2) as Hw.
  subst t. destruct (getFrameTransform _ _) as [t s2]. cbn [fst snd] in *.
  rewrite world_removeObject in Hw.
  rewrite Hsp. cbn [fst snd].
  split; [done |].
  destruct (shapesAndPoses_shapes _ _ _ _ Hsp) as [_ Hlen].
  set (s3 := addToObject _ _ _ _ s2).
  assert (Hw3 : world_ s3 = <[id object := mkObject (iso_mul t p) sh sp ∅]> (world_ s)).
  { subst s3. rewrite world_addToObject_new; try done.
    - by rewrite Hw, insert_delete_eq.
    - by rewrite Hw, lookup_delete_eq. }
  set (s4 := if negb _ || negb _ then setObjectType _ _ s3 else s3).
  assert (Hw4 : world_ s4 = world_ s3) by (subst s4; by destruct (_ || _)).
  erewrite world_setSubframesOfObject_existing; last first.
  { rewrite Hw4, Hw3. apply lookup_insert_eq. }
  by rewrite Hw4, Hw3, insert_insert_eq.
Qed.

(** X8. An accepted [APPEND] onto an existing object, from a message with
    a name for every subframe pose, keeps the pose of the object, appends
    the shapes and shape poses of the message to the ones it has, and
    replaces its subframes by those of the message. *)
Theorem processCollisionObjectMsg_APPEND_extends object s o p sh sp :
  operation object = APPEND → id object ≠ OCTOMAP_NS →
  knowsFrameTransform s (header_frame_id object) = true →
  shapesAndPosesFromCollisionObjectMessage object = Some (p, sh, sp) →
  sh ≠ [] →
  length (subframe_poses object) ≤ length (subframe_names object) →
  world_ s !! id object = Some o →
  (processCollisionObjectMsg object s).1 = true
  ∧ world_ (processCollisionObjectMsg object s).2
    = <[id object := mkObject (pose_ o) (shapes_ o ++ sh) (shape_poses_ o ++ sp)
                       (subframes_of_message object)]> (world_ s).
Proof.
  intros Hop Hid Hknows Hsp Hsh _ Ho.
  unfold processCollisionObjectMsg. rewrite bool_decide_eq_false_2 by done.
  assert ((operation object =? ADD)%Z || (operation object =? APPEND)%Z = true) as ->
    by (by rewrite Hop).
  unfold processCollisionObjectAdd. rewrite Hknows. cbn [negb].
  rewrite (shapes_not_nil _ _ _ _ Hsp Hsh).
  assert ((operation object =? ADD)%Z = false) as -> by (by rewrite Hop).
  cbn [andb].
  pose proof (world_getFrameTransform (header_frame_id object) s) as Hw.
  destruct (getFrameTransform _ _) as [t s2]. cbn [fst snd] in *.
  rewrite Hsp. cbn [fst snd].
  split; [done |].
  destruct (shapesAndPoses_shapes _ _ _ _ Hsp) as [_ Hlen].
  set (s3 := addToObject _ _ _ _ s2).
  assert (Hw3 : world_ s3
            = <[id object := mkObject (pose_ o) (shapes_ o ++ sh) (shape_poses_ o ++ sp)
                               (subframe_poses_ o)]> (world_ s)).
  { subst s3. rewrite (world_addToObject_existing _ _ _ _ _ o); try done.
    - by rewrite Hw.
    - by rewrite Hw. }
  set (s4 := if negb _ || negb _ then setObjectType _ _ s3 else s3).
  assert (Hw4 : world_ s4 = world_ s3) by (subst s4; by destruct (_ || _)).
  erewrite world_setSubframesOfObject_existing; last first.
  { rewrite Hw4, Hw3. apply lookup_insert_eq. }
  by rewrite Hw4, Hw3, insert_insert_eq.
Qed.

(** X9. An [ADD] with more poses than shapes in one kind fails after the
    object it was to replace has been removed: the result is [false] and the
    world no longer holds the id. *)
Theorem processCollisionObjectMsg_ADD_failure_removes object s :
  operation object = ADD → id object ≠ OCTOMAP_NS →
  knowsFrameTransform s (header_frame_id object) = true →
  is_nil (primitives object) && is_nil (meshes object) && is_nil (planes object) = false →
  shapesAndPosesFromCollisionObjectMessage object = None →
  (processCollisionObjectMsg object s).1 = false
  ∧ world_ (processCollisionObjectMsg object s).2 = delete (id object) (world_ s).
Proof.
  intros Hop Hid Hknows Hnil Hsp.
  unfold processCollisionObjectMsg. rewrite bool_decide_eq_false_2 by done.
  assert ((operation object =? ADD)%Z || (operation object =? APPEND)%Z = true) as ->
    by (by rewrite Hop).
  unfold processCollisionObjectAdd. rewrite Hknows, Hnil. cbn [negb].
  rewrite processCollisionObjectAdd_ADD_start by done.
  pose proof (world_getFrameTransform (header_frame_id object)
                (removeObject (id object) s).2) as Hw.
  destruct (getFrameTransform _ _) as [t s2]. cbn [fst snd] in *.
  rewrite Hsp. cbn [fst snd]. by rewrite Hw, world_removeObject.
Qed.


(** *** Removing objects *)

Lemma getAllowedCollisionMatrix_congr s s' :
  acm_ s' = acm_ s → parent_ s' = parent_ s → robot_model_ s' = robot_model_ s →
  getAllowedCollisionMatrix s' = getAllowedCollisionMatrix s.
Proof. destruct s, s'; simpl; intros -> -> ->; reflexivity. Qed.

Lemma getAllowedCollisionMatrix_removeEntry (i : string) s :
  getAllowedCollisionMatrix (acm_removeEntry_NonConst i s)
  = acm_removeEntry i (getAllowedCollisionMatrix s).
Proof.
  unfold acm_removeEntry_NonConst, getAllowedCollisionMatrixNonConst.
  destruct s as [? [q |] ? ? ? ? ? [m |] ? ? ? ? ? ?]; reflexivity.
Qed.

Lemma getAllowedCollisionMatrix_removeObject (i : string) s :
  getAllowedCollisionMatrix (removeObject i s).2 = getAllowedCollisionMatrix s.
Proof.
  unfold removeObject, World_removeObject.
  destruct (world_ s !! i); by apply getAllowedCollisionMatrix_congr.
Qed.

Lemma getAllowedCollisionMatrix_removeObjectColor (i : string) s :
  getAllowedCollisionMatrix (removeObjectColor i s) = getAllowedCollisionMatrix s.
Proof.
  unfold removeObjectColor. destruct (object_colors_ s); [| done].
  by apply getAllowedCollisionMatrix_congr.
Qed.

Lemma getAllowedCollisionMatrix_removeObjectType (i : string) s :
  getAllowedCollisionMatrix (removeObjectType i s) = getAllowedCollisionMatrix s.
Proof.
  unfold removeObjectType. destruct (object_types_ s); [| done].
  by apply getAllowedCollisionMatrix_congr.
Qed.

Lemma getObjectColor_same_colors s s' (j : string) :
  parent_ s' = parent_ s → object_colors_ s' = object_colors_ s →
  getObjectColor s' j = getObjectColor s j.
Proof. destruct s, s'; simpl; intros -> ->; reflexivity. Qed.

Lemma getObjectColor_removeObject (i j : string) s :
  getObjectColor (removeObject i s).2 j = getObjectColor s j.
Proof.
  unfold removeObject, World_removeObject.
  destruct (world_ s !! i); by apply getObjectColor_same_colors.
Qed.

Lemma getObjectColor_removeObjectType (i j : string) s :
  getObjectColor (removeObjectType i s) j = getObjectColor s j.
Proof.
  unfold removeObjectType. destruct (object_types_ s); [| done].
  by apply getObjectColor_same_colors.
Qed.

Lemma getObjectColor_acm_removeEntry_NonConst (i j : string) s :
  getObjectColor (acm_removeEntry_NonConst i s) j = getObjectColor s j.
Proof.
  unfold acm_removeEntry_NonConst, getAllowedCollisionMatrixNonConst.
  destruct (acm_ s); by apply getObjectColor_same_colors.
Qed.

Lemma getObjectColor_removeObjectColor (i : string) s :
  getObjectColor (removeObjectColor i s) i
  = match parent_ s with Some p => getObjectColor p i | None => None end.
Proof.
  unfold removeObjectColor.
  destruct s as [? p ? ? ? ? ? ? [m |] ? ? ? ? ?]; cbn; [| done].
  by rewrite lookup_delete_eq.
Qed.

(** X10. A [REMOVE] of a named object: when the world has no such object
    the call fails and the scene is unchanged; otherwise it succeeds, the
    object is erased, its local color is dropped (the id reads the color of
    the parent) and its entry is removed from the allowed collision
    matrix. *)
Theorem processCollisionObjectMsg_REMOVE_object object s :
  operation object = REMOVE → id object ≠ OCTOMAP_NS → id object ≠ ""%string →
  (world_ s !! id object = None → processCollisionObjectMsg object s = (false, s))
  ∧ (is_Some (world_ s !! id object) →
     (processCollisionObjectMsg object s).1 = true
     ∧ world_ (processCollisionObjectMsg object s).2 = delete (id object) (world_ s)
     ∧ getObjectColor (processCollisionObjectMsg object s).2 (id object)
       = match parent_ s with Some p => getObjectColor p (id object) | None => None end
     ∧ getAllowedCollisionMatrix (processCollisionObjectMsg object s).2
       = acm_removeEntry (id object) (getAllowedCollisionMatrix s)).
Proof.
  intros Hop Hid Hne.
  unfold processCollisionObjectMsg. rewrite bool_decide_eq_false_2 by done.
  rewrite Hop. cbn [Z.eqb REMOVE ADD APPEND Pos.eqb orb].
  unfold processCollisionObjectRemove. rewrite bool_decide_eq_false_2 by done.
  split.
  - intros E. by rewrite removeObject_absent.
  - intros Hsome.
    pose proof (removeObject_found (id object) s) as Hfound.
    pose proof (world_removeObject (id object) s) as Hw.
    pose proof (getAllowedCollisionMatrix_removeObject (id object) s) as Hacm.
    pose proof (getObjectColor_removeObject (id object) (id object) s) as Hc.
    pose proof (parent_removeObject (id object) s) as Hp.
    destruct (removeObject (id object) s) as [found s1]. cbn [fst snd] in *.
    rewrite Hfound, (proj2 (hasObject_is_Some _ _) Hsome). cbn [negb fst snd].
    split; [done |]. split; [| split].
    + by rewrite world_acm_removeEntry_NonConst, world_removeObjectType,
        world_removeObjectColor.
    + rewrite getObjectColor_acm_removeEntry_NonConst, getObjectColor_removeObjectType,
        getObjectColor_removeObjectColor, Hp. destruct (parent_ s); [| done].
      done.
    + by rewrite getAllowedCollisionMatrix_removeEntry,
        getAllowedCollisionMatrix_removeObjectType,
        getAllowedCollisionMatrix_removeObjectColor, Hacm.
Qed.

Lemma removeAllCollisionObjects_fold (ids : list string) s (j : string) :
  world_ (foldl (fun s object_id =>
                   if negb (bool_decide (object_id = OCTOMAP_NS))
                   then
                     acm_removeEntry_NonConst object_id
                       (removeObjectType object_id
                          (removeObjectColor object_id (removeObject object_id s).2))
                   else s) s ids) !! j
  = if bool_decide (j ∈ ids ∧ j ≠ OCTOMAP_NS) then None else world_ s !! j.
Proof.
  revert s. induction ids as [| i ids IH]; intros s; cbn [foldl].
  - rewrite bool_decide_eq_false_2; [done |]. intros [H _]. by apply elem_of_nil in H.
  - rewrite IH. clear IH.
    destruct (decide (j ∈ ids ∧ j ≠ OCTOMAP_NS)) as [[Hin Hj] | Hnot].
    + rewrite !bool_decide_eq_true_2; [done | |]; split; try done. by right.
    + rewrite (bool_decide_eq_false_2 _ Hnot).
      destruct (decide (i = OCTOMAP_NS)) as [Hi | Hi].
      * rewrite (bool_decide_eq_true_2 _ Hi). cbn [negb].
        rewrite bool_decide_eq_false_2; [done |].
        intros [Hin Hj]. apply elem_of_cons in Hin as [-> | Hin]; [done |]. tauto.
      * rewrite (bool_decide_eq_false_2 _ Hi). cbn [negb].
        rewrite world_acm_removeEntry_NonConst, world_removeObjectType,
          world_removeObjectColor, world_removeObject.
        destruct (decide (j = i)) as [-> | Hji].
        -- rewrite lookup_delete_eq, bool_decide_eq_true_2; [done |].
           split; [by left | done].
        -- rewrite lookup_delete_ne by done.
           rewrite bool_decide_eq_false_2; [done |].
           intros [Hin Hj]. apply elem_of_cons in Hin as [-> | Hin]; [done |]. tauto.
Qed.

(** X11. A [REMOVE] with an empty id succeeds and removes every object of
    the world but the occupancy map. *)
Theorem processCollisionObjectMsg_REMOVE_all object s :
  operation object = REMOVE → id object = ""%string →
  (processCollisionObjectMsg object s).1 = true
  ∧ ∀ j : string,
      world_ (processCollisionObjectMsg object s).2 !! j
      = if bool_decide (j = OCTOMAP_NS) then world_ s !! j else None.
Proof.
  intros Hop Hid.
  unfold processCollisionObjectMsg. rewrite Hid.
  rewrite bool_decide_eq_false_2 by done.
  rewrite Hop. cbn [Z.eqb REMOVE ADD APPEND Pos.eqb orb].
  unfold processCollisionObjectRemove. rewrite Hid.
  rewrite bool_decide_eq_true_2 by done. cbn [fst snd].
  split; [done |]. intros j.
  unfold removeAllCollisionObjects. rewrite removeAllCollisionObjects_fold.
  unfold World_getObjectIds.
  destruct (decide (j = OCTOMAP_NS)) as [-> | Hj].
  - rewrite (bool_decide_eq_true_2 (OCTOMAP_NS = OCTOMAP_NS)) by done.
    rewrite bool_decide_eq_false_2; [done |]. by intros [_ ?].
  - rewrite (bool_decide_eq_false_2 (j = OCTOMAP_NS)) by done.
    destruct (world_ s !! j) as [o |] eqn:E.
    + rewrite bool_decide_eq_true_2; [done |]. split; [| done].
      apply list_elem_of_fmap. exists (j, o). split; [done |].
      by apply elem_of_map_to_list.
    + by destruct (bool_decide _).
Qed.

(** *** Moving objects *)

(** X12. A [MOVE] of an existing object, whose shapes and shape poses agree
    in number, succeeds exactly when it gives no shape pose or as many as
    the object has; then the object is at the frame transform times the
    pose of the message, with the shape poses of the message if it gives
    any (primitive, mesh and plane poses in that order), and its shapes and
    subframes as before. *)
Theorem processCollisionObjectMsg_MOVE_moves object s o :
  operation object = MOVE → id object ≠ OCTOMAP_NS →
  world_ s !! id object = Some o →
  length (shapes_ o) = length (shape_poses_ o) →
  let t := (getFrameTransform (header_frame_id object) s).1 in
  let object_pose := iso_mul t (poseMsgToEigen (pose object)) in
  let shape_poses :=
    (poseMsgToEigen <$> primitive_poses object)
    ++ (poseMsgToEigen <$> mesh_poses object)
    ++ (poseMsgToEigen <$> plane_poses object) in
  ((processCollisionObjectMsg object s).1 = true
   ↔ shape_poses = [] ∨ length shape_poses = length (shape_poses_ o))
  ∧ ((processCollisionObjectMsg object s).1 = true →
     world_ (processCollisionObjectMsg object s).2
     = <[id object := mkObject object_pose (shapes_ o)
                        (if is_nil shape_poses then shape_poses_ o else shape_poses)
                        (subframe_poses_ o)]> (world_ s)).
Proof.
  intros Hop Hid Ho Hlen t object_pose shape_poses.
  unfold processCollisionObjectMsg. rewrite bool_decide_eq_false_2 by done.
  rewrite Hop. cbn [Z.eqb REMOVE ADD APPEND MOVE Pos.eqb orb].
  unfold processCollisionObjectMove.
  rewrite (hasObject_true _ _ _ Ho).
  pose proof (world_getFrameTransform (header_frame_id object) s) as Hw1.
  subst object_pose t.
  destruct (getFrameTransform (header_frame_id object) s) as [t s1].
  cbn [fst snd] in *.
  set (object_pose := iso_mul t (poseMsgToEigen (pose object))).
  assert (Ho1 : world_ s1 !! id object = Some o) by (by rewrite Hw1).
  pose proof (world_setObjectPose_existing _ object_pose _ _ Ho1) as Hw2.
  set (s2 := setObjectPose (id object) object_pose s1) in *.
  rewrite Hw1 in Hw2.
  assert (Hnil : negb (is_nil (primitive_poses object)) || negb (is_nil (mesh_poses object))
                 || negb (is_nil (plane_poses object)) = negb (is_nil shape_poses)).
  { subst shape_poses.
    by destruct (primitive_poses object), (mesh_poses object), (plane_poses object). }
  rewrite Hnil.
  assert (Hsize : (length (primitive_poses object) + length (mesh_poses object)
                   + length (plane_poses object))%nat = length shape_poses).
  { subst shape_poses. rewrite !length_app, !length_fmap. lia. }
  rewrite Hsize.
  destruct (is_nil shape_poses) eqn:Enil; cbn [negb fst snd].
  - split; [| done]. split; [| done]. intros _. left. by destruct shape_poses.
  - unfold World_getObject. rewrite Hw2, lookup_insert_eq. cbn [from_option shape_poses_].
    destruct (length shape_poses =? length (shape_poses_ o))%nat eqn:Eq; cbn [negb].
    + apply Nat.eqb_eq in Eq.
      unfold moveShapesInObject, World_moveShapesInObject.
      rewrite Hw2, lookup_insert_eq. cbn [shapes_ pose_ shape_poses_ subframe_poses_].
      rewrite Hlen, <- Eq, Nat.eqb_refl. cbn [negb fst snd].
      split; [split; [intros _; by right | done] |].
      intros _. cbn. by rewrite insert_insert_eq.
    + apply Nat.eqb_neq in Eq. cbn [fst snd].
      split; [| done]. split; [done |].
      intros [-> | ?]; done.
Qed.

(** *** The occupancy map *)

(** X13. An occupancy map message of type [OcTree] with data replaces the
    occupancy map object: afterwards the reserved id holds one shape, the
    tree of the message, whatever it held before; for both overloads. *)
Theorem processOctomapMsg_replaces s :
  (∀ map : Octomap,
     data map ≠ [] → octomap_id map = "OcTree"%string →
     let t := if bool_decide (octomap_frame_id map = ""%string) then Identity
              else (getFrameTransform (octomap_frame_id map)
                      (removeObject OCTOMAP_NS s).2).1 in
     world_ (processOctomapMsg map s)
     = <[OCTOMAP_NS := mkObject Identity [OcTree (createOctomap map)] [t] ∅]> (world_ s))
  ∧ (∀ map : OctomapWithPose,
       data (octomap map) ≠ [] → octomap_id (octomap map) = "OcTree"%string →
       let t := (getFrameTransform (map_frame_id map) (removeObject OCTOMAP_NS s).2).1 in
       world_ (processOctomapMsg_WithPose map s)
       = <[OCTOMAP_NS := mkObject Identity [OcTree (createOctomap (octomap map))]
                           [iso_mul t (poseMsgToEigen (origin map))] ∅]> (world_ s)).
Proof.
  assert (Hadd : ∀ sh p s2,
            world_ s2 = delete OCTOMAP_NS (world_ s) →
            world_ (addToObject1 OCTOMAP_NS sh p s2)
            = <[OCTOMAP_NS := mkObject Identity [sh] [p] ∅]> (world_ s)).
  { intros sh p s2 Hw. unfold addToObject1, World_addToObject1.
    rewrite Hw, lookup_delete_eq. cbn. by rewrite insert_delete_eq. }
  split.
  - intros map Hd Hid t. unfold processOctomapMsg.
    assert (is_nil (data map) = false) as -> by (by destruct (data map)).
    rewrite bool_decide_eq_true_2 by done. cbn [negb]. subst t.
    destruct (bool_decide (octomap_frame_id map = ""%string)); cbn [negb].
    + apply Hadd, world_removeObject.
    + pose proof (world_getFrameTransform (octomap_frame_id map)
                    (removeObject OCTOMAP_NS s).2) as Hw.
      destruct (getFrameTransform _ _) as [t s2]. cbn [fst snd] in *.
      apply Hadd. by rewrite Hw, world_removeObject.
  - intros map Hd Hid t. unfold processOctomapMsg_WithPose.
    assert (is_nil (data (octomap map)) = false) as -> by (by destruct (data (octomap map))).
    rewrite bool_decide_eq_true_2 by done. cbn [negb]. subst t.
    pose proof (world_getFrameTransform (map_frame_id map)
                  (removeObject OCTOMAP_NS s).2) as Hw.
    destruct (getFrameTransform _ _) as [t s2]. cbn [fst snd] in *.
    apply Hadd. by rewrite Hw, world_removeObject.
Qed.

(** X14. [processPlanningSceneWorldMsg] does not stop at a rejected
    collision object: the result is [false], and the objects after it and
    the occupancy map are processed all the same. *)
Theorem processPlanningSceneWorldMsg_goes_on (world : PlanningSceneWorld) s
    (before after : list CollisionObject) object :
  collision_objects world = before ++ object :: after →
  let step := fun s object => (processCollisionObjectMsg object s).2 in
  let s1 := foldl step s before in
  (processCollisionObjectMsg object s1).1 = false →
  (processPlanningSceneWorldMsg world s).1 = false
  ∧ (processPlanningSceneWorldMsg world s).2
    = processOctomapMsg_WithPose (world_octomap world)
        (foldl step (processCollisionObjectMsg object s1).2 after).
Proof.
  intros Hsplit step s1 Hfail. unfold processPlanningSceneWorldMsg.
  set (f := fun (rs : bool * PlanningScene) collision_object =>
              let '(ok, s') := processCollisionObjectMsg collision_object rs.2 in
              (rs.1 && ok, s')).
  assert (Hscene : ∀ l rs, (foldl f rs l).2 = foldl step rs.2 l).
  { induction l as [| x l IH]; intros rs; cbn [foldl]; [done |].
    rewrite IH. subst f step. cbn beta.
    by destruct (processCollisionObjectMsg x rs.2). }
  assert (Hfalse : ∀ l rs, rs.1 = false → (foldl f rs l).1 = false).
  { induction l as [| x l IH]; intros rs Hrs; cbn [foldl]; [done |].
    apply IH. subst f. cbn beta. rewrite Hrs.
    by destruct (processCollisionObjectMsg x rs.2). }
  rewrite Hsplit, foldl_app. cbn [foldl].
  destruct (foldl f (f (foldl f (true, s) before) object) after) as [result s2] eqn:E.
  cbn [fst snd].
  assert (E1 : result = (foldl f (f (foldl f (true, s) before) object) after).1)
    by (by rewrite E).
  assert (E2 : s2 = (foldl f (f (foldl f (true, s) before) object) after).2)
    by (by rewrite E).
  assert (Hobj : f (foldl f (true, s) before) object
                 = ((foldl f (true, s) before).1 && false,
                    (processCollisionObjectMsg object s1).2)).
  { subst f. cbn beta. rewrite (Hscene before (true, s)). cbn [snd]. fold s1.
    destruct (processCollisionObjectMsg object s1) as [ok s']. cbn [fst snd] in *.
    by rewrite Hfail. }
  split.
  - rewrite E1. apply Hfalse. rewrite Hobj. cbn [fst]. apply andb_false_r.
  - rewrite E2, Hscene, Hobj. done.
Qed.

End WorldEffects.

(** ** Attaching objects of the world *)

Section AttachEffects.
Context {ext : External} {col : Collaborators}.
Implicit Types (s : PlanningScene) (object : CollisionObject) (o : Object).
Implicit Types (msg : AttachedCollisionObject).

Local Abbreviation attached s := (attached_body_map_ (getCurrentState s)).

(** The scene a message for an attached object works on: the robot state
    is held locally and updated. *)
Lemma processAttachedCollisionObjectMsg_start msg s :
  id (object msg) ≠ OCTOMAP_NS →
  (operation (object msg) =? ADD)%Z
  && negb (hasLinkModel (getRobotModel s) (link_name msg)) = false →
  let s0 := set_robot_state_ (Some (RobotState_update (getCurrentState s))) s in
  processAttachedCollisionObjectMsg msg s
  = if (operation (object msg) =? ADD)%Z || (operation (object msg) =? APPEND)%Z
    then if hasLinkModel (getRobotModel s) (link_name msg) then attach msg s0
         else (false, s0)
    else if (operation (object msg) =? REMOVE)%Z then detach msg s0
    else (false, s0).
Proof.
  intros Hid Hlink s0. unfold processAttachedCollisionObjectMsg.
  rewrite Hlink.
  rewrite bool_decide_eq_false_2 by done.
  assert (Hs0 : set_robot_state_
            (Some (RobotState_update
               match robot_state_ s with
               | Some rs => rs
               | None => match parent_ s with
                         | Some p => getCurrentState p
                         | None => mkRobotState (default_kin (robot_model_ s)) ∅
                         end
               end)) s = s0).
  { subst s0. by destruct s as [? [q |] ? ? ? ? [rs |] ? ? ? ? ? ? ?]. }
  rewrite Hs0. done.
Qed.

Lemma attach_world_effect msg s o :
  operation (object msg) = ADD → id (object msg) ≠ OCTOMAP_NS →
  hasLinkModel (getRobotModel s) (link_name msg) = true →
  primitives (object msg) = [] → meshes (object msg) = [] → planes (object msg) = [] →
  world_ s !! id (object msg) = Some o → shapes_ o ≠ [] →
  let rs := RobotState_update (getCurrentState s) in
  let body :=
    mkAttachedBody
      (iso_mul (iso_inverse (getGlobalLinkTransform rs (link_name msg))) (pose_ o))
      (shapes_ o) (shape_poses_ o) (list_to_set (touch_links msg)) (link_name msg)
      (detach_posture msg) (subframe_poses_ o) in
  (processAttachedCollisionObjectMsg msg s).1 = true
  ∧ world_ (processAttachedCollisionObjectMsg msg s).2 = delete (id (object msg)) (world_ s)
  ∧ getCurrentState (processAttachedCollisionObjectMsg msg s).2
    = mkRobotState (kin rs) (<[id (object msg) := body]> (attached_body_map_ rs)).
Proof.
  intros Hop Hid Hlink Hp Hm Hpl Ho Hsh rs body.
  rewrite processAttachedCollisionObjectMsg_start by (by rewrite ?Hlink, ?andb_false_r).
  rewrite Hop, Hlink. cbn [Z.eqb ADD orb].
  set (s0 := set_robot_state_ _ s).
  unfold attach. rewrite Hop, Hp, Hm, Hpl. cbn [Z.eqb ADD orb andb is_nil].
  unfold World_getObject.
  assert (Hw0 : world_ s0 = world_ s) by done. rewrite Hw0, Ho.
  assert (is_nil (shapes_ o) = false) as -> by (by destruct (shapes_ o)).
  set (s2 := if negb _ || negb _ then setObjectType _ _ s0 else s0).
  assert (Hs2 : world_ s2 = world_ s ∧ getCurrentState s2 = rs).
  { subst s2. by destruct (_ || _). }
  destruct Hs2 as [Hw2 Hrs2].
  cbn [fst snd].
  rewrite world_with_robot_state, getCurrentState_with_robot_state.
  unfold robot_state_value. rewrite getCurrentState_removeObject, Hrs2.
  rewrite world_removeObject, Hw2.
  split; [done |]. split; [done |].
  unfold attachBody. rewrite kin_clearAttachedBody, attached_clearAttachedBody.
  by rewrite insert_delete_eq.
Qed.


(** X15. An attach message ([ADD]) without geometry for an id the world
    holds with at least one shape, on a known link: the call succeeds, the
    object leaves the world and becomes an attached body with the shapes,
    shape poses and subframes of the world object, at the pose of the
    object seen from the link. *)
Theorem attach_world_object msg s o :
  operation (object msg) = ADD → id (object msg) ≠ OCTOMAP_NS →
  hasLinkModel (getRobotModel s) (link_name msg) = true →
  primitives (object msg) = [] → meshes (object msg) = [] → planes (object msg) = [] →
  world_ s !! id (object msg) = Some o → shapes_ o ≠ [] →
  let s' := (processAttachedCollisionObjectMsg msg s).2 in
  let rs := RobotState_update (getCurrentState s) in
  (processAttachedCollisionObjectMsg msg s).1 = true
  ∧ world_ s' = delete (id (object msg)) (world_ s)
  ∧ World_hasObject (id (object msg)) (world_ s') = false
  ∧ hasAttachedBody (getCurrentState s') (id (object msg)) = true
  ∧ getAttachedBody (getCurrentState s') (id (object msg))
    = Some (mkAttachedBody
              (iso_mul (iso_inverse (getGlobalLinkTransform rs (link_name msg))) (pose_ o))
              (shapes_ o) (shape_poses_ o) (list_to_set (touch_links msg)) (link_name msg)
              (detach_posture msg) (subframe_poses_ o))
  ∧ (∀ j : string, j ≠ id (object msg) →
       getAttachedBody (getCurrentState s') j = getAttachedBody rs j)
  ∧ kin (getCurrentState s') = kin rs.
Proof.
  intros Hop Hid Hlink Hp Hm Hpl Ho Hsh s' rs.
  destruct (attach_world_effect msg s o Hop Hid Hlink Hp Hm Hpl Ho Hsh) as (H1 & H2 & H3).
  fold s' in H2, H3. fold rs in H3.
  split; [done |]. split; [done |]. split.
  { apply hasObject_false. by rewrite H2, lookup_delete_eq. }
  unfold hasAttachedBody, getAttachedBody. rewrite H3. cbn [attached_body_map_ kin].
  split; [| split; [| split]].
  - apply bool_decide_eq_true_2. rewrite lookup_insert_eq. eauto.
  - by rewrite lookup_insert_eq.
  - intros j Hj. by rewrite lookup_insert_ne.
  - done.
Qed.



End AttachEffects.

(** ** The diff log replayed *)

Section PushDiffs.
Context {ext : External} {col : Collaborators}.
Implicit Types (s self scene : PlanningScene) (object : CollisionObject) (o : Object).

(** What replaying one entry of the diff log gives at an id. *)

Lemma world_getTransformsNonConst s : world_ (getTransformsNonConst s).2 = world_ s.
Proof.
  unfold getTransformsNonConst, getCurrentStateNonConst.
  cbn [scene_transforms_ set_robot_state_].
  destruct (scene_transforms_ s); done.
Qed.

Lemma world_getAllowedCollisionMatrixNonConst s :
  world_ (getAllowedCollisionMatrixNonConst s).2 = world_ s.
Proof. unfold getAllowedCollisionMatrixNonConst. by destruct (acm_ s). Qed.

Lemma world_push_attached_type_and_color b self scene nb :
  world_ (push_attached_type_and_color b self scene nb) = world_ scene.
Proof.
  unfold push_attached_type_and_color.
  set (scene1 := if hasObjectType _ _ then _ else scene).
  assert (H1 : world_ scene1 = world_ scene) by (subst scene1; by destruct (hasObjectType _ _)).
  destruct (hasObjectColor _ _); [| done].
  destruct (getObjectColor _ _); [| done].
  by rewrite world_setObjectColor.
Qed.

Lemma world_foldl_push_attached b self l scene :
  world_ (foldl (push_attached_type_and_color b self) scene l) = world_ scene.
Proof.
  revert scene. induction l as [| nb l IH]; intros scene; cbn [foldl]; [done |].
  by rewrite IH, world_push_attached_type_and_color.
Qed.

Lemma world_push_world_diff_entry b self scene (i : string) (a : N) (j : string) :
  world_ (push_world_diff_entry b self scene (i, a)) !! j
  = if bool_decide (j = i) then
      if (a =? DESTROY)%N then None
      else match world_ self !! j with
           | None => world_ scene !! j
           | Some obj =>
               if (length (shapes_ obj) =? length (shape_poses_ obj))%nat
                  && negb (is_nil (shapes_ obj))
               then Some obj else None
           end
    else world_ scene !! j.
Proof.
  unfold push_world_diff_entry. cbn [fst snd].
  destruct (a =? DESTROY)%N.
  - assert (Hw : world_ (if negb (hasAttachedBody
                                   (getCurrentState
                                      (removeObjectType i
                                         (removeObjectColor i (removeObject i scene).2))) i)
                         then acm_removeEntry_NonConst i
                                (removeObjectType i
                                   (removeObjectColor i (removeObject i scene).2))
                         else removeObjectType i
                                (removeObjectColor i (removeObject i scene).2))
                 = delete i (world_ scene)).
    { destruct (negb _); rewrite ?world_acm_removeEntry_NonConst;
        by rewrite world_removeObjectType, world_removeObjectColor, world_removeObject. }
    rewrite Hw. destruct (decide (j = i)) as [-> | Hj].
    + by rewrite bool_decide_eq_true_2, lookup_delete_eq.
    + by rewrite bool_decide_eq_false_2, lookup_delete_ne.
  - unfold World_getObject.
    destruct (decide (j = i)) as [-> | Hj].
    + rewrite bool_decide_eq_true_2 by done.
      destruct (world_ self !! i) as [obj |] eqn:E; [| done].
      set (scene2 := addToObject i _ _ _ _).
      set (scene3 := if hasObjectColor _ _ then _ else scene2).
      assert (H3 : world_ scene3 = world_ scene2).
      { subst scene3. destruct (hasObjectColor _ _); [| done].
        destruct (getObjectColor _ _); [| done]. by rewrite world_setObjectColor. }
      set (scene4 := if hasObjectType _ _ then _ else scene3).
      assert (H4 : world_ scene4 = world_ scene2).
      { subst scene4. by destruct (hasObjectType _ _). }
      destruct (length (shapes_ obj) =? length (shape_poses_ obj))%nat eqn:El;
        [destruct (is_nil (shapes_ obj)) eqn:En |]; cbn [andb negb].
      * rewrite world_setSubframesOfObject_absent; rewrite H4; subst scene2;
          destruct (shapes_ obj); try done;
          by rewrite world_addToObject_nothing, world_removeObject, lookup_delete_eq.
      * apply Nat.eqb_eq in El.
        assert (H2 : world_ scene2
                  = <[i := mkObject (pose_ obj) (shapes_ obj) (shape_poses_ obj) ∅]>
                      (world_ scene)).
        { subst scene2. rewrite world_addToObject_new.
          - by rewrite world_removeObject, insert_delete_eq.
          - by rewrite world_removeObject, lookup_delete_eq.
          - done.
          - by destruct (shapes_ obj). }
        erewrite world_setSubframesOfObject_existing; last first.
        { rewrite H4, H2. apply lookup_insert_eq. }
        rewrite lookup_insert_eq. by destruct obj.
      * assert (H2 : world_ scene2 = delete i (world_ scene)).
        { subst scene2. unfold addToObject, World_addToObject. rewrite El. cbn [negb].
          apply world_removeObject. }
        rewrite world_setSubframesOfObject_absent; rewrite H4, H2;
          by rewrite lookup_delete_eq.
    + rewrite bool_decide_eq_false_2 by done.
      destruct (world_ self !! i) as [obj |] eqn:E; [| done].
      rewrite world_setSubframesOfObject_only_at by done.
      set (scene2 := addToObject i _ _ _ _).
      set (scene3 := if hasObjectColor _ _ then _ else scene2).
      assert (H3 : world_ scene3 = world_ scene2).
      { subst scene3. destruct (hasObjectColor _ _); [| done].
        destruct (getObjectColor _ _); [| done]. by rewrite world_setObjectColor. }
      assert (H4 : world_ (if hasObjectType (self_view b self scene3) i
                           then setObjectType i (getObjectType (self_view b self scene3) i)
                                  scene3
                           else scene3) = world_ scene2).
      { by destruct (hasObjectType _ _). }
      rewrite H4. subst scene2. rewrite world_addToObject_only_at by done.
      by rewrite world_removeObject, lookup_delete_ne.
Qed.


(** The entry of the diff log replayed at an id. *)
Lemma world_foldl_push_world_diff_entry b self (l : list (string * N)) scene (j : string) :
  NoDup l.*1 →
  (j ∉ l.*1 →
   world_ (foldl (push_world_diff_entry b self) scene l) !! j = world_ scene !! j)
  ∧ (∀ a, (j, a) ∈ l →
       world_ (foldl (push_world_diff_entry b self) scene l) !! j
       = if (a =? DESTROY)%N then None
         else match world_ self !! j with
              | None => world_ scene !! j
              | Some obj =>
                  if (length (shapes_ obj) =? length (shape_poses_ obj))%nat
                     && negb (is_nil (shapes_ obj))
                  then Some obj else None
              end).
Proof.
  revert scene. induction l as [| [i a0] l IH]; intros scene Hnd; cbn [foldl].
  - split; [done |]. intros a H. by apply elem_of_nil in H.
  - cbn [fmap list_fmap fst] in Hnd. apply NoDup_cons in Hnd as [Hi Hnd].
    destruct (IH (push_world_diff_entry b self scene (i, a0)) Hnd) as [IH1 IH2].
    split.
    + intros Hj. cbn [fmap list_fmap fst] in Hj. apply not_elem_of_cons in Hj as [Hji Hj].
      rewrite IH1 by done. rewrite world_push_world_diff_entry.
      by rewrite bool_decide_eq_false_2.
    + intros a Hin. apply elem_of_cons in Hin as [[= -> ->] | Hin].
      * rewrite IH1 by done. rewrite world_push_world_diff_entry.
        by rewrite bool_decide_eq_true_2.
      * rewrite (IH2 a Hin). rewrite world_push_world_diff_entry.
        rewrite bool_decide_eq_false_2; [done |].
        intros ->. apply Hi. by apply (list_elem_of_fmap_2 fst) in Hin.
Qed.

(** The world of the target before the diff log is replayed. *)
Lemma pushDiffs_unfold b self scene p :
  parent_ self = Some p →
  ∃ scene4,
    world_ scene4 = world_ scene
    ∧ pushDiffs b self scene
      = match world_diff_ self with
        | Some d => foldl (push_world_diff_entry b self) scene4 (map_to_list d)
        | None => scene4
        end.
Proof.
  intros Hp. unfold pushDiffs. rewrite Hp.
  eexists. split; [| reflexivity]. cbn [world_ set_collision_detector_].
  destruct (acm_ self); cbn [world_ set_acm_];
    rewrite ?world_getAllowedCollisionMatrixNonConst;
    (destruct (robot_state_ self);
     [rewrite world_foldl_push_attached; cbn [world_ set_robot_state_];
      rewrite world_getCurrentStateNonConst |]);
    (destruct (scene_transforms_ self); cbn [world_ set_scene_transforms_];
     rewrite ?world_getTransformsNonConst; done).
Qed.

(** X18. [pushDiffs] replays the diff log on the world of the target: an id
    without log entry is untouched; an id logged as [DESTROY] is removed;
    any other logged id gets the object of the pushing scene (when that
    scene holds one), provided the object has shapes and as many shape
    poses; an object without shapes is removed from the target instead. *)
Theorem pushDiffs_replays_world_diff b self scene p d (j : string) :
  parent_ self = Some p → world_diff_ self = Some d →
  world_ (pushDiffs b self scene) !! j
  = match d !! j with
    | None => world_ scene !! j
    | Some a =>
        if (a =? DESTROY)%N then None
        else match world_ self !! j with
             | None => world_ scene !! j
             | Some obj =>
                 if (length (shapes_ obj) =? length (shape_poses_ obj))%nat
                    && negb (is_nil (shapes_ obj))
                 then Some obj else None
             end
    end.
Proof.
  intros Hp Hd. destruct (pushDiffs_unfold b self scene p Hp) as (scene4 & Hw & ->).
  rewrite Hd.
  destruct (world_foldl_push_world_diff_entry b self (map_to_list d) scene4 j
              (NoDup_fst_map_to_list d)) as [H1 H2].
  destruct (d !! j) as [a |] eqn:E.
  - rewrite (H2 a) by (by apply elem_of_map_to_list). by rewrite Hw.
  - rewrite H1, Hw; [done |]. intros Hin.
    apply list_elem_of_fmap in Hin as [[j' a] [-> Hin]].
    apply elem_of_map_to_list in Hin. cbn in E. congruence.
Qed.


End PushDiffs.

(** ** The diff log of a fork *)

Section DiffLog.
Context {ext : External} {col : Collaborators}.
Implicit Types (s p : PlanningScene) (object : CollisionObject) (o : Object).

(** An object the world can hand over: some shapes, with as many poses. *)
Local Abbreviation complete o :=
  (shapes_ o ≠ [] ∧ length (shapes_ o) = length (shape_poses_ o)).

(** The diff log of [s] accounts for every difference between the world of
    [s] and the world of [p]. *)
Local Abbreviation tracked s p :=
  (parent_ s = Some p
   ∧ (∀ (j : string) o, world_ s !! j = Some o → complete o)
   ∧ ∃ d, world_diff_ s = Some d
          ∧ ∀ j : string,
              match d !! j with
              | None => world_ s !! j = world_ p !! j
              | Some a => a = DESTROY ↔ world_ s !! j = None
              end).

Lemma notify_nothing s : notify [] (set_world_ (world_ s) s) = s.
Proof. by destruct s as [? ? ? ? [d |] ? ? ? ? ? ? ? ? ?]. Qed.

Lemma tracked_congr s s' p :
  world_ s' = world_ s → world_diff_ s' = world_diff_ s → parent_ s' = parent_ s →
  tracked s p → tracked s' p.
Proof. intros -> -> ->. done. Qed.

Lemma lor_not_DESTROY (a act : N) :
  act = N.lor ADD_SHAPE CREATE ∨ act = ADD_SHAPE ∨ act = MOVE_SHAPE →
  N.lor a act ≠ DESTROY.
Proof.
  intros Hact H.
  destruct Hact as [-> | [-> | ->]].
  - apply (f_equal (λ n, N.testbit n 0)) in H. rewrite N.lor_spec in H.
    cbn in H. by rewrite orb_true_r in H.
  - apply (f_equal (λ n, N.testbit n 3)) in H. rewrite N.lor_spec in H.
    cbn in H. by rewrite orb_true_r in H.
  - apply (f_equal (λ n, N.testbit n 2)) in H. rewrite N.lor_spec in H.
    cbn in H. by rewrite orb_true_r in H.
Qed.

(** One change of the world at [i] with its notification. *)
Lemma tracked_notify s p (w' : gmap string Object) (i : string) (act : N) :
  tracked s p →
  (∀ j : string, j ≠ i → w' !! j = world_ s !! j) →
  (∀ o, w' !! i = Some o → complete o) →
  (act = DESTROY ∧ w' !! i = None)
  ∨ ((act = N.lor ADD_SHAPE CREATE ∨ act = ADD_SHAPE ∨ act = MOVE_SHAPE)
     ∧ is_Some (w' !! i)) →
  tracked (notify [(i, act)] (set_world_ w' s)) p.
Proof.
  intros (Hp & Hwf & d & Hd & Hlog) Hoth Hi Hact.
  split; [done |]. split.
  { intros j o. rewrite world_notify. cbn [world_ set_world_].
    destruct (decide (j = i)) as [-> | Hj]; [apply Hi |].
    rewrite Hoth by done. apply Hwf. }
  exists (WorldDiff_notify d (i, act)). split.
  { unfold notify. cbn. by rewrite Hd. }
  intros j. rewrite world_notify. cbn [world_ set_world_].
  unfold WorldDiff_notify. cbn [fst snd].
  destruct (decide (j = i)) as [-> | Hj].
  - destruct Hact as [[-> Hnone] | [Ha Hsome]].
    + cbn. by rewrite lookup_insert_eq.
    + assert ((act =? DESTROY)%N = false) as ->.
      { apply N.eqb_neq. by destruct Ha as [-> | [-> | ->]]. }
      rewrite lookup_insert_eq. split.
      * intros H. by apply lor_not_DESTROY in H.
      * intros H. rewrite H in Hsome. by destruct Hsome.
  - specialize (Hlog j). rewrite Hoth by done.
    destruct (act =? DESTROY)%N; by rewrite lookup_insert_ne.
Qed.

Lemma tracked_removeObject (i : string) s p : tracked s p → tracked (removeObject i s).2 p.
Proof.
  intros Ht. unfold removeObject, World_removeObject.
  destruct (world_ s !! i) eqn:E; cbn [snd].
  - apply tracked_notify; [done | | |].
    + intros j Hj. by rewrite lookup_delete_ne.
    + by rewrite lookup_delete_eq.
    + left. by rewrite lookup_delete_eq.
  - by rewrite notify_nothing.
Qed.

Lemma tracked_addToObject (i : string) pose sh sp s p :
  tracked s p → tracked (addToObject i pose sh sp s) p.
Proof.
  intros Ht. unfold addToObject, World_addToObject.
  destruct (length sh =? length sp)%nat eqn:El; cbn [negb]; [| by rewrite notify_nothing].
  apply Nat.eqb_eq in El.
  destruct (bool_decide (length sh = 0%nat)) eqn:En; [by rewrite notify_nothing |].
  apply bool_decide_eq_false in En.
  assert (Hsh : sh ≠ []) by (by destruct sh).
  destruct (world_ s !! i) as [o |] eqn:E.
  - apply tracked_notify; [done | | |].
    + intros j Hj. by rewrite lookup_insert_ne.
    + rewrite lookup_insert_eq. intros o' [= <-]. cbn.
      destruct Ht as (_ & Hwf & _). destruct (Hwf i o E) as [Ho1 Ho2].
      split; [by destruct (shapes_ o) | rewrite !length_app; lia].
    + right. rewrite lookup_insert_eq. eauto.
  - apply tracked_notify; [done | | |].
    + intros j Hj. by rewrite lookup_insert_ne.
    + rewrite lookup_insert_eq. by intros o' [= <-].
    + right. rewrite lookup_insert_eq. eauto.
Qed.

Lemma tracked_setObjectPose (i : string) pose s p :
  is_Some (world_ s !! i) → tracked s p → tracked (setObjectPose i pose s) p.
Proof.
  intros [o E] Ht. unfold setObjectPose, World_setObjectPose. rewrite E.
  destruct Ht as (Hp & Hwf & Hd). destruct (Hwf i o E) as [Ho1 Ho2].
  rewrite bool_decide_eq_false_2 by (by destruct (shapes_ o)).
  apply tracked_notify; [done | | |].
  - intros j Hj. by rewrite lookup_insert_ne.
  - rewrite lookup_insert_eq. by intros o' [= <-].
  - right. rewrite lookup_insert_eq. eauto.
Qed.

Lemma tracked_moveShapesInObject (i : string) sp s p :
  tracked s p → tracked (moveShapesInObject i sp s).2 p.
Proof.
  intros Ht. unfold moveShapesInObject, World_moveShapesInObject.
  destruct (world_ s !! i) as [o |] eqn:E; [| by rewrite notify_nothing].
  destruct (length sp =? length (shapes_ o))%nat eqn:El; cbn [negb snd];
    [| by rewrite notify_nothing].
  apply Nat.eqb_eq in El.
  destruct Ht as (Hp & Hwf & Hd). destruct (Hwf i o E) as [Ho1 Ho2].
  apply tracked_notify; [done | | |].
  - intros j Hj. by rewrite lookup_insert_ne.
  - rewrite lookup_insert_eq. by intros o' [= <-].
  - right. rewrite lookup_insert_eq. eauto.
Qed.


(** [setSubframesOfObject] sends no notification: the change is accounted
    for only when the log already has an entry for the object. *)
Lemma tracked_setSubframesOfObject (i : string) sf s p :
  (∀ d, world_diff_ s = Some d → is_Some (world_ s !! i) → is_Some (d !! i)) →
  tracked s p → tracked (setSubframesOfObject i sf s).2 p.
Proof.
  intros Hlogged (Hp & Hwf & d & Hd & Hlog).
  unfold setSubframesOfObject, World_setSubframesOfObject.
  destruct (world_ s !! i) as [o |] eqn:E; cbn [snd].
  2:{ split; [done |]. split; [| by exists d]. intros j o. cbn. apply Hwf. }
  destruct (Hlogged d Hd) as [a Ha]; [eauto |].
  split; [done |]. split.
  - intros j o'. cbn. destruct (decide (j = i)) as [-> | Hj].
    + rewrite lookup_insert_eq. intros [= <-]. cbn. by apply (Hwf i).
    + rewrite lookup_insert_ne by done. apply Hwf.
  - exists d. split; [done |]. intros j. cbn.
    destruct (decide (j = i)) as [-> | Hj].
    + rewrite lookup_insert_eq, Ha. specialize (Hlog i). rewrite Ha, E in Hlog.
      split; [| done]. intros H. by apply Hlog in H.
    + rewrite lookup_insert_ne by done. apply Hlog.
Qed.

(** After shapes were added to an object, the log has an entry for it. *)
Lemma logged_addToObject (i : string) pose sh sp s d :
  sh ≠ [] → length sh = length sp →
  world_diff_ (addToObject i pose sh sp s) = Some d → is_Some (d !! i).
Proof.
  intros Hsh Hlen. unfold addToObject, World_addToObject.
  rewrite <- Hlen, Nat.eqb_refl. cbn [negb].
  rewrite bool_decide_eq_false_2 by (by destruct sh).
  destruct (world_ s !! i); unfold notify;
    cbn [world_diff_ set_world_diff_ set_world_];
    destruct (world_diff_ s) as [d0 |]; cbn [fmap option_fmap option_map foldl];
    intros [= <-]; unfold WorldDiff_notify; cbn [fst snd];
    destruct (_ =? _)%N; by rewrite lookup_insert_eq.
Qed.

Lemma log_removeObjectColor (i : string) s :
  world_diff_ (removeObjectColor i s) = world_diff_ s
  ∧ parent_ (removeObjectColor i s) = parent_ s.
Proof. unfold removeObjectColor. by destruct (object_colors_ s). Qed.

Lemma log_removeObjectType (i : string) s :
  world_diff_ (removeObjectType i s) = world_diff_ s
  ∧ parent_ (removeObjectType i s) = parent_ s.
Proof. unfold removeObjectType. by destruct (object_types_ s). Qed.

Lemma log_acm_removeEntry_NonConst (i : string) s :
  world_diff_ (acm_removeEntry_NonConst i s) = world_diff_ s
  ∧ parent_ (acm_removeEntry_NonConst i s) = parent_ s.
Proof.
  unfold acm_removeEntry_NonConst, getAllowedCollisionMatrixNonConst.
  by destruct (acm_ s).
Qed.

(** The clean-up after an object was removed. *)
Lemma tracked_forget (i : string) s p :
  tracked s p →
  tracked (acm_removeEntry_NonConst i (removeObjectType i (removeObjectColor i s))) p.
Proof.
  apply tracked_congr.
  - by rewrite world_acm_removeEntry_NonConst, world_removeObjectType,
      world_removeObjectColor.
  - destruct (log_acm_removeEntry_NonConst i (removeObjectType i (removeObjectColor i s)))
      as [-> _].
    destruct (log_removeObjectType i (removeObjectColor i s)) as [-> _].
    apply log_removeObjectColor.
  - destruct (log_acm_removeEntry_NonConst i (removeObjectType i (removeObjectColor i s)))
      as [_ ->].
    destruct (log_removeObjectType i (removeObjectColor i s)) as [_ ->].
    apply log_removeObjectColor.
Qed.

Lemma tracked_removeAllCollisionObjects s p :
  tracked s p → tracked (removeAllCollisionObjects s) p.
Proof.
  unfold removeAllCollisionObjects.
  generalize (World_getObjectIds (world_ s)). intros ids. revert s.
  induction ids as [| i ids IH]; intros s Ht; cbn [foldl]; [done |].
  apply IH. destruct (negb _); [| done].
  by apply tracked_forget, tracked_removeObject.
Qed.

Lemma tracked_getFrameTransform (f : string) s p :
  tracked s p → tracked (getFrameTransform f s).2 p.
Proof.
  apply tracked_congr; [apply world_getFrameTransform | |];
    apply world_diff_getFrameTransform.
Qed.

(** Collision object messages keep the diff log of a fork sound, provided
    an [ADD] or [APPEND] whose shapes are read has at least one shape that
    can be constructed. *)
Lemma tracked_processCollisionObjectMsg object s p :
  (∀ pose sh sp,
     shapesAndPosesFromCollisionObjectMessage object = Some (pose, sh, sp) →
     operation object = ADD ∨ operation object = APPEND → sh ≠ []) →
  tracked s p → tracked (processCollisionObjectMsg object s).2 p.
Proof.
  intros Hshapes Ht. unfold processCollisionObjectMsg.
  destruct (bool_decide (id object = OCTOMAP_NS)); [done |].
  destruct ((operation object =? ADD)%Z || (operation object =? APPEND)%Z) eqn:Eop.
  { assert (Hop : operation object = ADD ∨ operation object = APPEND).
    { apply orb_true_iff in Eop as [H | H]; apply Z.eqb_eq in H; tauto. }
    unfold processCollisionObjectAdd.
    destruct (negb _); [done |]. destruct (_ && _ && _); [done |].
    set (s1 := if (operation object =? ADD)%Z && _ then _ else s).
    assert (H1 : tracked s1 p).
    { subst s1. destruct (_ && _); [by apply tracked_removeObject | done]. }
    pose proof (tracked_getFrameTransform (header_frame_id object) s1 p H1) as H2.
    destruct (getFrameTransform _ s1) as [t s2]. cbn [snd] in H2.
    destruct (shapesAndPosesFromCollisionObjectMessage object) as [[[h sh] sp] |] eqn:Esp;
      [| done]. cbn [snd].
    pose proof (Hshapes h sh sp eq_refl Hop) as Hsh.
    destruct (shapesAndPoses_shapes _ _ _ _ Esp) as [_ Hlen].
    set (s3 := addToObject (id object) (iso_mul t h) sh sp s2).
    assert (H3 : tracked s3 p) by (by apply tracked_addToObject).
    assert (L3 : ∀ d, world_diff_ s3 = Some d → is_Some (d !! id object)).
    { intros d. by apply logged_addToObject. }
    apply tracked_setSubframesOfObject.
    - intros d Hd _. apply L3. revert Hd.
      by destruct (negb (bool_decide _) || negb (bool_decide _)).
    - by destruct (negb (bool_decide _) || negb (bool_decide _)). }
  destruct (operation object =? REMOVE)%Z.
  { unfold processCollisionObjectRemove.
    destruct (bool_decide (id object = ""%string)); cbn [snd].
    - by apply tracked_removeAllCollisionObjects.
    - pose proof (tracked_removeObject (id object) s p Ht) as H1.
      destruct (removeObject (id object) s) as [found s1]. cbn [snd] in H1.
      destruct (negb found); [done |]. cbn [snd]. by apply tracked_forget. }
  destruct (operation object =? MOVE)%Z; [| done].
  unfold processCollisionObjectMove.
  destruct (World_hasObject _ _) eqn:Ehas; [| done].
  apply hasObject_is_Some in Ehas.
  pose proof (tracked_getFrameTransform (header_frame_id object) s p Ht) as H1.
  pose proof (world_getFrameTransform (header_frame_id object) s) as Hw1.
  destruct (getFrameTransform _ s) as [t s1]. cbn [snd] in H1, Hw1.
  set (s2 := setObjectPose _ _ s1).
  assert (H2 : tracked s2 p).
  { subst s2. apply tracked_setObjectPose; [by rewrite Hw1 | done]. }
  destruct (negb (is_nil (primitive_poses object)) || negb (is_nil (mesh_poses object))
            || negb (is_nil (plane_poses object))); [| exact H2].
  destruct (negb (_ =? _)%nat); [exact H2 |].
  match goal with |- context [moveShapesInObject ?i ?sp s2] =>
    pose proof (tracked_moveShapesInObject i sp s2 p H2) as H3;
    destruct (moveShapesInObject i sp s2) as [moved s3] end.
  cbn [snd] in H3. destruct moved; exact H3.
Qed.

Lemma tracked_diff p :
  (∀ (j : string) o, world_ p !! j = Some o → complete o) → tracked (diff p) p.
Proof.
  intros Hwf. split; [done |]. split; [done |].
  exists ∅. split; [done |]. intros j. by rewrite lookup_empty.
Qed.

Lemma tracked_pushDiffs s p :
  tracked s p → world_ (pushDiffs true s p) = world_ s.
Proof.
  intros (Hp & Hwf & d & Hd & Hlog). apply map_eq. intros j.
  destruct (pushDiffs_unfold true s p p Hp) as (scene4 & Hw & ->). rewrite Hd.
  destruct (world_foldl_push_world_diff_entry true s (map_to_list d) scene4 j
              (NoDup_fst_map_to_list d)) as [H1 H2].
  specialize (Hlog j). destruct (d !! j) as [a |] eqn:Ed; last first.
  { rewrite H1, Hw; [done |]. intros Hin.
    apply list_elem_of_fmap in Hin as [[j' a] [-> Hin]].
    apply elem_of_map_to_list in Hin. cbn in Ed. congruence. }
  rewrite (H2 a) by (by apply elem_of_map_to_list). rewrite Hw.
  destruct (a =? DESTROY)%N eqn:Ea.
  - apply N.eqb_eq in Ea. symmetry. by apply Hlog.
  - apply N.eqb_neq in Ea. destruct (world_ s !! j) as [o |] eqn:E.
    + destruct (Hwf j o E) as [Ho1 Ho2]. rewrite Ho2, Nat.eqb_refl.
      by destruct (shapes_ o).
    + destruct Ea. by apply Hlog.
Qed.

(** X19. Fork and merge: a fork takes any sequence of collision object
    messages; [pushDiffs] onto the parent then makes the world of the parent
    equal to the world of the fork.  (Every object of the parent has shapes
    and as many shape poses, and every [ADD] or [APPEND] whose shapes are
    read constructs at least one.) *)
Theorem fork_messages_pushDiffs (messages : list CollisionObject) p :
  (∀ (j : string) o, world_ p !! j = Some o →
     shapes_ o ≠ [] ∧ length (shapes_ o) = length (shape_poses_ o)) →
  (∀ object pose sh sp,
     object ∈ messages →
     operation object = ADD ∨ operation object = APPEND →
     shapesAndPosesFromCollisionObjectMessage object = Some (pose, sh, sp) → sh ≠ []) →
  let fork := foldl (fun s object => (processCollisionObjectMsg object s).2) (diff p)
                messages in
  world_ (pushDiffs true fork p) = world_ fork.
Proof.
  intros Hwf Hmsgs fork. apply tracked_pushDiffs. subst fork.
  assert (H : ∀ s, tracked s p →
            tracked (foldl (fun s object => (processCollisionObjectMsg object s).2) s
                       messages) p); [| by apply H, tracked_diff].
  induction messages as [| object messages IH]; intros s Hs; cbn [foldl]; [done |].
  apply IH.
  - intros object' pose sh sp Hin. apply Hmsgs. by right.
  - apply tracked_processCollisionObjectMsg; [| done].
    intros pose sh sp Hsp Hop. eapply Hmsgs; [by left | done | done].
Qed.

End DiffLog.

(** ** Scenes and their parents *)

Section Hierarchy.
Context {ext : External} {col : Collaborators}.
Implicit Types (s p : PlanningScene).

Lemma getKnownObjectColors_lookup s (object_id : string) :
  getKnownObjectColors s !! object_id = getObjectColor s object_id.
Proof.
  induction s as [s IH] using parent_ind.
  destruct s as [? [p |] ? ? ? ? ? ? [m |] ? ? ? ? ?]; cbn in *;
    rewrite ?lookup_union, ?lookup_empty, ?IH by done;
    try destruct (m !! object_id); try done.
  all: by destruct (getObjectColor p object_id).
Qed.

Lemma getKnownObjectTypes_lookup s (object_id : string) :
  hasObjectType s object_id = bool_decide (is_Some (getKnownObjectTypes s !! object_id))
  ∧ getObjectType s object_id = default ObjectType_EMPTY (getKnownObjectTypes s !! object_id).
Proof.
  assert (HN : bool_decide (is_Some (@None ObjectType)) = false).
  { apply bool_decide_eq_false_2. by intros [? ?]. }
  assert (HS : ∀ t : ObjectType, bool_decide (is_Some (Some t)) = true).
  { intros t. apply bool_decide_eq_true_2. eauto. }
  induction s as [s IH] using parent_ind.
  destruct s as [? [p |] ? ? ? ? ? ? ? ? [m |] ? ? ?]; cbn in *;
    rewrite ?lookup_union, ?lookup_empty; try destruct (IH p eq_refl) as [-> ->];
    try destruct (m !! object_id); try destruct (getKnownObjectTypes p !! object_id);
    cbn; rewrite ?HN, ?HS; done.
Qed.

(** X20. [getKnownObjectColors] is the table of [getObjectColor]: every id
    has in it the color the scene reads for it through its parents, and
    [getObjectColorMsgs] has exactly one message per colored id. *)
Theorem getKnownObjectColors_agrees s (object_id : string) c :
  (getKnownObjectColors s !! object_id = getObjectColor s object_id)
  ∧ (mkObjectColor object_id c ∈ getObjectColorMsgs s ↔ getObjectColor s object_id = Some c)
  ∧ NoDup (oc_id <$> getObjectColorMsgs s).
Proof.
  split; [apply getKnownObjectColors_lookup |]. split.
  - rewrite <- getKnownObjectColors_lookup. unfold getObjectColorMsgs.
    rewrite list_elem_of_fmap. split.
    + intros [[i c'] [[= -> ->] Hin]]. by apply elem_of_map_to_list in Hin.
    + intros H. exists (object_id, c). split; [done |]. by apply elem_of_map_to_list.
  - unfold getObjectColorMsgs. rewrite <- list_fmap_compose.
    apply (NoDup_fst_map_to_list (getKnownObjectColors s)).
Qed.


Lemma getFrameTransform_state_congr s s' state (frame_id : string) :
  getCurrentState s' = getCurrentState s → world_ s' = world_ s →
  getTransforms s' = getTransforms s →
  getFrameTransform_state s' state frame_id = getFrameTransform_state s state frame_id.
Proof.
  intros Hrs Hw Ht. revert state.
  induction frame_id as [| c rest IH]; intros state; cbn;
    unfold getWorld; rewrite ?Hw, ?Ht, ?Hrs; [done |].
  destruct (bool_decide (c = "/"%char)); [apply IH | done].
Qed.

(** What a scene reads after [decoupleParent]. *)
Lemma decoupleParent_reads s :
  let s' := decoupleParent s in
  parent_ s' = None
  ∧ name_ s' = name_ s
  ∧ world_ s' = world_ s
  ∧ collision_detector_ s' = collision_detector_ s
  ∧ getCurrentState s' = getCurrentState s
  ∧ getAllowedCollisionMatrix s' = getAllowedCollisionMatrix s
  ∧ getTransforms s' = getTransforms s
  ∧ (∀ object_id : string,
       getObjectColor s' object_id = getObjectColor s object_id
       ∧ hasObjectColor s' object_id = hasObjectColor s object_id
       ∧ getObjectType s' object_id = getObjectType s object_id
       ∧ hasObjectType s' object_id = hasObjectType s object_id).
Proof.
  cbn zeta. unfold decoupleParent.
  destruct (parent_ s) as [p |] eqn:Hp; [| by rewrite Hp].
  cbn [parent_ name_ world_ collision_detector_].
  split; [done |]. split; [done |]. split; [done |]. split; [done |].
  split; [| split; [| split]].
  - destruct s as [? ? ? ? ? ? [rs |] ? ? ? ? ? ? ?]; cbn in *; by rewrite ?Hp.
  - destruct s as [? ? ? ? ? ? ? [m |] ? ? ? ? ? ?]; cbn in *; by rewrite ?Hp.
  - destruct s as [? ? ? ? ? [t |] ? ? ? ? ? ? ? ?]; cbn in *; by rewrite ?Hp.
  - intros object_id.
    assert (Hc : getObjectColor
              (mkScene (name_ s) None (robot_model_ s) (world_ s) None
                 (Some (match scene_transforms_ s with
                        | Some t => t | None => getTransforms p end))
                 (Some (match robot_state_ s with
                        | Some rs => rs | None => getCurrentState p end))
                 (Some (match acm_ s with
                        | Some m => m | None => getAllowedCollisionMatrix p end))
                 (Some (match object_colors_ s with
                        | None => getKnownObjectColors p
                        | Some m => m ∪ getKnownObjectColors p end))
                 (original_object_colors_ s)
                 (Some (match object_types_ s with
                        | None => getKnownObjectTypes p
                        | Some m => m ∪ getKnownObjectTypes p end))
                 (collision_detector_ s) (state_feasibility_ s) (motion_feasibility_ s))
              object_id
            = getObjectColor s object_id).
    { rewrite <- (getKnownObjectColors_lookup s).
      destruct s as [? ? ? ? ? ? ? ? [m |] ? ? ? ? ?]; cbn in *; rewrite Hp;
        by destruct (_ !! object_id). }
    split; [done |]. split; [by rewrite !hasObjectColor_getObjectColor, Hc |].
    destruct (getKnownObjectTypes_lookup s object_id) as [-> ->].
    match goal with |- getObjectType ?s' _ = _ ∧ _ =>
      destruct (getKnownObjectTypes_lookup s' object_id) as [-> ->] end.
    assert (Ht : ∀ m' : gmap string ObjectType,
              (match parent_ s with Some q => getKnownObjectTypes q | None => ∅ end
               = getKnownObjectTypes p)).
    { intros _. by rewrite Hp. }
    destruct s as [? ? ? ? ? ? ? ? ? ? [m |] ? ? ?]; cbn in *; rewrite Hp; cbn;
      rewrite ?map_union_empty; done.
Qed.

(** X21. [decoupleParent] cuts the parent without changing what the scene
    reads: the robot state, the collision matrix, the fixed frames, the
    world, the color and type of every id, every frame transform and every
    collision check are as before. *)
Theorem decoupleParent_keeps_reads s :
  let s' := decoupleParent s in
  parent_ s' = None
  ∧ (is_Some (parent_ s) → world_diff_ s' = None)
  ∧ world_ s' = world_ s
  ∧ getCurrentState s' = getCurrentState s
  ∧ getAllowedCollisionMatrix s' = getAllowedCollisionMatrix s
  ∧ getTransforms s' = getTransforms s
  ∧ (∀ object_id : string,
       getObjectColor s' object_id = getObjectColor s object_id
       ∧ hasObjectColor s' object_id = hasObjectColor s object_id
       ∧ getObjectType s' object_id = getObjectType s object_id
       ∧ hasObjectType s' object_id = hasObjectType s object_id)
  ∧ (∀ frame_id : string,
       getFrameTransform_const s' frame_id = getFrameTransform_const s frame_id)
  ∧ (∀ req res, checkCollision_const s' req res = checkCollision_const s req res).
Proof.
  destruct (decoupleParent_reads s) as (Hp & _ & Hw & Hcd & Hrs & Hacm & Ht & Hct).
  cbn zeta in *.
  split; [done |]. split.
  { intros [p Hq]. unfold decoupleParent. by rewrite Hq. }
  split; [done |]. split; [done |]. split; [done |]. split; [done |]. split; [done |].
  split.
  - intros frame_id. unfold getFrameTransform_const. rewrite Hrs.
    by apply getFrameTransform_state_congr.
  - intros req res. unfold checkCollision_const, checkCollision, call_checkRobotCollision,
      call_checkSelfCollision, getCollisionEnv, getCollisionEnvUnpadded.
    by rewrite Hrs, Hacm, Hw, Hcd.
Qed.

(** X22. [clone] gives a scene without parent and without diff log that has
    the name of the original and reads the same world, robot state,
    collision matrix, fixed frames, colors, types and frame transforms. *)
Theorem clone_is_detached_copy scene :
  let s' := clone scene in
  parent_ s' = None ∧ world_diff_ s' = None
  ∧ getName s' = getName scene
  ∧ world_ s' = world_ scene
  ∧ getCurrentState s' = getCurrentState scene
  ∧ getAllowedCollisionMatrix s' = getAllowedCollisionMatrix scene
  ∧ getTransforms s' = getTransforms scene
  ∧ (∀ object_id : string,
       getObjectColor s' object_id = getObjectColor scene object_id
       ∧ getObjectType s' object_id = getObjectType scene object_id)
  ∧ (∀ frame_id : string,
       getFrameTransform_const s' frame_id = getFrameTransform_const scene frame_id).
Proof.
  destruct (decoupleParent_reads (diff scene)) as (Hp & _ & Hw & _ & Hrs & Hacm & Ht & Hct).
  cbn zeta in *. unfold clone.
  set (d := decoupleParent (diff scene)) in *.
  assert (Hrs' : getCurrentState (set_name_ (getName scene) d) = getCurrentState scene).
  { transitivity (getCurrentState d); [by destruct d | by rewrite Hrs]. }
  assert (Ht' : getTransforms (set_name_ (getName scene) d) = getTransforms scene).
  { transitivity (getTransforms d); [by destruct d | by rewrite Ht]. }
  split; [done |]. split; [done |]. split; [done |]. split; [done |].
  split; [done |]. split; [| split; [done |]; split].
  - transitivity (getAllowedCollisionMatrix d); [by destruct d | by rewrite Hacm].
  - intros object_id. destruct (Hct object_id) as (Hc & _ & Hty & _).
    split.
    + transitivity (getObjectColor d object_id); [by destruct d | by rewrite Hc].
    + transitivity (getObjectType d object_id); [by destruct d | by rewrite Hty].
  - intros frame_id. unfold getFrameTransform_const. rewrite Hrs'.
    by apply getFrameTransform_state_congr.
Qed.

(** X23. After [clearDiffs] a fork has nothing to push: when the copy of a
    collision environment keeps its padding and scale, [pushDiffs] of the
    cleared fork leaves its parent exactly as it was. *)
Theorem pushDiffs_after_clearDiffs s p :
  (∀ allocator e,
     link_padding (env_copy allocator e) = link_padding e
     ∧ link_scale (env_copy allocator e) = link_scale e) →
  parent_ s = Some p →
  pushDiffs true (clearDiffs s) p = p.
Proof.
  intros Hcopy Hp. unfold clearDiffs. rewrite Hp. unfold pushDiffs. cbn.
  rewrite map_to_list_empty. cbn.
  destruct (Hcopy (alloc_ (collision_detector_ p)) (cenv_ (collision_detector_ p)))
    as [-> ->].
  by destruct p as [? ? ? ? ? ? ? ? ? ? ? [? [? ?] ?] ? ?].
Qed.

End Hierarchy.

(** ** Clearing the changes of a fork *)

Section Rollback.
Context {ext : External} {col : Collaborators}.
Implicit Types (s : PlanningScene) (object : CollisionObject).
Implicit Types (msg : AttachedCollisionObject).

(** The members [clearDiffs] keeps. *)
Local Abbreviation kept s s' :=
  (name_ s' = name_ s ∧ parent_ s' = parent_ s ∧ robot_model_ s' = robot_model_ s
   ∧ original_object_colors_ s' = original_object_colors_ s
   ∧ state_feasibility_ s' = state_feasibility_ s
   ∧ motion_feasibility_ s' = motion_feasibility_ s).

Lemma kept_trans s1 s2 s3 : kept s1 s2 → kept s2 s3 → kept s1 s3.
Proof. intros (? & ? & ? & ? & ? & ?) (? & ? & ? & ? & ? & ?). repeat split; congruence. Qed.

Lemma kept_clearDiffs s s' p :
  parent_ s = Some p → kept s s' → clearDiffs s' = clearDiffs s.
Proof.
  intros Hq (Hn & Hp & Hm & Ho & Hs & Hmf). unfold clearDiffs.
  rewrite Hp, Hn, Hm, Ho, Hs, Hmf, Hq. done.
Qed.

Ltac kept_tac :=
  repeat (match goal with
          | |- context [match ?x with _ => _ end] => destruct x; cbn
          | |- context [if ?x then _ else _] => destruct x; cbn
          end);
  repeat split; done.

Lemma kept_removeObject (i : string) s : kept s (removeObject i s).2.
Proof. unfold removeObject, World_removeObject. kept_tac. Qed.

Lemma kept_addToObject (i : string) p sh sp s : kept s (addToObject i p sh sp s).
Proof. unfold addToObject, World_addToObject. kept_tac. Qed.

Lemma kept_addToObject1 (i : string) sh p s : kept s (addToObject1 i sh p s).
Proof. unfold addToObject1, World_addToObject1. kept_tac. Qed.

Lemma kept_setObjectPose (i : string) p s : kept s (setObjectPose i p s).
Proof. unfold setObjectPose, World_setObjectPose. kept_tac. Qed.

Lemma kept_moveShapesInObject (i : string) sp s : kept s (moveShapesInObject i sp s).2.
Proof. unfold moveShapesInObject, World_moveShapesInObject. kept_tac. Qed.

Lemma kept_setSubframesOfObject (i : string) sf s : kept s (setSubframesOfObject i sf s).2.
Proof. unfold setSubframesOfObject, World_setSubframesOfObject. kept_tac. Qed.

Lemma kept_getFrameTransform (f : string) s : kept s (getFrameTransform f s).2.
Proof. unfold getFrameTransform. kept_tac. Qed.

Lemma kept_setObjectType (i : string) t s : kept s (setObjectType i t s).
Proof. done. Qed.

Lemma kept_removeObjectType (i : string) s : kept s (removeObjectType i s).
Proof. unfold removeObjectType. kept_tac. Qed.

Lemma kept_removeObjectColor (i : string) s : kept s (removeObjectColor i s).
Proof. unfold removeObjectColor. kept_tac. Qed.

Lemma kept_acm_removeEntry_NonConst (i : string) s : kept s (acm_removeEntry_NonConst i s).
Proof.
  unfold acm_removeEntry_NonConst, getAllowedCollisionMatrixNonConst.
  by destruct (acm_ s).
Qed.

(** A color that has an original color recorded is set without a change of
    the original colors. *)
Lemma kept_setObjectColor (i : string) c c' s :
  getOriginalObjectColor s i = Some c' → kept s (setObjectColor i c s).
Proof.
  unfold setObjectColor, getOriginalObjectColor.
  destruct s as [? ? ? ? ? ? ? ? ? [m |] ? ? ? ?]; cbn; [| done]. intros Hi.
  destruct (bool_decide (i = ""%string)); cbn; [done |].
  rewrite Hi. done.
Qed.

Lemma kept_processCollisionObjectMsg object s :
  kept s (processCollisionObjectMsg object s).2.
Proof.
  unfold processCollisionObjectMsg.
  destruct (bool_decide (id object = OCTOMAP_NS)); [done |].
  destruct (_ || _).
  { unfold processCollisionObjectAdd.
    destruct (negb _); [done |]. destruct (_ && _ && _); [done |].
    set (s1 := if (operation object =? ADD)%Z && _ then _ else s).
    assert (H1 : kept s s1).
    { subst s1. destruct (_ && _); [apply kept_removeObject | done]. }
    pose proof (kept_getFrameTransform (header_frame_id object) s1) as H2.
    destruct (getFrameTransform _ s1) as [t s2]. cbn [snd] in H2.
    pose proof (kept_trans _ _ _ H1 H2) as H12.
    destruct (shapesAndPosesFromCollisionObjectMessage object) as [[[h sh] sp] |];
      [| done]. cbn [snd].
    eapply kept_trans; [| apply kept_setSubframesOfObject].
    destruct (_ || _).
    - eapply kept_trans; [| apply kept_setObjectType].
      eapply kept_trans; [exact H12 | apply kept_addToObject].
    - eapply kept_trans; [exact H12 | apply kept_addToObject]. }
  destruct (operation object =? REMOVE)%Z.
  { unfold processCollisionObjectRemove.
    destruct (bool_decide (id object = ""%string)); cbn [snd].
    - unfold removeAllCollisionObjects.
      generalize (World_getObjectIds (world_ s)). intros ids.
      assert (∀ s', kept s s' →
                kept s (foldl (fun s object_id =>
                   if negb (bool_decide (object_id = OCTOMAP_NS))
                   then
                     acm_removeEntry_NonConst object_id
                       (removeObjectType object_id
                          (removeObjectColor object_id (removeObject object_id s).2))
                   else s) s' ids)) as Hfold.
      { induction ids as [| i ids IH]; intros s' Hs'; cbn [foldl]; [done |].
        apply IH. destruct (negb _); [| done].
        eapply kept_trans; [| apply kept_acm_removeEntry_NonConst].
        eapply kept_trans; [| apply kept_removeObjectType].
        eapply kept_trans; [| apply kept_removeObjectColor].
        eapply kept_trans; [exact Hs' | apply kept_removeObject]. }
      by apply Hfold.
    - pose proof (kept_removeObject (id object) s) as H1.
      destruct (removeObject (id object) s) as [found s1]. cbn [snd] in H1.
      destruct (negb found); [done |]. cbn [snd].
      eapply kept_trans; [| apply kept_acm_removeEntry_NonConst].
      eapply kept_trans; [| apply kept_removeObjectType].
      eapply kept_trans; [exact H1 | apply kept_removeObjectColor]. }
  destruct (operation object =? MOVE)%Z; [| done].
  unfold processCollisionObjectMove.
  destruct (World_hasObject _ _); [| done].
  pose proof (kept_getFrameTransform (header_frame_id object) s) as H1.
  destruct (getFrameTransform _ s) as [t s1]. cbn [snd] in H1.
  set (s2 := setObjectPose _ _ s1).
  assert (H2 : kept s s2).
  { eapply kept_trans; [exact H1 | apply kept_setObjectPose]. }
  destruct (_ || _); [| done].
  destruct (negb (_ =? _)%nat); [done |].
  match goal with |- context [moveShapesInObject ?i ?sp s2] =>
    pose proof (kept_moveShapesInObject i sp s2) as H3;
    destruct (moveShapesInObject i sp s2) as [moved s3] end.
  cbn [snd] in H3. pose proof (kept_trans _ _ _ H2 H3).
  by destruct moved.
Qed.


Lemma kept_attach msg s : kept s (attach msg s).2.
Proof.
  unfold attach.
  set (step1 := if (operation (object msg) =? ADD)%Z && _ && _ && _ then _ else _).
  assert (Hstep : kept s step1.2).
  { subst step1. destruct (_ && _ && _ && _).
    - by destruct (World_getObject _ _).
    - destruct (shapesAndPosesFromCollisionObjectMessage (object msg)) as [[[h sh] sp] |];
        [| done].
      pose proof (kept_getFrameTransform (header_frame_id (object msg)) s) as H.
      by destruct (getFrameTransform (header_frame_id (object msg)) s). }
  destruct step1 as [[[[[p sh] sp] sf] |] s1]; cbn [snd] in Hstep; [| done].
  destruct (is_nil sh); [done |].
  set (s2 := if negb _ || negb _ then setObjectType _ _ s1 else s1).
  assert (H2 : kept s s2) by (subst s2; by destruct (_ || _)).
  set (s3 := match World_getObject _ _ with Some _ => _ | None => s2 end).
  assert (H3 : kept s s3).
  { subst s3. destruct (World_getObject _ _); [| done].
    eapply kept_trans; [exact H2 | apply kept_removeObject]. }
  destruct ((operation (object msg) =? ADD)%Z
            || negb (hasAttachedBody (robot_state_value s3) (id (object msg))));
    cbn [snd]; [exact H3 |].
  destruct (getAttachedBody _ _); exact H3.
Qed.

Lemma kept_detach_body s nb : kept s (detach_body s nb).
Proof.
  unfold detach_body.
  set (s1 := if World_hasObject nb.1 (world_ s) then s else _).
  assert (H1 : kept s s1); [| exact H1].
  subst s1. destruct (World_hasObject _ _); [done |].
  set (s' := addToObject _ _ _ _ s).
  set (s'' := (setSubframesOfObject _ _ s').2).
  assert (H2 : kept s s'').
  { eapply kept_trans; [apply kept_addToObject | apply kept_setSubframesOfObject]. }
  destruct (getOriginalObjectColor s'' nb.1) as [c |] eqn:Ec; [| done].
  eapply kept_trans; [exact H2 |].
  eapply kept_setObjectColor; exact Ec.
Qed.

Lemma kept_detach msg s : kept s (detach msg s).2.
Proof.
  unfold detach. destruct (detach_select msg s) as [l |]; [| done].
  assert (H : ∀ s', kept s s' → kept s (foldl detach_body s' l)).
  { induction l as [| nb l IH]; intros s' Hs'; cbn [foldl]; [done |].
    apply IH. eapply kept_trans; [exact Hs' | apply kept_detach_body]. }
  destruct (_ || _); by apply H.
Qed.

Lemma kept_processAttachedCollisionObjectMsg msg s :
  kept s (processAttachedCollisionObjectMsg msg s).2.
Proof.
  unfold processAttachedCollisionObjectMsg.
  destruct (_ && _); [done |].
  destruct (bool_decide _); [done |].
  set (s0 := set_robot_state_ _ s).
  assert (H0 : kept s s0) by done.
  destruct (_ || _).
  - destruct (hasLinkModel _ _); [| done].
    eapply kept_trans; [exact H0 | apply kept_attach].
  - destruct (_ =? _)%Z; [| done].
    eapply kept_trans; [exact H0 | apply kept_detach].
Qed.

Lemma kept_processOctomapMsg (map : Octomap) s : kept s (processOctomapMsg map s).
Proof.
  unfold processOctomapMsg.
  pose proof (kept_removeObject OCTOMAP_NS s) as H1.
  destruct (is_nil _); [done |]. destruct (negb _); [done |].
  destruct (negb _).
  - pose proof (kept_getFrameTransform (octomap_frame_id map) (removeObject OCTOMAP_NS s).2)
      as H2.
    destruct (getFrameTransform _ _) as [t s2]. cbn [snd] in H2.
    eapply kept_trans; [| apply kept_addToObject1].
    eapply kept_trans; [exact H1 | exact H2].
  - eapply kept_trans; [exact H1 | apply kept_addToObject1].
Qed.

(** X24. [clearDiffs] on a fork discards what a collision object message,
    an attached collision object message or an occupancy map message did to
    it: clearing after the message gives the same scene as clearing before
    it. *)
Theorem clearDiffs_discards_changes s p :
  parent_ s = Some p →
  (∀ object, clearDiffs (processCollisionObjectMsg object s).2 = clearDiffs s)
  ∧ (∀ msg, clearDiffs (processAttachedCollisionObjectMsg msg s).2 = clearDiffs s)
  ∧ (∀ map : Octomap, clearDiffs (processOctomapMsg map s) = clearDiffs s).
Proof.
  intros Hp. split; [| split].
  - intros object. eapply kept_clearDiffs; [done | apply kept_processCollisionObjectMsg].
  - intros msg. eapply kept_clearDiffs; [done |].
    apply kept_processAttachedCollisionObjectMsg.
  - intros map. eapply kept_clearDiffs; [done | apply kept_processOctomapMsg].
Qed.

End Rollback.

(** ** Validity of paths *)

Section Validity.
Context {ext : External} {col : Collaborators} {chk : Checks}.
Implicit Types (s : PlanningScene) (st : RobotState).

(** X25. [isStateColliding] asks the padded environment for collisions with
    the world first and reports a collision as soon as that query finds
    one; only otherwise does it ask the unpadded environment for self
    collisions, starting from the result of the first query. *)
Theorem isStateColliding_queries s st (group : string) (verbose : bool) :
  let req := mkCollisionRequest group true false false 1 1 verbose in
  let acm := getAllowedCollisionMatrix s in
  let env_res :=
    env_checkRobotCollision (getCollisionEnv s) (world_ s) req CollisionResult_default
      st acm in
  isStateColliding s st group verbose
  = if collision env_res then true
    else collision (env_checkSelfCollision (getCollisionEnvUnpadded s) (world_ s) req
                      env_res st acm).
Proof.
  cbn zeta. unfold isStateColliding, checkCollision_state, checkCollision,
    call_checkRobotCollision, call_checkSelfCollision.
  cbn [pad_environment_collisions pad_self_collisions contacts max_contacts
       max_contacts_per_pair CollisionRequest_default negb orb].
  destruct (collision (env_checkRobotCollision _ _ _ _ _ _)) eqn:E; cbn [andb fst snd].
  - by rewrite E.
  - done.
Qed.

(** The verdict of one round on the way point. *)
Lemma isPathValid_step_valid s path_constraints goals group verbose n_wp i st acc :
  let ks_p := KinematicConstraintSet_add path_constraints (getTransforms s)
                (mkKinematicConstraintSet (getRobotModel s) []) in
  let valid := isStateValid s st path_constraints group verbose in
  let goal_ok :=
    negb ((i + 1 =? n_wp)%nat && negb (is_nil goals))
    || existsb (fun g => isStateConstrained s st g false) goals in
  isPathValid_step s ks_p goals group verbose n_wp i st acc
  = match acc.2 with
    | None => if valid then Some (acc.1 && goal_ok, None) else None
    | Some index =>
        Some (acc.1 && valid && goal_ok,
              Some (index ++ (if valid then [] else [i]) ++ (if goal_ok then [] else [i])))
    end.
Proof.
  intros ks_p valid goal_ok. subst valid goal_ok.
  unfold isPathValid_step, isStateValid, isStateConstrained, isStateConstrained_set.
  fold ks_p. destruct acc as [result [index |]]; cbn [fst snd];
    destruct (isStateColliding s st group verbose);
    destruct (isStateFeasible s st verbose);
    destruct (KinematicConstraintSet_empty ks_p);
    destruct (KinematicConstraintSet_decide ks_p st verbose);
    cbn [negb andb orb];
    destruct ((i + 1 =? n_wp)%nat && negb (is_nil goals)); cbn [negb andb orb];
    try destruct (existsb _ goals); cbn [negb andb orb fmap option_fmap option_map];
    rewrite ?andb_true_r, ?andb_false_r, ?app_nil_r, <- ?app_assoc; try done;
    by destruct result.
Qed.


Lemma isPathValid_loop_spec s path_constraints goals group verbose n_wp way_points :
  let ks_p := KinematicConstraintSet_add path_constraints (getTransforms s)
                (mkKinematicConstraintSet (getRobotModel s) []) in
  let valid := fun st => isStateValid s st path_constraints group verbose in
  let goal_ok := fun wps : list RobotState =>
    is_nil goals
    || from_option (fun st => existsb (fun g => isStateConstrained s st g false) goals)
         true (last wps) in
  ∀ i acc, n_wp = (i + length way_points)%nat →
    (isPathValid_loop s ks_p goals group verbose n_wp i way_points acc).1
    = acc.1 && forallb valid way_points && goal_ok way_points
    ∧ (isPathValid_loop s ks_p goals group verbose n_wp i way_points acc).2
      = match acc.2 with
        | None => None
        | Some index =>
            Some (index
                  ++ (filter (fun kst => valid kst.2 = false)
                        (imap (fun k st => ((i + k)%nat, st)) way_points)).*1
                  ++ (if goal_ok way_points then [] else [(n_wp - 1)%nat]))
        end.
Proof.
  intros ks_p valid goal_ok.
  induction way_points as [| st rest IH]; intros i acc Hn.
  - cbn. subst goal_ok. cbn. rewrite orb_true_r, !andb_true_r.
    split; [done |]. destruct acc.2; [| done]. by rewrite app_nil_r.
  - cbn [isPathValid_loop]. subst ks_p.
    rewrite isPathValid_step_valid.
    change (isStateValid s st path_constraints group verbose) with (valid st).
    set (gstep := negb ((i + 1 =? n_wp)%nat && negb (is_nil goals))
                  || existsb (fun g => isStateConstrained s st g false) goals).
    assert (Hg : gstep && goal_ok rest = goal_ok (st :: rest)
                 ∧ (if gstep then [] else [i])
                   ++ (if goal_ok rest then [] else [(n_wp - 1)%nat])
                   = if goal_ok (st :: rest) then [] else [(n_wp - 1)%nat]).
    { subst gstep goal_ok. cbn beta. destruct rest as [| st' rest'].
      - cbn [length] in Hn. replace (i + 1 =? n_wp)%nat with true
          by (symmetry; apply Nat.eqb_eq; lia).
        cbn [last from_option andb negb]. rewrite orb_true_r, andb_true_r.
        replace (n_wp - 1)%nat with i by lia.
        rewrite negb_involutive, app_nil_r. done.
      - cbn [length] in Hn. replace (i + 1 =? n_wp)%nat with false
          by (symmetry; apply Nat.eqb_neq; lia).
        cbn [andb negb orb]. done. }
    destruct Hg as [Hg1 Hg2].
    assert (Hn' : n_wp = (S i + length rest)%nat) by (cbn [length] in Hn; lia).
    assert (Himap : imap (fun k st0 => ((i + k)%nat, st0)) (st :: rest)
                    = ((i, st) :: imap (fun k st0 => ((S i + k)%nat, st0)) rest)).
    { cbn [imap]. f_equal; [f_equal; lia |]. apply imap_ext. intros k x _. cbn.
      f_equal. lia. }
    rewrite Himap. cbn [forallb]. rewrite filter_cons. cbn [snd].
    destruct acc as [result [index |]]; cbn [fst snd].
    + destruct (IH (S i) (result && valid st && gstep,
                          Some (index ++ (if valid st then [] else [i])
                                ++ (if gstep then [] else [i]))) Hn') as [-> ->].
      cbn [fst snd]. split.
      * rewrite <- Hg1. by destruct result, (valid st), gstep, (forallb valid rest).
      * f_equal. rewrite <- Hg2, <- !app_assoc. f_equal.
        assert (Hlast : gstep = false → rest = []).
        { intros Eg. destruct rest as [| st' rest']; [done |].
          exfalso. subst gstep. cbn [length] in Hn.
          replace (i + 1 =? n_wp)%nat with false in Eg
            by (symmetry; apply Nat.eqb_neq; lia). done. }
        destruct (valid st) eqn:Ev.
        -- rewrite decide_False by done. cbn [app].
           destruct gstep; cbn [app]; [done |]. by rewrite Hlast.
        -- rewrite decide_True by done. cbn [app fmap list_fmap fst]. f_equal.
           destruct gstep; cbn [app]; [done |]. by rewrite Hlast.
    + destruct (valid st) eqn:Ev.
      * destruct (IH (S i) (result && gstep, None) Hn') as [-> ->]. cbn [fst snd].
        split; [| done]. rewrite <- Hg1.
        by destruct result, gstep, (forallb valid rest).
      * cbn [fst snd]. split; [| done]. by rewrite andb_false_r.
Qed.

(** X26. The verdict of [isPathValid]: every way point is valid
    ([isStateValid] with the path constraints), and the last way point
    satisfies one of the goal constraints when there are any; a path without
    way points is valid.  The verdict does not depend on whether a buffer
    for the invalid indices is passed. *)
Theorem isPathValid_verdict s trajectory path_constraints goal_constraints group verbose
    invalid_index :
  (isPathValid s trajectory path_constraints goal_constraints group verbose invalid_index).1
  = forallb (fun st => isStateValid s st path_constraints group verbose) trajectory
    && (is_nil goal_constraints
        || from_option
             (fun st => existsb (fun g => isStateConstrained s st g false) goal_constraints)
             true (last trajectory)).
Proof.
  unfold isPathValid.
  destruct (isPathValid_loop_spec s path_constraints goal_constraints group verbose
              (length trajectory) trajectory 0%nat
              (true, (fun _ => []) <$> invalid_index) eq_refl) as [-> _].
  done.
Qed.

(** X27. With a buffer, [isPathValid] clears it and leaves in it the
    indices of the invalid way points in order, followed by the index of
    the last way point when the goal is not satisfied (that index can so
    appear twice); the verdict is [true] exactly when the buffer is left
    empty. *)
Theorem isPathValid_invalid_index s trajectory path_constraints goal_constraints group
    verbose buffer :
  let valid := fun st => isStateValid s st path_constraints group verbose in
  let goal_ok :=
    is_nil goal_constraints
    || from_option
         (fun st => existsb (fun g => isStateConstrained s st g false) goal_constraints)
         true (last trajectory) in
  let out := isPathValid s trajectory path_constraints goal_constraints group verbose
               (Some buffer) in
  out.2 = Some ((filter (fun kst => valid kst.2 = false) (imap pair trajectory)).*1
                ++ (if goal_ok then [] else [(length trajectory - 1)%nat]))
  ∧ (out.1 = true ↔ out.2 = Some []).
Proof.
  intros valid goal_ok out. subst out. unfold isPathValid.
  destruct (isPathValid_loop_spec s path_constraints goal_constraints group verbose
              (length trajectory) trajectory 0%nat
              (true, (fun _ => []) <$> Some buffer) eq_refl) as [H1 H2].
  cbn [fst snd fmap option_fmap option_map] in H1, H2 |- *.
  rewrite H1, H2. clear H1 H2. cbn [app andb].
  change (imap (λ (k : nat) (st : RobotState), ((0 + k)%nat, st)) trajectory)
    with (imap pair trajectory).
  fold goal_ok. subst valid. cbn beta.
  split; [done |].
  assert (Hgen : ∀ (l : list RobotState) (f : nat → RobotState → nat * RobotState),
            (∀ k x, (f k x).2 = x) →
            forallb (fun st => isStateValid s st path_constraints group verbose) l = true
            ↔ (filter (fun kst : nat * RobotState =>
                         isStateValid s kst.2 path_constraints group verbose = false)
                 (imap f l)).*1 = []).
  { clear. intros l. induction l as [| x l IH]; intros f Hf; cbn [imap forallb];
      [done |].
    rewrite filter_cons, Hf.
    destruct (isStateValid s x path_constraints group verbose) eqn:E; cbn [andb].
    - rewrite decide_False by done. apply IH. intros k y. apply Hf.
    - rewrite decide_True by done. cbn. split; intros; done. }
  pose proof (Hgen trajectory pair (fun _ _ => eq_refl)) as Hf.
  split.
  - intros H. apply andb_true_iff in H as [Hv Hg]. apply Hf in Hv.
    by rewrite Hv, Hg.
  - intros [= H]. apply app_eq_nil in H as [Hv Hg]. apply Hf in Hv. rewrite Hv.
    by destruct goal_ok.
Qed.

End Validity.

(** ** Messages written from the world *)

Section ObjectMessages.
Context {ext : External} {col : Collaborators} {enc : Encoders}.
Implicit Types (s : PlanningScene) (co : CollisionObject).

(** The vectors of a message go in pairs, and its head is the one given. *)
Local Abbreviation paired co :=
  (length (primitive_poses co) = length (primitives co)
   ∧ length (mesh_poses co) = length (meshes co)
   ∧ length (plane_poses co) = length (planes co)
   ∧ length (subframe_names co) = length (subframe_poses co)).

Local Abbreviation same_head co co' :=
  (header_frame_id co' = header_frame_id co ∧ id co' = id co
   ∧ operation co' = operation co).

Lemma paired_visitor co p sm :
  paired co →
  paired (ShapeVisitorAddToCollisionObject co p sm)
  ∧ same_head co (ShapeVisitorAddToCollisionObject co p sm).
Proof.
  intros (H1 & H2 & H3 & H4).
  destruct sm; cbn; rewrite ?length_app; cbn; repeat split; try done; lia.
Qed.

Lemma paired_shapes {A} (f : A → option ShapeMsg) (g : A → Pose) (l : list A) co :
  paired co →
  paired (foldl (fun co x => match f x with
                             | Some sm => ShapeVisitorAddToCollisionObject co (g x) sm
                             | None => co
                             end) co l)
  ∧ same_head co (foldl (fun co x => match f x with
                             | Some sm => ShapeVisitorAddToCollisionObject co (g x) sm
                             | None => co
                             end) co l).
Proof.
  revert co. induction l as [| x l IH]; intros co Hco; cbn [foldl]; [done |].
  destruct (f x) as [sm |]; [| by apply IH].
  destruct (paired_visitor co (g x) sm Hco) as [Hp (Hh1 & Hh2 & Hh3)].
  destruct (IH _ Hp) as [IHp (IH1 & IH2 & IH3)].
  split; [done |]. repeat split; congruence.
Qed.

Lemma paired_subframes (l : list (string * Isometry3d)) co :
  paired co →
  paired (foldl (fun co frame_pair =>
                   mkCollisionObject (header_frame_id co) (pose co) (id co) (type co)
                     (primitives co) (primitive_poses co) (meshes co) (mesh_poses co)
                     (planes co) (plane_poses co)
                     (subframe_names co ++ [frame_pair.1])
                     (subframe_poses co ++ [toMsg frame_pair.2])
                     (operation co)) co l)
  ∧ same_head co (foldl (fun co frame_pair =>
                   mkCollisionObject (header_frame_id co) (pose co) (id co) (type co)
                     (primitives co) (primitive_poses co) (meshes co) (mesh_poses co)
                     (planes co) (plane_poses co)
                     (subframe_names co ++ [frame_pair.1])
                     (subframe_poses co ++ [toMsg frame_pair.2])
                     (operation co)) co l).
Proof.
  revert co. induction l as [| x l IH]; intros co Hco; cbn [foldl]; [done |].
  destruct Hco as (H1 & H2 & H3 & H4).
  match goal with |- context [foldl _ ?c l] => destruct (IH c) as [IHp (IH1 & IH2 & IH3)] end.
  { cbn. rewrite !length_app. cbn. repeat split; try done; lia. }
  split; [done |]. cbn in IH1, IH2, IH3. done.
Qed.

Lemma paired_accepted co :
  paired co → is_Some (shapesAndPosesFromCollisionObjectMessage co).
Proof.
  intros (H1 & H2 & H3 & _). unfold shapesAndPosesFromCollisionObjectMessage.
  rewrite H1, H2, H3, !Nat.ltb_irrefl. eauto.
Qed.

(** The id of the message written for an object of the world. *)
Lemma getCollisionObjectMsg_id s co (ns : string) :
  is_Some (world_ s !! ns) → id (getCollisionObjectMsg s co ns).2 = ns.
Proof.
  intros [obj E]. unfold getCollisionObjectMsg, World_getObject. rewrite E. cbn [snd].
  set (co1 := mkCollisionObject (getPlanningFrame s) _ ns _ _ _ _ _ _ _ _ _ ADD).
  set (f := fun co (jshape : nat * Shape) =>
              match constructMsgFromShape jshape.2 with
              | Some sm =>
                  ShapeVisitorAddToCollisionObject co
                    (toMsg (default Identity (shape_poses_ obj !! jshape.1))) sm
              | None => co
              end).
  assert (H2 : ∀ l co', id (foldl f co' l) = id co').
  { induction l as [| x l IH]; intros co'; cbn [foldl]; [done |].
    rewrite IH. subst f. cbn beta. destruct (constructMsgFromShape x.2) as [[? | ? | ?] |];
      done. }
  set (co2 := foldl f co1 (imap pair (shapes_ obj))).
  assert (I2 : id co2 = ns) by (subst co2; by rewrite H2).
  set (co3 := if negb (is_nil (primitives co2)) || _ || _ then _ else co2).
  assert (I3 : id co3 = ns).
  { subst co3. destruct (_ || _ || _); [| done]. by destruct (hasObjectType _ _). }
  generalize (map_to_list (subframe_poses_ obj)). intros l.
  revert I3. generalize co3. induction l as [| x l IH]; intros co' Hco'; cbn [foldl];
    [done |].
  by apply IH.
Qed.

(** X28. [getCollisionObjectMsg] on a fresh message fails exactly when the
    world has no such object, leaving the message untouched; otherwise the
    message is an [ADD] of that id in the planning frame whose shapes and
    poses go in pairs, kind by kind, as do the subframe names and poses, so
    that [shapesAndPosesFromCollisionObjectMessage] accepts it. *)
Theorem getCollisionObjectMsg_well_formed s (ns : string) :
  let out := getCollisionObjectMsg s CollisionObject_default ns in
  out.1 = World_hasObject ns (world_ s)
  ∧ (out.1 = false → out.2 = CollisionObject_default)
  ∧ (out.1 = true →
     id out.2 = ns ∧ operation out.2 = ADD
     ∧ header_frame_id out.2 = getPlanningFrame s
     ∧ length (primitive_poses out.2) = length (primitives out.2)
     ∧ length (mesh_poses out.2) = length (meshes out.2)
     ∧ length (plane_poses out.2) = length (planes out.2)
     ∧ length (subframe_names out.2) = length (subframe_poses out.2)
     ∧ is_Some (shapesAndPosesFromCollisionObjectMessage out.2)).
Proof.
  cbn zeta. unfold getCollisionObjectMsg, World_getObject, World_hasObject.
  destruct (world_ s !! ns) as [obj |] eqn:E; cbn [fst snd].
  2:{ rewrite bool_decide_eq_false_2 by (by intros [? ?]). done. }
  rewrite bool_decide_eq_true_2 by eauto.
  split; [done |]. split; [done |]. intros _.
  set (co1 := mkCollisionObject (getPlanningFrame s) _ ns _ _ _ _ _ _ _ _ _ ADD).
  assert (H1 : paired co1) by done.
  destruct (paired_shapes (fun jshape : nat * Shape => constructMsgFromShape jshape.2)
              (fun jshape => toMsg (default Identity (shape_poses_ obj !! jshape.1)))
              (imap pair (shapes_ obj)) co1 H1) as [H2 Hh2].
  set (co2 := foldl _ co1 (imap pair (shapes_ obj))) in *.
  set (co3 := if negb (is_nil (primitives co2)) || _ || _ then _ else co2).
  assert (H3 : paired co3 ∧ same_head co2 co3).
  { subst co3. destruct (_ || _ || _); [| done]. by destruct (hasObjectType _ _). }
  destruct H3 as [H3 Hh3].
  destruct (paired_subframes (map_to_list (subframe_poses_ obj)) co3 H3) as [H4 Hh4].
  set (co4 := foldl _ co3 (map_to_list (subframe_poses_ obj))) in *.
  destruct Hh2 as (A1 & A2 & A3), Hh3 as (B1 & B2 & B3), Hh4 as (C1 & C2 & C3).
  destruct H4 as (P1 & P2 & P3 & P4).
  assert (I1 : id co1 = ns) by done.
  assert (I2 : operation co1 = ADD) by done.
  assert (I3 : header_frame_id co1 = getPlanningFrame s) by done.
  split; [congruence |]. split; [congruence |]. split; [congruence |].
  split; [done |]. split; [done |]. split; [done |]. split; [done |].
  by apply paired_accepted.
Qed.

(** X29. [getCollisionObjectMsgs] gives one message for every object of
    the world except the occupancy map, in the order of the object ids. *)
Theorem getCollisionObjectMsgs_ids s :
  id <$> getCollisionObjectMsgs s
  = filter (fun object_id => object_id ≠ OCTOMAP_NS) (World_getObjectIds (world_ s)).
Proof.
  unfold getCollisionObjectMsgs.
  assert (Hgen : ∀ (ids : list string) (acc : list CollisionObject),
            (∀ i, i ∈ ids → is_Some (world_ s !! i)) →
            id <$> foldl (fun collision_objs object_id =>
                     if negb (bool_decide (object_id = OCTOMAP_NS))
                     then collision_objs
                            ++ [(getCollisionObjectMsg s CollisionObject_default
                                   object_id).2]
                     else collision_objs) acc ids
            = (id <$> acc) ++ filter (fun object_id => object_id ≠ OCTOMAP_NS) ids).
  { induction ids as [| i ids IH]; intros acc Hin; cbn [foldl].
    - by rewrite app_nil_r.
    - rewrite IH by (intros j Hj; apply Hin; by right).
      rewrite filter_cons. destruct (decide (i = OCTOMAP_NS)) as [Hi | Hi].
      + rewrite bool_decide_eq_true_2 by done. cbn [negb].
        by rewrite decide_False by (by intros ?).
      + rewrite bool_decide_eq_false_2 by done. cbn [negb].
        rewrite decide_True by done. rewrite fmap_app, <- app_assoc. cbn.
        do 2 f_equal.
        apply getCollisionObjectMsg_id, Hin. by left. }
  rewrite Hgen; [done |].
  intros i Hi. unfold World_getObjectIds in Hi.
  apply list_elem_of_fmap in Hi as [[j o] [-> Hi]].
  apply elem_of_map_to_list in Hi. cbn. eauto.
Qed.

End ObjectMessages.

(** ** Geometry texts without objects *)

Section EmptyGeometry.
Context {ext : External} {col : Collaborators}.
Implicit Types (s : PlanningScene).

(** X30. A geometry text without an object cannot be loaded: when the scan
    for the first [*] line runs to the end of the text, the stream has
    failed, [seekg] cannot put it back, and the call returns [false] with
    only the name of the scene changed. *)
Theorem loadGeometryFromStream_no_object (i : istream) offset s :
  good i = true → eof i = false →
  let i1 := (getline i (name_ s)).2 in
  let i2 := (tellg i1).2 in
  good (find_marker_line (String.length (buf i2)) i2 EmptyString).2 = false →
  loadGeometryFromStream i offset s = (false, set_name_ (getline i (name_ s)).1 s).
Proof.
  intros Hgood Heof i1 i2 Hnone. unfold loadGeometryFromStream.
  rewrite Hgood, Heof. cbn [negb orb].
  unfold load_header. subst i1 i2.
  destruct (getline i (name_ s)) as [name j1]. cbn [fst snd] in *.
  destruct (tellg j1) as [pos j2]. cbn [fst snd] in *.
  destruct (find_marker_line (String.length (buf j2)) j2 EmptyString) as [line j3].
  cbn [fst snd] in *.
  assert (Hj4 : failbit (getline j3 line).2 = true).
  { unfold getline, sentry. rewrite Hnone. done. }
  destruct (getline j3 line) as [line' j4]. cbn [snd] in Hj4.
  assert (Hseek : failbit (seekg pos j4) = true).
  { unfold seekg. by rewrite Hj4. }
  set (j5 := seekg pos j4) in *.
  cbn [load_loop]. unfold load_step, extract_string, sentry, good.
  rewrite Hseek. done.
Qed.

End EmptyGeometry.

(** ** The properties above at concrete scenes *)

Section EffectsAtConcrete.
#[local] Existing Instance Concrete.ZExternal.
#[local] Existing Instance Concrete.ZCollaborators.

Lemma setObjectColor_getObjectColor_witness :
  getObjectColor (setObjectColor "box" Concrete.red Concrete.empty_scene) "box"
  = Some Concrete.red.
Proof.
  assert (H : "box"%string ≠ ""%string) by discriminate.
  exact (proj1 (setObjectColor_getObjectColor Concrete.empty_scene "box" Concrete.red H)).
Defined.

Lemma original_color_recorded_once_witness :
  getOriginalObjectColor
    (setObjectColor "box" Concrete.blue
       (removeObjectColor "box" (setObjectColor "box" Concrete.red Concrete.empty_scene)))
    "box"
  = Some Concrete.red.
Proof.
  assert (H1 : "box"%string ≠ ""%string) by discriminate.
  assert (H2 : getOriginalObjectColor Concrete.empty_scene "box" = None) by reflexivity.
  exact (proj2 (proj2 (original_color_recorded_once "box" Concrete.red Concrete.blue
                         Concrete.empty_scene H1 H2))).
Defined.

Lemma shapesAndPosesFromCollisionObjectMessage_single_shape_witness :
  shapesAndPosesFromCollisionObjectMessage Concrete.add_box
  = Some (1%Z, ["box"%string], [0%Z]).
Proof.
  assert (H : (length (primitive_poses Concrete.add_box) ≤ 1)%nat) by (simpl; lia).
  exact (shapesAndPosesFromCollisionObjectMessage_single_shape Concrete.add_box
           "box"%string "box"%string eq_refl eq_refl eq_refl H eq_refl eq_refl eq_refl).
Defined.

Lemma processCollisionObjectMsg_ADD_replaces_witness :
  (processCollisionObjectMsg Concrete.add_box Concrete.box_scene).1 = true
  ∧ world_ (processCollisionObjectMsg Concrete.add_box Concrete.box_scene).2
    = <["box"%string := Concrete.box_at 1]> (world_ Concrete.box_scene).
Proof.
  assert (H1 : id Concrete.add_box ≠ OCTOMAP_NS) by discriminate.
  assert (H2 : knowsFrameTransform Concrete.box_scene (header_frame_id Concrete.add_box)
               = true) by (vm_compute; reflexivity).
  assert (H3 : ["box"%string] ≠ []) by discriminate.
  assert (H4 : length (subframe_poses Concrete.add_box)
               ≤ length (subframe_names Concrete.add_box)) by (simpl; lia).
  exact (processCollisionObjectMsg_ADD_replaces Concrete.add_box Concrete.box_scene
           1%Z ["box"%string] [0%Z] eq_refl H1 H2 eq_refl H3 H4).
Defined.

Lemma processCollisionObjectMsg_APPEND_extends_witness :
  (processCollisionObjectMsg Concrete.append_sphere Concrete.box_scene).1 = true
  ∧ world_ (processCollisionObjectMsg Concrete.append_sphere Concrete.box_scene).2
    = <["box"%string := Concrete.box_and_sphere]> (world_ Concrete.box_scene).
Proof.
  assert (H1 : id Concrete.append_sphere ≠ OCTOMAP_NS) by discriminate.
  assert (H2 : knowsFrameTransform Concrete.box_scene
                 (header_frame_id Concrete.append_sphere) = true)
    by (vm_compute; reflexivity).
  assert (H3 : ["sphere"%string] ≠ []) by discriminate.
  assert (H4 : world_ Concrete.box_scene !! id Concrete.append_sphere
               = Some (Concrete.box_at 1)) by (vm_compute; reflexivity).
  assert (H5 : length (subframe_poses Concrete.append_sphere)
               ≤ length (subframe_names Concrete.append_sphere)) by (simpl; lia).
  exact (processCollisionObjectMsg_APPEND_extends Concrete.append_sphere
           Concrete.box_scene (Concrete.box_at 1) 5%Z ["sphere"%string] [3%Z]
           eq_refl H1 H2 eq_refl H3 H5 H4).
Defined.

Lemma processCollisionObjectMsg_ADD_failure_removes_witness :
  (processCollisionObjectMsg Concrete.add_two_poses Concrete.box_scene).1 = false
  ∧ world_ (processCollisionObjectMsg Concrete.add_two_poses Concrete.box_scene).2
    = delete "box"%string (world_ Concrete.box_scene).
Proof.
  assert (H1 : id Concrete.add_two_poses ≠ OCTOMAP_NS) by discriminate.
  assert (H2 : knowsFrameTransform Concrete.box_scene
                 (header_frame_id Concrete.add_two_poses) = true)
    by (vm_compute; reflexivity).
  exact (processCollisionObjectMsg_ADD_failure_removes Concrete.add_two_poses
           Concrete.box_scene eq_refl H1 H2 eq_refl eq_refl).
Defined.

Lemma processCollisionObjectMsg_REMOVE_object_witness :
  (processCollisionObjectMsg Concrete.remove_box Concrete.box_scene).1 = true
  ∧ world_ (processCollisionObjectMsg Concrete.remove_box Concrete.box_scene).2
    = delete "box"%string (world_ Concrete.box_scene).
Proof.
  assert (H1 : id Concrete.remove_box ≠ OCTOMAP_NS) by discriminate.
  assert (H2 : id Concrete.remove_box ≠ ""%string) by discriminate.
  assert (H3 : is_Some (world_ Concrete.box_scene !! id Concrete.remove_box))
    by (exists (Concrete.box_at 1); vm_compute; reflexivity).
  destruct (proj2 (processCollisionObjectMsg_REMOVE_object Concrete.remove_box
                     Concrete.box_scene eq_refl H1 H2) H3) as (R1 & R2 & _).
  exact (conj R1 R2).
Defined.

Lemma processCollisionObjectMsg_REMOVE_all_witness :
  (processCollisionObjectMsg Concrete.remove_all Concrete.box_scene).1 = true
  ∧ world_ (processCollisionObjectMsg Concrete.remove_all Concrete.box_scene).2
      !! "box"%string = None.
Proof.
  destruct (processCollisionObjectMsg_REMOVE_all Concrete.remove_all Concrete.box_scene
              eq_refl eq_refl) as [R1 R2].
  split; [exact R1 |]. rewrite (R2 "box"%string). reflexivity.
Defined.

Lemma processCollisionObjectMsg_MOVE_moves_witness :
  (processCollisionObjectMsg Concrete.move_box Concrete.box_scene).1 = true
  ∧ world_ (processCollisionObjectMsg Concrete.move_box Concrete.box_scene).2
    = <["box"%string := mkObject 5%Z ["box"%string] [7%Z] ∅]> (world_ Concrete.box_scene).
Proof.
  assert (H1 : id Concrete.move_box ≠ OCTOMAP_NS) by discriminate.
  assert (H2 : world_ Concrete.box_scene !! id Concrete.move_box
               = Some (Concrete.box_at 1)) by (vm_compute; reflexivity).
  destruct (processCollisionObjectMsg_MOVE_moves Concrete.move_box Concrete.box_scene
              (Concrete.box_at 1) eq_refl H1 H2 eq_refl) as [Hiff Hw].
  assert (Hok : (processCollisionObjectMsg Concrete.move_box Concrete.box_scene).1 = true).
  { apply Hiff. right. reflexivity. }
  split; [exact Hok |]. rewrite (Hw Hok). reflexivity.
Defined.


Lemma processPlanningSceneWorldMsg_goes_on_witness :
  (processPlanningSceneWorldMsg Concrete.world_with_reserved Concrete.empty_scene).1 = false
  ∧ world_ (processPlanningSceneWorldMsg Concrete.world_with_reserved
              Concrete.empty_scene).2 !! "box"%string
    = Some (Concrete.box_at 1).
Proof.
  destruct (processPlanningSceneWorldMsg_goes_on Concrete.world_with_reserved
              Concrete.empty_scene [] [Concrete.add_box] Concrete.reserved_add
              eq_refl eq_refl) as [R1 R2].
  split; [exact R1 |]. rewrite R2. vm_compute. reflexivity.
Defined.

Lemma attach_world_object_witness :
  (processAttachedCollisionObjectMsg Concrete.attach_world_box Concrete.box_scene).1 = true
  ∧ world_ (processAttachedCollisionObjectMsg Concrete.attach_world_box
              Concrete.box_scene).2
    = delete "box"%string (world_ Concrete.box_scene).
Proof.
  assert (H1 : id (object Concrete.attach_world_box) ≠ OCTOMAP_NS) by discriminate.
  assert (H2 : hasLinkModel (getRobotModel Concrete.box_scene)
                 (link_name Concrete.attach_world_box) = true)
    by (vm_compute; reflexivity).
  assert (H3 : world_ Concrete.box_scene !! id (object Concrete.attach_world_box)
               = Some (Concrete.box_at 1)) by (vm_compute; reflexivity).
  assert (H4 : shapes_ (Concrete.box_at 1) ≠ []) by discriminate.
  destruct (attach_world_object Concrete.attach_world_box Concrete.box_scene
              (Concrete.box_at 1) eq_refl H1 H2 eq_refl eq_refl eq_refl H3 H4)
    as (R1 & R2 & _).
  exact (conj R1 R2).
Defined.



Lemma pushDiffs_replays_world_diff_witness :
  world_ (pushDiffs true Concrete.forked_box_scene Concrete.empty_scene) !! "box"%string
  = Some (Concrete.box_at 1).
Proof.
  assert (H1 : parent_ Concrete.forked_box_scene = Some Concrete.empty_scene)
    by reflexivity.
  assert (H2 : world_diff_ Concrete.forked_box_scene = Some Concrete.forked_box_log)
    by (vm_compute; reflexivity).
  rewrite (pushDiffs_replays_world_diff true Concrete.forked_box_scene
             Concrete.empty_scene Concrete.empty_scene Concrete.forked_box_log
             "box"%string H1 H2).
  vm_compute. reflexivity.
Defined.

Lemma fork_messages_pushDiffs_witness :
  world_ (pushDiffs true
            (foldl (fun s object => (processCollisionObjectMsg object s).2)
               (diff Concrete.empty_scene) [Concrete.add_box])
            Concrete.empty_scene)
  = world_ (foldl (fun s object => (processCollisionObjectMsg object s).2)
              (diff Concrete.empty_scene) [Concrete.add_box]).
Proof.
  assert (H1 : ∀ (j : string) (o : Object),
            world_ Concrete.empty_scene !! j = Some o →
            shapes_ o ≠ [] ∧ length (shapes_ o) = length (shape_poses_ o)).
  { intros j o H. change (world_ Concrete.empty_scene) with (∅ : gmap string Object) in H.
    rewrite lookup_empty in H. discriminate H. }
  assert (H2 : ∀ (object : CollisionObject) (pose : Isometry3d) (sh : list Shape)
                 (sp : list Isometry3d),
            object ∈ [Concrete.add_box] →
            operation object = ADD ∨ operation object = APPEND →
            shapesAndPosesFromCollisionObjectMessage object = Some (pose, sh, sp) →
            sh ≠ []).
  { intros object pose sh sp Hin _ Hsp. apply list_elem_of_singleton in Hin. subst object.
    vm_compute in Hsp. injection Hsp as _ <- _. discriminate. }
  exact (fork_messages_pushDiffs [Concrete.add_box] Concrete.empty_scene H1 H2).
Defined.

Lemma pushDiffs_after_clearDiffs_witness :
  pushDiffs true (clearDiffs Concrete.forked_box_scene) Concrete.empty_scene
  = Concrete.empty_scene.
Proof.
  assert (H1 : ∀ (allocator : string) (e : CollisionEnv),
            link_padding (env_copy allocator e) = link_padding e
            ∧ link_scale (env_copy allocator e) = link_scale e)
    by (intros allocator e; split; reflexivity).
  assert (H2 : parent_ Concrete.forked_box_scene = Some Concrete.empty_scene)
    by reflexivity.
  exact (pushDiffs_after_clearDiffs Concrete.forked_box_scene Concrete.empty_scene H1 H2).
Defined.

Lemma clearDiffs_discards_changes_witness :
  clearDiffs Concrete.forked_box_scene = clearDiffs (diff Concrete.empty_scene).
Proof.
  assert (H : parent_ (diff Concrete.empty_scene) = Some Concrete.empty_scene)
    by reflexivity.
  exact (proj1 (clearDiffs_discards_changes (diff Concrete.empty_scene)
                  Concrete.empty_scene H) Concrete.add_box).
Defined.

Lemma loadGeometryFromStream_no_object_witness :
  loadGeometryFromStream Concrete.empty_geometry Concrete.no_offset Concrete.empty_scene
  = (false, set_name_ "kitchen" Concrete.empty_scene).
Proof.
  assert (H : good (find_marker_line
                      (String.length
                         (buf (tellg (getline Concrete.empty_geometry
                                        (name_ Concrete.empty_scene)).2).2))
                      (tellg (getline Concrete.empty_geometry
                                (name_ Concrete.empty_scene)).2).2 EmptyString).2 = false)
    by (vm_compute; reflexivity).
  exact (loadGeometryFromStream_no_object Concrete.empty_geometry Concrete.no_offset
           Concrete.empty_scene eq_refl eq_refl H).
Defined.

End EffectsAtConcrete.
